(** * Citate-Genie: citation-form engine, resolver scoring and link activation

    A shallow embedding of the parts of [document_processor.py],
    [author_date_engine.py] and [author_date_processor.py] that decide the
    behaviour of the ibid recognizer, the source-key function, the citation
    history, the Phase 2 citation-form engine, the author-date resolver, the
    reference-list splice and the link activator; and of the functions
    around them: the provider searches, the creation of the reference list,
    the author-date processor, the relationships written back and the
    reading and writing of the notes.

    Data model.
    - A Python [str] is a [string]: the UTF-8 bytes of the text.  The
      character classes of the sources ([str.lower], [str.strip], [\s], [\d],
      [re.IGNORECASE], [int]) are modelled on the ASCII range; bytes above
      127 are neither cased, nor white space, nor digits.  On ASCII text
      ([Py.isascii]) the functions are those of Python, and the facts that
      say what a function computes on its text are stated for such text.
    - An optional field ([None] or a string) is an [option string]; Python
      truthiness ([if x:]) is [truthy].
    - A Python [float] is a binary64 [float] of the kernel, so every sum and
      comparison rounds exactly as it does in the source.
    - A [dict] is a [gmap]. *)

From Stdlib Require Import ZArith Ascii String List Bool Lia Sorting.Sorted.
From Stdlib Require Import Sorting.Permutation Floats.
From Stdlib Require DecimalString DecimalNat OrderedTypeEx.
From stdpp Require Import base option list strings gmap.

Local Open Scope string_scope.
Local Open Scope Z_scope.
Local Open Scope nat_scope.

(** ** Python strings *)

Module Py.

(** [c.isascii()] and [s.isascii()]: the characters below 128, each of
    which is one byte of the text. *)
Definition is_ascii (c : ascii) : bool := nat_of_ascii c <? 128.

Fixpoint isascii (s : string) : bool :=
  match s with
  | EmptyString => true
  | String c s' => is_ascii c && isascii s'
  end.

(** [str.isspace] on one character: TAB..CR, FS..US and the space. *)
Definition is_space (c : ascii) : bool :=
  let n := nat_of_ascii c in
  ((9 <=? n) && (n <=? 13)) || ((28 <=? n) && (n <=? 32)).

(** The white space [int] skips around a number: TAB..CR and the space.
    The separators FS..US, which [str.strip] removes, are not among it. *)
Definition is_int_space (c : ascii) : bool :=
  let n := nat_of_ascii c in
  ((9 <=? n) && (n <=? 13)) || (n =? 32).

(** The decimal digits of [\d] and of [int], on ASCII text. *)
Definition is_digit (c : ascii) : bool :=
  let n := nat_of_ascii c in (48 <=? n) && (n <=? 57).

Definition is_upper (c : ascii) : bool :=
  let n := nat_of_ascii c in (65 <=? n) && (n <=? 90).

Definition lower_char (c : ascii) : ascii :=
  if is_upper c then ascii_of_nat (nat_of_ascii c + 32) else c.

(** [s.lower()], on ASCII text *)
Fixpoint lower (s : string) : string :=
  match s with
  | EmptyString => EmptyString
  | String c s' => String (lower_char c) (lower s')
  end.

(** [s.lstrip(chars)], the set of characters given as a predicate. *)
Fixpoint lstrip_with (f : ascii -> bool) (s : string) : string :=
  match s with
  | EmptyString => EmptyString
  | String c s' => if f c then lstrip_with f s' else s
  end.

(** [s.rstrip(chars)] *)
Fixpoint rstrip_with (f : ascii -> bool) (s : string) : string :=
  match s with
  | EmptyString => EmptyString
  | String c s' =>
      match rstrip_with f s' with
      | EmptyString => if f c then EmptyString else String c EmptyString
      | r => String c r
      end
  end.

(** [s.strip()], on ASCII text *)
Definition strip (s : string) : string :=
  rstrip_with is_space (lstrip_with is_space s).

(** [c in s] for a single character [c]. *)
Fixpoint has_char (c : ascii) (s : string) : bool :=
  match s with
  | EmptyString => false
  | String d s' => Ascii.eqb c d || has_char c s'
  end.

(** [s.split(c)[0]]: the text before the first [c]. *)
Fixpoint before_char (c : ascii) (s : string) : string :=
  match s with
  | EmptyString => EmptyString
  | String d s' => if Ascii.eqb c d then EmptyString else String d (before_char c s')
  end.

(** [s.startswith(p)] *)
Fixpoint startswith (p s : string) : bool :=
  match p, s with
  | EmptyString, _ => true
  | String a p', String b s' => Ascii.eqb a b && startswith p' s'
  | String _ _, EmptyString => false
  end.

(** [needle in hay] *)
Fixpoint contains (needle hay : string) : bool :=
  startswith needle hay ||
  match hay with
  | EmptyString => false
  | String _ hay' => contains needle hay'
  end.

(** [s[:n]] *)
Fixpoint take (n : nat) (s : string) : string :=
  match n, s with
  | S n', String c s' => String c (take n' s')
  | _, _ => EmptyString
  end.

(** [s[n:]] *)
Fixpoint drop (n : nat) (s : string) : string :=
  match n, s with
  | S n', String _ s' => drop n' s'
  | _, _ => s
  end.

(** [s[a:b]] for [0 <= a], [0 <= b] *)
Definition slice (a b : nat) (s : string) : string := take (b - a) (drop a s).

(** Truthiness of an optional string: [None] and the empty string are
    false. *)
Definition truthy (o : option string) : bool :=
  match o with
  | Some (String _ _) => true
  | _ => false
  end.

(** The value of a field known to be a string; [None] only arises where the
    source has already tested the field. *)
Definition str_of (o : option string) : string := default EmptyString o.

(** [int(s)] on a string: surrounding white space, an optional sign, then
    decimal digits that single underscores may separate.  [None] stands for
    [ValueError].  The interpreter's limit on the number of digits (4300
    unless it is configured otherwise) is not modelled: the facts about
    numbers read from arbitrary text are stated for texts within it. *)
Fixpoint int_digits (s : string) (acc : Z) (after_digit : bool) : option Z :=
  match s with
  | EmptyString => if after_digit then Some acc else None
  | String c s' =>
      if is_digit c
      then int_digits s' (10 * acc + Z.of_nat (nat_of_ascii c - 48))%Z true
      else if Ascii.eqb c "_" && after_digit then
        match s' with
        | EmptyString => None
        | String _ _ => int_digits s' acc false
        end
      else None
  end.

Definition int (s : string) : option Z :=
  match rstrip_with is_int_space (lstrip_with is_int_space s) with
  | String "-" t => option_map Z.opp (int_digits t 0%Z false)
  | String "+" t => int_digits t 0%Z false
  | t => int_digits t 0%Z false
  end.

(** [str(n)] for a natural number. *)
Definition str_of_nat (n : nat) : string :=
  DecimalString.NilEmpty.string_of_uint (Nat.to_uint n).

End Py.

(** ** Regular expressions of the [re] module

    The patterns of the sources use literals, character classes, sequence,
    alternation, [?], [*] and [+] on a character class, one capture group
    and [$].  [run] is the backtracking matcher: the list of ways the pattern
    can match at the start of the input, in the order [re] tries them (greedy
    choices first), each with the captured group and the rest of the input. *)

Module Re.

Inductive regex : Type :=
| Chr (f : ascii -> bool)          (* one character of a class *)
| Lit (w : string)                 (* a literal, subject to IGNORECASE *)
| Seq (a b : regex)
| Alt (a b : regex)
| Opt (a : regex)                  (* a? *)
| Star (f : ascii -> bool)         (* [class]* *)
| Plus (f : ascii -> bool)         (* [class]+ *)
| Group (a : regex)                (* ( a ), group 1 *)
| Dollar.                          (* $ *)

(** State of a match attempt: group 1 and the input still to be read. *)
Definition state : Type := option string * string.

(** Two characters are the same, or under [re.IGNORECASE] the same letter
    in either case, on ASCII text. *)
Definition chr_eq (ignorecase : bool) (a b : ascii) : bool :=
  if ignorecase then Ascii.eqb (Py.lower_char a) (Py.lower_char b)
  else Ascii.eqb a b.

Fixpoint run_lit (ic : bool) (w s : string) : list string :=
  match w with
  | EmptyString => [s]
  | String a w' =>
      match s with
      | String c s' => if chr_eq ic a c then run_lit ic w' s' else []
      | EmptyString => []
      end
  end.

(** Greedy star: the longest run first, then every shorter one. *)
Fixpoint run_star (f : ascii -> bool) (s : string) : list string :=
  match s with
  | String c s' => if f c then run_star f s' ++ [s] else [s]
  | EmptyString => [s]
  end.

Definition run_plus (f : ascii -> bool) (s : string) : list string :=
  match s with
  | String c s' => if f c then run_star f s' else []
  | EmptyString => []
  end.

(** [$] without MULTILINE: at the end, or before a final newline. *)
Definition at_end (s : string) : bool :=
  match s with
  | EmptyString => true
  | String c EmptyString => Ascii.eqb c "010"
  | _ => false
  end.

Definition consumed (s r : string) : string :=
  Py.take (String.length s - String.length r) s.

Fixpoint run (ic : bool) (e : regex) (st : state) : list state :=
  match e with
  | Chr f =>
      match st.2 with
      | String c s' => if f c then [(st.1, s')] else []
      | EmptyString => []
      end
  | Lit w => map (pair st.1) (run_lit ic w st.2)
  | Seq a b => flat_map (run ic b) (run ic a st)
  | Alt a b => run ic a st ++ run ic b st
  | Opt a => run ic a st ++ [st]
  | Star f => map (pair st.1) (run_star f st.2)
  | Plus f => map (pair st.1) (run_plus f st.2)
  | Group a => map (fun st' => (Some (consumed st.2 st'.2), st'.2)) (run ic a st)
  | Dollar => if at_end st.2 then [st] else []
  end.

(** [pattern.match(s)]: the first way to match, if any. *)
Definition match_ (ic : bool) (e : regex) (s : string) : option state :=
  head (run ic e (None, s)).

(** [pattern.finditer(s)]: the spans [(start, end)] of the successive
    non-overlapping matches, scanning from the left; [pos] is the offset of
    [s] in the text.  After an empty match the scan moves one character on.
    [fuel] bounds the number of positions visited. *)
Fixpoint finditer_fuel (fuel : nat) (ic : bool) (e : regex) (pos : nat) (s : string)
    : list (nat * nat) :=
  match fuel with
  | O => []
  | S k =>
      match match_ ic e s with
      | Some (_, r) =>
          match String.length s - String.length r with
          | O =>
              (pos, pos) ::
              match s with
              | EmptyString => []
              | String _ s' => finditer_fuel k ic e (S pos) s'
              end
          | n => (pos, pos + n) :: finditer_fuel k ic e (pos + n) r
          end
      | None =>
          match s with
          | EmptyString => []
          | String _ s' => finditer_fuel k ic e (S pos) s'
          end
      end
  end.

Definition finditer (ic : bool) (e : regex) (s : string) : list (nat * nat) :=
  finditer_fuel (S (String.length s)) ic e 0 s.

(** What the matcher computes, stated without the matcher: [matches ic e u
    rest g g'] holds when [e] can match exactly the text [u] in front of
    [rest], taking group 1 from [g] to [g']. *)
Fixpoint str_all (f : ascii -> bool) (u : string) : bool :=
  match u with
  | EmptyString => true
  | String c u' => f c && str_all f u'
  end.

Fixpoint lit_eq (ic : bool) (w u : string) : bool :=
  match w, u with
  | EmptyString, EmptyString => true
  | String a w', String c u' => chr_eq ic a c && lit_eq ic w' u'
  | _, _ => false
  end.

Fixpoint matches (ic : bool) (e : regex) (u rest : string) (g g' : option string) : Prop :=
  match e with
  | Chr f => g' = g /\ exists c, u = String c EmptyString /\ f c = true
  | Lit w => g' = g /\ lit_eq ic w u = true
  | Seq a b =>
      exists u1 u2 g1, u = u1 +:+ u2 /\
        matches ic a u1 (u2 +:+ rest) g g1 /\ matches ic b u2 rest g1 g'
  | Alt a b => matches ic a u rest g g' \/ matches ic b u rest g g'
  | Opt a => matches ic a u rest g g' \/ (u = EmptyString /\ g' = g)
  | Star f => g' = g /\ str_all f u = true
  | Plus f => g' = g /\ u <> EmptyString /\ str_all f u = true
  | Group a => (exists g0, matches ic a u rest g g0) /\ g' = Some u
  | Dollar => u = EmptyString /\ g' = g /\ at_end rest = true
  end.

Definition one (c : ascii) : regex := Chr (Ascii.eqb c).
Definition ws : ascii -> bool := Py.is_space.
Definition digit : ascii -> bool := Py.is_digit.

End Re.

(** ** Ibid recognizer ([document_processor.py], lines 45-107) *)

Import Re.

(** [[,.]] *)
Definition comma_or_dot (c : ascii) : bool := Ascii.eqb c "," || Ascii.eqb c ".".

(** [[\-–]]: a hyphen, or an en dash (three bytes in UTF-8). *)
Definition dash : regex := Alt (one "-") (Lit "–").

(** [IBID_PATTERN], compiled with [re.IGNORECASE].  Piece by piece:
    - [^(?:ibid\.?|ibidem\.?|id\.?)]   the token;
    - [(?:\s* ... )?]                  an optional tail, made of
      - [(?:at\s+|[,.]?\s* )?]         a separator,
      - [(?:pp?\.?\s* )?]              a page marker,
      - [(\d+[\-–]?\d* )?]            group 1, the page range;
    - [\.?$]                          a final period and the end. *)
Definition IBID_TOKEN : regex :=
  Alt (Seq (Lit "ibid") (Opt (Lit ".")))
 (Alt (Seq (Lit "ibidem") (Opt (Lit ".")))
      (Seq (Lit "id") (Opt (Lit ".")))).

Definition IBID_SEPARATOR : regex :=
  Alt (Seq (Lit "at") (Plus ws))
      (Seq (Opt (Chr comma_or_dot)) (Star ws)).

Definition IBID_PAGE_MARKER : regex :=
  Seq (Lit "p") (Seq (Opt (Lit "p")) (Seq (Opt (Lit ".")) (Star ws))).

Definition IBID_PAGE : regex :=
  Seq (Plus digit) (Seq (Opt dash) (Star digit)).

Definition IBID_PATTERN : regex :=
  Seq IBID_TOKEN
 (Seq (Opt (Seq (Star ws)
           (Seq (Opt IBID_SEPARATOR)
           (Seq (Opt IBID_PAGE_MARKER)
                (Opt (Group IBID_PAGE))))))
 (Seq (Opt (Lit "."))
      Dollar)).

Definition is_ibid (text : string) : bool :=
  if negb (Py.truthy (Some text)) then false
  else
    let cleaned := Py.strip text in
    match match_ true IBID_PATTERN cleaned with
    | Some _ => true
    | None => false
    end.

Definition extract_ibid_page (text : string) : option string :=
  if negb (Py.truthy (Some text)) then None
  else
    let cleaned := Py.strip text in
    match match_ true IBID_PATTERN cleaned with
    | Some (Some g, _) => if Py.truthy (Some g) then Some (Py.strip g) else None
    | _ => None
    end.

(** ** URL normalization ([document_processor.py], lines 110-161) *)

Definition normalize_url (url : string) : string :=
  if negb (Py.truthy (Some url)) then EmptyString
  else
    let normalized := Py.lower (Py.strip url) in
    let normalized := Py.rstrip_with (Ascii.eqb "/") normalized in
    if Py.has_char "?" normalized
    then Py.before_char "?" normalized
    else normalized.

Definition urls_match (url1 url2 : option string) : bool :=
  if negb (Py.truthy url1) || negb (Py.truthy url2) then false
  else String.eqb (normalize_url (Py.str_of url1)) (normalize_url (Py.str_of url2)).

(** ** Metadata and source keys ([document_processor.py], lines 168-241) *)

(** Modelled from the spec: the record [CitationMetadata] of [models.py],
    which is not among the sources.  Section 3 of the specification lists its
    fields; every field may be empty.  Only the fields the modelled functions
    read or write are kept. *)
Record CitationMetadata : Type := {
  title : option string;
  authors : list string;
  year : option string;
  journal : option string;
  publisher : option string;
  volume : option string;
  issue : option string;
  pages : option string;
  doi : option string;
  url : option string;
  case_name : option string;
  citation : option string;
  source_engine : option string;
  raw_source : option string
}.

(** The helpers the sources import from modules that are not among them. *)
Class Models : Type := {
  (** [models.normalize_doi] *)
  normalize_doi : string -> string
}.

Section SourceKey.
Context `{Models}.

Definition generate_source_key (metadata : option CitationMetadata) : option string :=
  match metadata with
  | None => None
  | Some metadata =>
      (* Priority 1: DOI (normalized for consistent matching) *)
      let normalized := normalize_doi (Py.str_of (doi metadata)) in
      if Py.truthy (doi metadata) && Py.truthy (Some normalized)
      then Some ("doi:" +:+ normalized)
      (* Priority 2: URL (normalized) *)
      else if Py.truthy (url metadata)
      then Some ("url:" +:+ normalize_url (Py.str_of (url metadata)))
      (* Priority 3: Legal case (case name + citation) *)
      else if Py.truthy (case_name metadata) && Py.truthy (citation metadata)
      then Some ("legal:" +:+ Py.strip (Py.lower (Py.str_of (case_name metadata)))
                 +:+ "|" +:+ Py.strip (Py.lower (Py.str_of (citation metadata))))
      (* Priority 4: Title + first author *)
      else if Py.truthy (title metadata)
      then
        let key := "title:" +:+ Py.strip (Py.lower (Py.str_of (title metadata))) in
        match authors metadata with
        | a :: _ => Some (key +:+ "|author:" +:+ Py.strip (Py.lower a))
        | [] => Some key
        end
      (* Priority 5: Just case name for legal without citation *)
      else if Py.truthy (case_name metadata)
      then Some ("case:" +:+ Py.strip (Py.lower (Py.str_of (case_name metadata))))
      else None
  end.

Definition sources_match (metadata1 metadata2 : option CitationMetadata) : bool :=
  let key1 := generate_source_key metadata1 in
  let key2 := generate_source_key metadata2 in
  match key1, key2 with
  | Some k1, Some k2 => String.eqb k1 k2
  | _, _ => false
  end.

(** ** Citation history ([document_processor.py], lines 256-345) *)

Record CitationHistoryEntry : Type := {
  entry_metadata : option CitationMetadata;
  entry_formatted : string;
  source_key : option string;
  note_number : nat
}.

Record CitationHistory : Type := {
  previous : option CitationHistoryEntry;
  all_sources : gmap string CitationHistoryEntry;
  note_counter : nat
}.

(** [CitationHistory()] *)
Definition new_history : CitationHistory :=
  {| previous := None; all_sources := ∅; note_counter := 0 |}.

Definition add (self : CitationHistory) (metadata : option CitationMetadata)
    (formatted : string) : CitationHistory :=
  let note_counter' := note_counter self + 1 in
  let source_key := generate_source_key metadata in
  let entry :=
    {| entry_metadata := metadata; entry_formatted := formatted;
       source_key := source_key; note_number := note_counter' |} in
  {| previous := Some entry;
     all_sources :=
       match source_key with
       | Some k =>
           if Py.truthy source_key && negb (bool_decide (is_Some (all_sources self !! k)))
           then <[k := entry]> (all_sources self)
           else all_sources self
       | None => all_sources self
       end;
     note_counter := note_counter' |}.

Definition is_same_as_previous (self : CitationHistory)
    (metadata : option CitationMetadata) : bool :=
  match previous self with
  | None => false
  | Some p => sources_match metadata (entry_metadata p)
  end.

Definition has_been_cited_before (self : CitationHistory)
    (metadata : option CitationMetadata) : bool :=
  match generate_source_key metadata with
  | None => false
  | Some k => bool_decide (is_Some (all_sources self !! k))
  end.

Definition get_previous_metadata (self : CitationHistory) : option CitationMetadata :=
  match previous self with
  | Some p => entry_metadata p
  | None => None
  end.

Definition get_previous_url (self : CitationHistory) : option string :=
  match previous self with
  | Some p =>
      match entry_metadata p with
      | Some m => url m
      | None => None
      end
  | None => None
  end.

End SourceKey.

(** ** The note pipeline ([document_processor.py], lines 1128-1434) *)

Inductive note_type : Type := endnote | footnote.

(** A note as [get_endnotes] and [get_footnotes] return it. *)
Record Note : Type := {
  note_id : string;
  note_text : string
}.

(** The dictionary [fetch_metadata_for_note] builds in Phase 1. *)
Record Fetched : Type := {
  f_note_id : string;
  f_note_type : note_type;
  f_original_text : string;
  f_is_explicit_ibid : bool;
  f_ibid_page : option string;
  f_metadata : option CitationMetadata;
  f_formatted : option string;
  f_current_url : option string;
  f_error : option string
}.

Record ProcessedCitation : Type := {
  original : string;
  formatted : string;
  pc_metadata : option CitationMetadata;
  pc_url : option string;
  success : bool;
  error : option string;
  citation_form : string
}.

(** A call of [processor.write_endnote] or [processor.write_footnote]: the
    only way Phase 2 changes the document. *)
Record WriteOp : Type := {
  w_type : note_type;
  w_id : string;
  w_content : string
}.

(** [unified_router.get_citation(text, style)]: the resolved metadata and its
    full formatted citation; [None] when the call raises. *)
Class Router : Type := {
  get_citation : string -> string -> option (option CitationMetadata * option string)
}.

(** The formatter interface of [formatters.base]. *)
Class Formatter : Type := {
  (** [BaseFormatter.format_ibid(page)], a static method *)
  format_ibid : option string -> string;
  (** [get_formatter(style).format_short(metadata)] *)
  format_short : string -> CitationMetadata -> string
}.

Section Pipeline.
Context `{Models} `{Router} `{Formatter}.

(** The wrapper of [get_citation]: an exception gives [(None, None)]. *)
Definition get_citation_with_timeout (text style : string)
    : option CitationMetadata * option string :=
  match get_citation text style with
  | Some r => r
  | None => (None, None)
  end.

(** Phase 1, for one note. *)
Definition fetch_metadata_for_note (style : string) (note : Note) (nt : note_type) : Fetched :=
  let original_text := note_text note in
  if is_ibid original_text then
    {| f_note_id := note_id note; f_note_type := nt;
       f_original_text := original_text;
       f_is_explicit_ibid := true;
       f_ibid_page := extract_ibid_page original_text;
       f_metadata := None; f_formatted := None;
       f_current_url := None; f_error := None |}
  else
    let '(metadata, full_formatted) := get_citation_with_timeout original_text style in
    let current_url :=
      match metadata with
      | Some m => url m
      | None => None
      end in
    let current_url :=
      if negb (Py.truthy current_url) &&
         Py.startswith "http" (Py.strip original_text)
      then Some (Py.strip original_text)
      else current_url in
    {| f_note_id := note_id note; f_note_type := nt;
       f_original_text := original_text;
       f_is_explicit_ibid := false;
       f_ibid_page := None;
       f_metadata := metadata; f_formatted := full_formatted;
       f_current_url := current_url;
       f_error := match metadata with
                  | Some _ => None
                  | None => Some "No metadata found"
                  end |}.

Definition write_note (nt : note_type) (id content : string) : WriteOp :=
  {| w_type := nt; w_id := id; w_content := content |}.

(** Phase 2, for one note: the new history, the result appended to the log
    and the writes made to the document. *)
Definition phase2_step (style : string) (history : CitationHistory) (data : Fetched)
    : CitationHistory * ProcessedCitation * list WriteOp :=
  let note_id := f_note_id data in
  let nt := f_note_type data in
  let original_text := f_original_text data in
  (* Case 1: Explicit ibid reference *)
  if f_is_explicit_ibid data then
    match get_previous_metadata history with
    | None =>
        (history,
         {| original := original_text; formatted := original_text;
            pc_metadata := None; pc_url := None; success := false;
            error := Some "ibid reference but no previous citation found";
            citation_form := "ibid" |},
         [])
    | Some previous_metadata =>
        let formatted := format_ibid (f_ibid_page data) in
        (history,
         {| original := original_text; formatted := formatted;
            pc_metadata := Some previous_metadata;
            pc_url := get_previous_url history; success := true;
            error := None; citation_form := "ibid" |},
         [write_note nt note_id formatted])
    end
  else
    (* Case 2: API lookup failed *)
    match f_metadata data, f_formatted data with
    | Some metadata, Some (String c0 f0) =>
        let full_formatted := String c0 f0 in
        let current_url := f_current_url data in
        (* Case 3: same URL as previous *)
        let previous_url := get_previous_url history in
        if Py.truthy current_url && Py.truthy previous_url &&
           urls_match current_url previous_url then
          let formatted := format_ibid None in
          (history,
           {| original := original_text; formatted := formatted;
              pc_metadata := get_previous_metadata history;
              pc_url := current_url; success := true;
              error := None; citation_form := "ibid" |},
           [write_note nt note_id formatted])
        (* Case 4: same source as previous *)
        else if is_same_as_previous history (Some metadata) then
          let formatted := format_ibid None in
          (add history (Some metadata) formatted,
           {| original := original_text; formatted := formatted;
              pc_metadata := Some metadata;
              pc_url := current_url; success := true;
              error := None; citation_form := "ibid" |},
           [write_note nt note_id formatted])
        (* Case 5: previously cited *)
        else if has_been_cited_before history (Some metadata) then
          let formatted := format_short style metadata in
          (add history (Some metadata) formatted,
           {| original := original_text; formatted := formatted;
              pc_metadata := Some metadata;
              pc_url := current_url; success := true;
              error := None; citation_form := "short" |},
           [write_note nt note_id formatted])
        (* Case 6: new source *)
        else
          (add history (Some metadata) full_formatted,
           {| original := original_text; formatted := full_formatted;
              pc_metadata := Some metadata;
              pc_url := current_url; success := true;
              error := None; citation_form := "full" |},
           [write_note nt note_id full_formatted])
    | _, _ =>
        (history,
         {| original := original_text; formatted := original_text;
            pc_metadata := None; pc_url := None; success := false;
            error := f_error data; citation_form := "full" |},
         [])
    end.

(** The Phase 2 loop over the fetched notes, in document order. *)
Fixpoint phase2 (style : string) (history : CitationHistory) (fetched : list Fetched)
    : CitationHistory * list ProcessedCitation * list WriteOp :=
  match fetched with
  | [] => (history, [], [])
  | data :: rest =>
      let '(history', r, w) := phase2_step style history data in
      let '(history'', rs, ws) := phase2 style history' rest in
      (history'', r :: rs, (w ++ ws)%list)
  end.

(** Both phases on the notes read from the document. *)
Definition process_notes (style : string) (endnotes footnotes : list Note)
    : CitationHistory * list ProcessedCitation * list WriteOp :=
  let all_notes :=
    (map (fun n => (n, endnote)) endnotes ++ map (fun n => (n, footnote)) footnotes)%list in
  let fetched_data :=
    map (fun a => fetch_metadata_for_note style a.1 a.2) all_notes in
  phase2 style new_history fetched_data.

End Pipeline.

(** ** The author-date resolver ([author_date_engine.py]) *)

Module AuthorDate.

#[local] Set Warnings "-inexact-float".
Local Open Scope float_scope.

Record SearchResult : Type := {
  metadata : CitationMetadata;
  confidence : float;
  match_reason : string
}.

(** [SearchResult.__lt__] *)
Definition lt (self other : SearchResult) : bool :=
  confidence self <? confidence other.

(** [min(a, b)] and [max(a, b)] of Python on two floats: the first argument
    unless the second is strictly smaller (larger). *)
Definition py_min (a b : float) : float := if b <? a then b else a.
Definition py_max (a b : float) : float := if a <? b then b else a.

(** [float(n)] of a small non-negative integer. *)
Definition float_of_nat (n : nat) : float :=
  PrimFloat.of_uint63 (Uint63.of_Z (Z.of_nat n)).

(** [for a in authors_lower: if needle in a: confidence += bonus; break] *)
Fixpoint bonus_on_first_match (needle : string) (authors_lower : list string)
    (confidence bonus : float) : float :=
  match authors_lower with
  | [] => confidence
  | a :: rest =>
      if Py.contains needle a then confidence + bonus
      else bonus_on_first_match needle rest confidence bonus
  end.

Definition opt_eqb (o : option string) (s : string) : bool :=
  match o with
  | Some t => String.eqb t s
  | None => false
  end.

Definition _calculate_confidence (metadata : CitationMetadata) (author year_ : string)
    (second_author : option string) : float :=
  let confidence := 0.0 in
  (* Year match *)
  let confidence :=
    if opt_eqb (year metadata) year_ then confidence + 0.3
    else if Py.truthy (year metadata) then
      match Py.int (Py.str_of (year metadata)), Py.int year_ with
      | Some a, Some b =>
          if (Z.abs (a - b) <=? 1)%Z then confidence + 0.2 else confidence
      | _, _ => confidence
      end
    else confidence in
  (* Author match *)
  let author_lower := Py.lower author in
  let confidence :=
    match authors metadata with
    | [] => confidence
    | _ :: _ =>
        let authors_lower := map Py.lower (authors metadata) in
        let confidence :=
          bonus_on_first_match author_lower authors_lower confidence 0.3 in
        if Py.truthy second_author then
          let second_lower := Py.lower (Py.str_of second_author) in
          bonus_on_first_match second_lower authors_lower confidence 0.15
        else confidence
    end in
  (* DOI presence *)
  let confidence :=
    if Py.truthy (doi metadata) then confidence + 0.15 else confidence in
  (* Complete metadata bonus *)
  let completeness := 0%nat in
  let completeness :=
    if Py.truthy (title metadata) then (completeness + 1)%nat else completeness in
  let completeness :=
    if Py.truthy (journal metadata) || Py.truthy (publisher metadata)
    then (completeness + 1)%nat else completeness in
  let completeness :=
    if Py.truthy (volume metadata) || Py.truthy (pages metadata)
    then (completeness + 1)%nat else completeness in
  let confidence := confidence + float_of_nat completeness * 0.05 in
  py_min 1.0 confidence.

(** [results.sort(reverse=True)]: the list is reversed, sorted in ascending
    order by insertion (each element after those that are not greater than
    it, compared with [__lt__] only), and reversed again. *)
Fixpoint insert_sorted (pivot : SearchResult) (sorted : list SearchResult)
    : list SearchResult :=
  match sorted with
  | [] => [pivot]
  | e :: rest =>
      if lt pivot e then pivot :: e :: rest
      else e :: insert_sorted pivot rest
  end.

Definition sort_ascending (l : list SearchResult) : list SearchResult :=
  fold_left (fun sorted pivot => insert_sorted pivot sorted) l [].

Definition sort_reverse (l : list SearchResult) : list SearchResult :=
  rev (sort_ascending (rev l)).

(** [metadata.raw_source = value] *)
Definition set_raw_source (m : CitationMetadata) (value : string) : CitationMetadata :=
  {| title := title m; authors := authors m; year := year m;
     journal := journal m; publisher := publisher m; volume := volume m;
     issue := issue m; pages := pages m; doi := doi m; url := url m;
     case_name := case_name m; citation := citation m;
     source_engine := source_engine m; raw_source := Some value |}.

(** The dictionary [claude_router.guess_citation] returns; a field is [None]
    when its key is absent. *)
Record Guess : Type := {
  g_confidence : option float;
  g_title : option string;
  g_authors : option (list string);
  g_year : option string;
  g_journal : option string;
  g_volume : option string;
  g_issue : option string;
  g_pages : option string;
  g_publisher : option string;
  g_doi : option string
}.

(** The contextual-guessing oracle; [None] when the call raises or the
    module cannot be imported. *)
Class Oracle : Type := {
  guess_citation : string -> option Guess
}.

(** What [search] does to the outside world besides returning. *)
Inductive event : Type :=
| OracleCall (author year_ : string) (second_author context : option string).

Section Engine.
Context `{Oracle}.

Definition claude_query (author year_ : string) (second_author context : option string)
    : string :=
  let query :=
    if Py.truthy second_author
    then author +:+ " & " +:+ Py.str_of second_author +:+ " (" +:+ year_ +:+ ")"
    else author +:+ " (" +:+ year_ +:+ ")" in
  if Py.truthy context
  then query +:+ String "010" (String "010" "Context: This citation appears in a document about ")
       +:+ Py.str_of context +:+ "."
  else query.

Definition _search_claude (author year_ : string) (second_author context : option string)
    : list SearchResult :=
  match guess_citation (claude_query author year_ second_author context) with
  | None => []
  | Some guess =>
      if default 0.0 (g_confidence guess) <? 0.5 then []
      else
        let metadata :=
          {| title := Some (default EmptyString (g_title guess));
             authors := default [] (g_authors guess);
             year := Some (default year_ (g_year guess));
             journal := Some (default EmptyString (g_journal guess));
             publisher := Some (default EmptyString (g_publisher guess));
             volume := Some (default EmptyString (g_volume guess));
             issue := Some (default EmptyString (g_issue guess));
             pages := Some (default EmptyString (g_pages guess));
             doi := Some (default EmptyString (g_doi guess));
             url := None; case_name := None; citation := None;
             source_engine := Some "Claude AI"; raw_source := None |} in
        let author_lower := Py.lower author in
        let authors_match :=
          existsb (fun a => Py.contains author_lower (Py.lower a)) (authors metadata) in
        if Py.truthy (title metadata) && authors_match then
          let confidence := default 0.7 (g_confidence guess) in
          [ {| metadata := metadata;
               confidence := py_min 0.95 (confidence + 0.1);
               match_reason := "Claude AI contextual match" |} ]
        else []
  end.

(** The results the collection loop gathers: one entry per provider task in
    order of completion, [None] for a task that raised. *)
Definition collect (completed : list (option (list SearchResult))) : list SearchResult :=
  flat_map (fun r => default [] r) completed.

(** What a call of [search] comes to: it returns metadata or [None], or the
    [TimeoutError] of [as_completed] leaves it, the loop over the tasks not
    being inside a [try]. *)
Inductive outcome : Type :=
| Returns (found : option CitationMetadata)
| TimeoutError.

(** [search], from the provider tasks on: [completed] has the tasks that
    are done within [timeout], in order of completion, and [pending] is the
    number of tasks still running when that time is up.  The second
    component is the trace of oracle calls. *)
Definition search (author year_ : string) (second_author : option string)
    (context : option string) (completed : list (option (list SearchResult)))
    (pending : nat)
    : outcome * list event :=
  if String.eqb year_ "n.d." then (Returns None, [])
  else
    let results := collect completed in
    match pending with
    | S _ => (TimeoutError, [])
    | O =>
    let raw := "(" +:+ author +:+ ", " +:+ year_ +:+ ")" in
    let fallback (results : list SearchResult) :=
      let claude_results := _search_claude author year_ second_author context in
      let results := (results ++ claude_results)%list in
      match results with
      | [] => (Returns None, [OracleCall author year_ second_author context])
      | _ :: _ =>
          match sort_reverse results with
          | best :: _ =>
              (Returns (Some (set_raw_source (metadata best) raw)),
               [OracleCall author year_ second_author context])
          | [] => (Returns None, [OracleCall author year_ second_author context])
          end
      end in
    match results with
    | _ :: _ =>
        let results := sort_reverse results in
        match results with
        | best :: _ =>
            if 0.6 <=? confidence best
            then (Returns (Some (set_raw_source (metadata best) raw)), [])
            else fallback results
        | [] => fallback results
        end
    | [] => fallback results
    end
    end.

End Engine.

End AuthorDate.

(** ** The reference-list splice ([author_date_processor.py], lines 300-391) *)

Module References.

(** [^References?\s*$|^Bibliography\s*$|^References Cited\s*$], matched with
    [re.IGNORECASE]. *)
Definition HEADING_PATTERN : regex :=
  Alt (Seq (Lit "Reference") (Seq (Opt (Lit "s")) (Seq (Star ws) Dollar)))
 (Alt (Seq (Lit "Bibliography") (Seq (Star ws) Dollar))
      (Seq (Lit "References Cited") (Seq (Star ws) Dollar))).

(** A child of the body element: a paragraph with the texts of its [w:t]
    descendants ([None] for an element without text), the section
    properties, or any other element. *)
Inductive BodyChild : Type :=
| P (texts : list (option string))
| SectPr
| Other (tag : string).

(** [''.join(t.text or '' for t in para.findall('.//w:t', NS))] *)
Definition para_text (texts : list (option string)) : string :=
  fold_right (fun t acc => Py.str_of t +:+ acc) EmptyString texts.

(** The test of the scan loop on one paragraph. *)
Definition is_references_heading (texts : list (option string)) : bool :=
  match match_ true HEADING_PATTERN (Py.strip (para_text texts)) with
  | Some _ => true
  | None => false
  end.

(** [body.findall('w:p', NS)] *)
Definition paragraphs (body : list BodyChild) : list (list (option string)) :=
  flat_map (fun c => match c with P t => [t] | _ => [] end) body.

(** The scan for [references_start_idx]: the first heading paragraph. *)
Fixpoint find_references (paras : list (list (option string))) (i : nat) : option nat :=
  match paras with
  | [] => None
  | para :: rest =>
      if is_references_heading para then Some i
      else find_references rest (S i)
  end.

(** [for para in paragraphs[idx:]: body.remove(para)] *)
Fixpoint remove_paragraphs_from (idx : nat) (body : list BodyChild) : list BodyChild :=
  match body with
  | [] => []
  | P t :: rest =>
      match idx with
      | O => remove_paragraphs_from O rest
      | S k => P t :: remove_paragraphs_from k rest
      end
  | c :: rest => c :: remove_paragraphs_from idx rest
  end.

Definition has_sect_pr (body : list BodyChild) : bool :=
  existsb (fun c => match c with SectPr => true | _ => false end) body.

(** [for i, para in enumerate(new_paragraphs): body.insert(insert_idx + i, para)] *)
Definition insert_references (body new_paragraphs : list BodyChild) : list BodyChild :=
  let insert_idx :=
    if has_sect_pr body then length body - 1 else length body in
  (firstn insert_idx body ++ new_paragraphs ++ skipn insert_idx body)%list.

(** The rewrite of the body element, given the paragraphs
    [_create_reference_paragraphs] built. *)
Definition update_body (body new_paragraphs : list BodyChild) : list BodyChild :=
  let references_start_idx := find_references (paragraphs body) 0 in
  let body :=
    match references_start_idx with
    | Some idx => remove_paragraphs_from idx body
    | None => body
    end in
  insert_references body new_paragraphs.

End References.

(** ** Relationship sidecars and the link activator
       ([document_processor.py], lines 718-1126) *)

Module Links.

Definition HYPERLINK_TYPE : string :=
  "http://schemas.openxmlformats.org/officeDocument/2006/relationships/hyperlink".

Record Relationship : Type := {
  rel_type : string;
  target : string;
  mode : string
}.

(** A [Relationship] element of a [.rels] file: Id, Type, Target,
    TargetMode. *)
Record RelEntry : Type := {
  e_id : string;
  e_type : string;
  e_target : string;
  e_mode : string
}.

Record RelsManager : Type := {
  relationships : gmap string Relationship;
  next_id : nat;
  url_to_rid : gmap string string
}.

Definition empty_rels : RelsManager :=
  {| relationships := ∅; next_id := 1; url_to_rid := ∅ |}.

(** One turn of the loop of [_load]. *)
Definition load_entry (self : RelsManager) (rel : RelEntry) : RelsManager :=
  let r_id := e_id rel in
  {| relationships :=
       <[r_id := {| rel_type := e_type rel; target := e_target rel; mode := e_mode rel |}]>
         (relationships self);
     next_id :=
       if Py.startswith "rId" r_id then
         match Py.int (Py.drop 3 r_id) with
         | Some num =>
             if (Z.of_nat (next_id self) <=? num)%Z then Z.to_nat (num + 1) else next_id self
         | None => next_id self
         end
       else next_id self;
     url_to_rid :=
       if String.eqb (e_type rel) HYPERLINK_TYPE
       then <[e_target rel := r_id]> (url_to_rid self)
       else url_to_rid self |}.

(** [RelsManager(rels_path)] on the entries of an existing file; no file, or
    one that does not parse, gives no entry. *)
Definition load (entries : list RelEntry) : RelsManager :=
  fold_left load_entry entries empty_rels.

Definition rid (n : nat) : string := "rId" +:+ Py.str_of_nat n.

Definition add_hyperlink (self : RelsManager) (url : string) : string * RelsManager :=
  match url_to_rid self !! url with
  | Some r_id => (r_id, self)
  | None =>
      let r_id := rid (next_id self) in
      (r_id,
       {| relationships :=
            <[r_id := {| rel_type := HYPERLINK_TYPE; target := url; mode := "External" |}]>
              (relationships self);
          next_id := next_id self + 1;
          url_to_rid := <[url := r_id]> (url_to_rid self) |})
  end.

(** The class of [URL_PATTERN]: any character but white space, the angle
    brackets and the two quotation marks. *)
Definition url_char (c : ascii) : bool :=
  negb (Py.is_space c || Ascii.eqb c "<" || Ascii.eqb c ">"
        || Ascii.eqb c "034" || Ascii.eqb c "'").

(** [URL_PATTERN]: [https?://] followed by one or more characters of the
    class; case-sensitive. *)
Definition URL_PATTERN : regex :=
  Seq (Lit "http") (Seq (Opt (one "s")) (Seq (Lit "://") (Plus url_char))).

(** The characters [url.rstrip] removes from the end of a match: period,
    comma, semicolon, colon, closing parenthesis and bracket, and the two
    quotation marks. *)
Definition trailing_punct_char (c : ascii) : bool :=
  Ascii.eqb c "." || Ascii.eqb c "," || Ascii.eqb c ";" || Ascii.eqb c ":"
  || Ascii.eqb c ")" || Ascii.eqb c "]" || Ascii.eqb c "'" || Ascii.eqb c "034".

Definition clean (url : string) : string := Py.rstrip_with trailing_punct_char url.

(** A child of a paragraph: a run with the text of its first [w:t] (if
    any), a hyperlink with its relationship id and text, or another element.
    The other children of a run are not kept: [_process_paragraph] reads
    none of them, and a run it replaces is removed with them. *)
Inductive Child : Type :=
| Run (text : option string)
| Hyperlink (r_id : string) (text : string)
| OtherChild (tag : string).

(** The state the paragraphs of one part share: the relationships manager
    and the cache [processed_urls]. *)
Definition link_state : Type := RelsManager * gmap string string.

(** Get or create the relationship id for a URL: the cache first, then the
    manager. *)
Definition relationship_id (st : link_state) (clean_url : string) : string * link_state :=
  match st.2 !! clean_url with
  | Some r_id => (r_id, st)
  | None =>
      let '(r_id, rels) := add_hyperlink st.1 clean_url in
      (r_id, (rels, <[clean_url := r_id]> st.2))
  end.

(** The loop over the matches in the text of one run. *)
Fixpoint process_matches (text : string) (matches : list (nat * nat)) (last_end : nat)
    (st : link_state) (new_elements : list Child) : nat * link_state * list Child :=
  match matches with
  | [] => (last_end, st, new_elements)
  | (start, end_) :: rest =>
      let url := Py.slice start end_ text in
      let clean_url := clean url in
      let trailing_punct := Py.drop (String.length clean_url) url in
      let new_elements :=
        if last_end <? start
        then (new_elements ++ [Run (Some (Py.slice last_end start text))])%list
        else new_elements in
      let '(r_id, st) := relationship_id st clean_url in
      let new_elements := (new_elements ++ [Hyperlink r_id clean_url])%list in
      process_matches text rest (end_ - String.length trailing_punct) st new_elements
  end.

(** The body of the loop of [_process_paragraph] for one child. *)
Definition process_child (st : link_state) (child : Child) : link_state * list Child :=
  match child with
  | Run (Some (String c t)) =>
      let text := String c t in
      match finditer false URL_PATTERN text with
      | [] => (st, [child])
      | matches =>
          let '(last_end, st, new_elements) := process_matches text matches 0 st [] in
          let new_elements :=
            if last_end <? String.length text
            then (new_elements ++ [Run (Some (Py.drop last_end text))])%list
            else new_elements in
          (st, new_elements)
      end
  | _ => (st, [child])
  end.

Fixpoint _process_paragraph (st : link_state) (para : list Child)
    : link_state * list Child :=
  match para with
  | [] => (st, [])
  | child :: rest =>
      let '(st, elems) := process_child st child in
      let '(st, elems') := _process_paragraph st rest in
      (st, (elems ++ elems')%list)
  end.

(** The loop of [_process_xml_file] over the paragraphs of a part. *)
Fixpoint process_paragraphs (st : link_state) (paras : list (list Child))
    : link_state * list (list Child) :=
  match paras with
  | [] => (st, [])
  | para :: rest =>
      let '(st, para') := _process_paragraph st para in
      let '(st, rest') := process_paragraphs st rest in
      (st, para' :: rest')
  end.

(** A part processed against the entries of its sidecar: the rewritten
    paragraphs and the manager that is saved. *)
Definition process_part (entries : list RelEntry) (paras : list (list Child))
    : RelsManager * list (list Child) :=
  let rels_manager := load entries in
  let processed_urls : gmap string string := ∅ in
  let '(st, paras') := process_paragraphs (rels_manager, processed_urls) paras in
  (st.1, paras').

(** *** [LinkActivator.process]: exceptions and the archive *)

(** An exception of class [Exception], and a computation that returns or
    raises. *)
Inductive exn : Type := Exception (msg : string).

Inductive result (A : Type) : Type :=
| Ok (a : A)
| Raise (e : exn).
Arguments Ok {A} a.
Arguments Raise {A} e.

#[export] Instance result_bind : MBind result := fun A B k m =>
  match m with
  | Ok a => k a
  | Raise e => Raise e
  end.

(** [try: body except Exception as e: handler(e)] *)
Definition try_except {A : Type} (body : result A) (handler : exn -> result A) : result A :=
  match body with
  | Ok a => Ok a
  | Raise e => handler e
  end.

(** An open [BytesIO]: its content and its position. *)
Record BytesIO : Type := {
  getvalue : list Byte.byte;
  tell : nat
}.

Definition seek (b : BytesIO) (pos : nat) : BytesIO :=
  {| getvalue := getvalue b; tell := pos |}.

(** The files of the temporary directory, by path relative to it. *)
Abbreviation archive := (gmap string (list Byte.byte)).

(** The archive and XML libraries the activator calls. *)
Class Package : Type := {
  xml_tree : Type;
  (** [zipfile.ZipFile(buffer, 'r').extractall(temp_dir)] *)
  extractall : list Byte.byte -> result archive;
  (** writing every file of [temp_dir] into a new [ZipFile] *)
  repackage : archive -> result (list Byte.byte);
  (** [ET.parse(xml_path)] *)
  parse : list Byte.byte -> result xml_tree;
  (** [root.iter(w:p)]: the paragraphs, with their children *)
  tree_paragraphs : xml_tree -> list (list Child);
  (** the tree once its paragraphs have been rewritten in place *)
  tree_replace : xml_tree -> list (list Child) -> xml_tree;
  (** [tree.write(xml_path, ...)] *)
  write : xml_tree -> result (list Byte.byte);
  (** the relationships [_load] reads from a [.rels] file, none when it does
      not parse *)
  rels_entries : list Byte.byte -> list RelEntry;
  (** [rels_manager.save()] *)
  save : RelsManager -> result (list Byte.byte)
}.

Section Activator.
Context `{Package}.

Definition target_files : list (string * string) :=
  [ ("word/document.xml", "word/_rels/document.xml.rels");
    ("word/endnotes.xml", "word/_rels/endnotes.xml.rels");
    ("word/footnotes.xml", "word/_rels/footnotes.xml.rels") ].

Definition _process_xml_file (files : archive) (xml_path rels_path : string)
    (content : list Byte.byte) : result archive :=
  tree ← parse content;
  let entries :=
    match files !! rels_path with
    | Some r => rels_entries r
    | None => []
    end in
  let '(rels_manager, paras) := process_part entries (tree_paragraphs tree) in
  xml ← write (tree_replace tree paras);
  rels ← save rels_manager;
  Ok (<[rels_path := rels]> (<[xml_path := xml]> files)).

(** [for xml_file, rels_file in target_files: ...] *)
Fixpoint process_targets (files : archive) (targets : list (string * string))
    : result archive :=
  match targets with
  | [] => Ok files
  | (xml_file, rels_file) :: rest =>
      files ← match files !! xml_file with
              | Some content => _process_xml_file files xml_file rels_file content
              | None => Ok files
              end;
      process_targets files rest
  end.

(** The body of the [try] block of [process]. *)
Definition process_body (docx_buffer : BytesIO) : result BytesIO :=
  let docx_buffer := seek docx_buffer 0 in
  files ← extractall (getvalue docx_buffer);
  files ← process_targets files target_files;
  output ← repackage files;
  Ok {| getvalue := output; tell := 0 |}.

(** [process]: the [try] block with its handler, which rewinds the input
    buffer and returns it.  The [finally] clause only removes the temporary
    directory and has no part in the returned value. *)
Definition process (docx_buffer : BytesIO) : result BytesIO :=
  try_except (process_body docx_buffer)
    (fun e => Ok (seek docx_buffer 0)).

End Activator.

End Links.

(** * Further parts of the sources

    The functions around the ones above: the rest of the string and list
    functions they need, the provider searches of the resolver, the creation
    of the reference list, the author-date processor, the writing of the
    relationships and the reading and writing of the notes.

    ** Further functions of Python strings and lists *)

(** [s.split(c)] for a single character [c] *)
Fixpoint split_char (c : ascii) (s : string) : list string :=
  match s with
  | EmptyString => [EmptyString]
  | String d s' =>
      if Ascii.eqb c d then EmptyString :: split_char c s'
      else
        match split_char c s' with
        | part :: parts => String d part :: parts
        | [] => [String d EmptyString]
        end
  end.

(** [sep.join(parts)] *)
Fixpoint join (sep : string) (parts : list string) : string :=
  match parts with
  | [] => EmptyString
  | [part] => part
  | part :: rest => part +:+ sep +:+ join sep rest
  end.

(** [s.endswith(p)] *)
Definition endswith (p s : string) : bool :=
  String.eqb (Py.drop (String.length s - String.length p) s) p.

(** [len(s)]: the number of characters, that is of bytes that do not
    continue a character. *)
Fixpoint len (s : string) : nat :=
  match s with
  | EmptyString => 0
  | String c s' =>
      let n := nat_of_ascii c in
      if (128 <=? n) && (n <? 192) then len s' else S (len s')
  end.

(** [sorted(l)] with elements compared by [lt]: each element is put after
    the elements that are not greater than it. *)
Fixpoint insert_by {A : Type} (lt : A -> A -> bool) (x : A) (sorted : list A) : list A :=
  match sorted with
  | [] => [x]
  | y :: rest => if lt x y then x :: y :: rest else y :: insert_by lt x rest
  end.

Definition sorted {A : Type} (lt : A -> A -> bool) (l : list A) : list A :=
  fold_left (fun acc x => insert_by lt x acc) l [].

(** [s.replace(c, w)] for a single character [c] *)
Fixpoint replace_char (c : ascii) (w : string) (s : string) : string :=
  match s with
  | EmptyString => EmptyString
  | String d s' =>
      if Ascii.eqb c d then w +:+ replace_char c w s'
      else String d (replace_char c w s')
  end.

(** ** The provider searches of the resolver
    ([author_date_engine.py], lines 204-334 and 487-522) *)

Section Searches.
Import AuthorDate.
#[local] Set Warnings "-inexact-float".

(** The search engines of [engines.academic] and [engines.google_scholar],
    each [None] when its module cannot be imported.  A search returns the
    metadata found, if any; the outer [None] stands for an exception. *)
Class Engines : Type := {
  semantic_scholar : option (string -> option (option CitationMetadata));
  crossref : option (string -> option (option CitationMetadata));
  openalex : option (string -> option (option CitationMetadata));
  google_scholar : option (string -> option (option CitationMetadata))
}.

Section Providers.
Context `{Engines}.
Local Open Scope float_scope.

Definition _search_semantic_scholar (author year_ : string) (second_author : option string)
    : list SearchResult :=
  match semantic_scholar with
  | None => []
  | Some ss =>
      let query := "author:" +:+ author +:+ " year:" +:+ year_ in
      match ss query with
      | Some (Some metadata) =>
          if Py.truthy (title metadata) then
            let confidence := _calculate_confidence metadata author year_ second_author in
            [ {| metadata := metadata; confidence := confidence;
                 match_reason := "Semantic Scholar author+year match" |} ]
          else []
      | _ => []
      end
  end.

(** The query of the Crossref and OpenAlex searches. *)
Definition plain_query (author year_ : string) (second_author : option string) : string :=
  if Py.truthy second_author
  then author +:+ " " +:+ Py.str_of second_author +:+ " " +:+ year_
  else author +:+ " " +:+ year_.

Definition _search_crossref (author year_ : string) (second_author : option string)
    : list SearchResult :=
  match crossref with
  | None => []
  | Some cr =>
      let query := plain_query author year_ second_author in
      match cr query with
      | Some (Some metadata) =>
          if Py.truthy (title metadata) then
            (* Verify year matches *)
            if Py.truthy (year metadata) && opt_eqb (year metadata) year_ then
              let confidence := _calculate_confidence metadata author year_ second_author in
              (* Boost confidence if has DOI *)
              let confidence :=
                if Py.truthy (doi metadata) then py_min 1.0 (confidence + 0.1)
                else confidence in
              [ {| metadata := metadata; confidence := confidence;
                   match_reason := "Crossref author+year match" |} ]
            else []
          else []
      | _ => []
      end
  end.

Definition _search_openalex (author year_ : string) (second_author : option string)
    : list SearchResult :=
  match openalex with
  | None => []
  | Some oa =>
      let query := plain_query author year_ second_author in
      match oa query with
      | Some (Some metadata) =>
          if Py.truthy (title metadata) then
            if Py.truthy (year metadata) && opt_eqb (year metadata) year_ then
              let confidence := _calculate_confidence metadata author year_ second_author in
              [ {| metadata := metadata; confidence := confidence;
                   match_reason := "OpenAlex author+year match" |} ]
            else []
          else []
      | _ => []
      end
  end.

Definition _search_google_scholar (author year_ : string) (second_author : option string)
    : list SearchResult :=
  match google_scholar with
  | None => []
  | Some gs =>
      let query :=
        if Py.truthy second_author
        then "author:" +:+ author +:+ " author:" +:+ Py.str_of second_author +:+ " " +:+ year_
        else "author:" +:+ author +:+ " " +:+ year_ in
      match gs query with
      | Some (Some metadata) =>
          if Py.truthy (title metadata) then
            let confidence := _calculate_confidence metadata author year_ second_author in
            (* Google Scholar often lacks DOI, slight penalty *)
            let confidence :=
              if negb (Py.truthy (doi metadata)) then py_max 0.0 (confidence - 0.05)
              else confidence in
            [ {| metadata := metadata; confidence := confidence;
                 match_reason := "Google Scholar author+year match" |} ]
          else []
      | _ => []
      end
  end.

End Providers.

(** [search_multiple].  Each citation comes with what its call of [search]
    does: it returns metadata or nothing, or raises (the outer [None]).  The
    progress callback and the pauses between the calls are left out. *)
Definition search_multiple
    (calls : list (string * string * option string * option (option CitationMetadata)))
    : gmap (string * string) (option CitationMetadata) :=
  fold_left
    (fun results call =>
       let '((author, year_, second_author), outcome) := call in
       let key := (Py.lower author, year_) in
       match outcome with
       | Some metadata => <[key := metadata]> results
       | None => <[key := None]> results
       end)
    calls ∅.

End Searches.

(** ** The reference list ([author_date_processor.py], lines 271-298 and
    393-442) *)

Section ReferenceList.
Import References.

Definition newline : ascii := "010".

(** The lazy [.*?] of the pattern of the italic tags, followed by the
    closing tag: the shortest run of characters other than the newline after
    which the closing tag stands.  The result is the run and the text after
    the closing tag. *)
Fixpoint lazy_close (s : string) : option (string * string) :=
  if Py.startswith "</i>" s then Some (EmptyString, Py.drop 4 s)
  else
    match s with
    | EmptyString => None
    | String c s' =>
        if Ascii.eqb c newline then None
        else
          match lazy_close s' with
          | Some (inner, rest) => Some (String c inner, rest)
          | None => None
          end
    end.

(** [re.match] of the pattern of the italic tags, with the text between
    the tags as its group: the group and the text after the match. *)
Definition italic_group (s : string) : option (string * string) :=
  if Py.startswith "<i>" s then lazy_close (Py.drop 3 s) else None.

(** The same match, as the whole text matched and the rest. *)
Definition match_italic (s : string) : option (string * string) :=
  match italic_group s with
  | Some (inner, rest) => Some ("<i>" +:+ inner +:+ "</i>", rest)
  | None => None
  end.

(** [re.split] on the pattern of the italic tags, whose one group is the
    whole match: the texts between the matches alternate with the matches;
    [cur] is the text read since the last match.  [fuel] bounds the number
    of positions visited. *)
Fixpoint split_italic_fuel (fuel : nat) (s cur : string) : list string :=
  match fuel with
  | O => [cur +:+ s]
  | S k =>
      match s with
      | EmptyString => [cur]
      | String c s' =>
          match match_italic s with
          | Some (m, rest) => cur :: m :: split_italic_fuel k rest EmptyString
          | None => split_italic_fuel k s' (cur +:+ String c EmptyString)
          end
      end
  end.

Definition split_italic (s : string) : list string :=
  split_italic_fuel (String.length s) s EmptyString.

(** [^References?$|^Bibliography$|^References Cited$], matched with
    [re.IGNORECASE]: the test of [_create_reference_paragraphs] for the
    header line. *)
Definition HEADER_PATTERN : regex :=
  Alt (Seq (Lit "Reference") (Seq (Opt (Lit "s")) Dollar))
 (Alt (Seq (Lit "Bibliography") Dollar)
      (Seq (Lit "References Cited") Dollar)).

(** A run of a created paragraph, with the texts of its [w:t] children, and
    a created paragraph, with or without the heading style. *)
Record RefRun : Type := {
  italic : bool;
  run_texts : list string
}.

Record RefParagraph : Type := {
  heading1 : bool;
  runs : list RefRun
}.

(** The loop over the parts of a line: the plain parts become [w:t]
    children of the first run, each italic part a run of its own, appended
    to the paragraph. *)
Fixpoint place_parts (parts : list string) (first : list string) (italics : list RefRun)
    : list string * list RefRun :=
  match parts with
  | [] => (first, italics)
  | part :: rest =>
      if negb (Py.truthy (Some part)) then place_parts rest first italics
      else if Py.startswith "<i>" part && endswith "</i>" part then
        let inner := Py.slice 3 (String.length part - 4) part in
        place_parts rest first
          (italics ++ [{| italic := true; run_texts := [inner] |}])%list
      else place_parts rest (first ++ [part])%list italics
  end.

(** The body of the loop of [_create_reference_paragraphs] for one line. *)
Definition create_reference_paragraph (line : string) : RefParagraph :=
  if Py.truthy (Some (Py.strip line)) then
    let heading :=
      match match_ true HEADER_PATTERN (Py.strip line) with
      | Some _ => true
      | None => false
      end in
    let '(first, italics) := place_parts (split_italic line) [] [] in
    {| heading1 := heading;
       runs := {| italic := false; run_texts := first |} :: italics |}
  else {| heading1 := false; runs := [] |}.

Definition _create_reference_paragraphs (reference_list_text : string) : list RefParagraph :=
  map create_reference_paragraph (split_char newline reference_list_text).

(** A created paragraph as a child of the body: the texts of its [w:t]
    descendants, in document order. *)
Definition body_child (p : RefParagraph) : BodyChild :=
  P (map Some (flat_map run_texts (runs p))).

(** [_generate_reference_list], from the formatted text of each reference. *)
Definition list_header (style : string) : string :=
  if bool_decide (In style ["APA (7th ed.)"; "Harvard"; "ASA (Sociology)"]) then "References"
  else if String.eqb style "Chicago Author-Date" then "References"
  else if String.eqb style "AAA (Anthropology)" then "References Cited"
  else if String.eqb style "Turabian Author-Date" then "Bibliography"
  else "References".

Definition _generate_reference_list (references : list string) (style : string) : string :=
  let lines := [list_header style; EmptyString] in
  let lines := (lines ++ flat_map (fun formatted => [formatted; EmptyString]) references)%list in
  join (String newline EmptyString) lines.

(** The rewrite of the body by [_update_document_references]. *)
Definition update_references (body : list BodyChild) (reference_list_text : string)
    : list BodyChild :=
  update_body body (map body_child (_create_reference_paragraphs reference_list_text)).

End ReferenceList.

(** ** The author-date processor ([author_date_processor.py],
    lines 125-269) *)

Section AuthorDateProcessor.
Import References Links.
#[local] Set Warnings "-inexact-float".

(** Modelled from the spec: the record [AuthorYearCitation] of
    [author_date_extractor.py], which is not among the sources.  Section 3 of
    the specification lists its fields; the three the processor reads are
    kept. *)
Record AuthorYearCitation : Type := {
  c_author : string;
  c_year : string;
  c_second_author : option string
}.

Record ReferenceEntry : Type := {
  r_citation : AuthorYearCitation;
  r_metadata : option CitationMetadata;
  r_formatted : string;
  r_found : bool;
  r_confidence : float;
  r_error : option string
}.

Record ProcessingResult : Type := {
  citations_found : nat;
  citations_resolved : nat;
  citations_failed : nat;
  references : list ReferenceEntry;
  reference_list_text : string;
  result_style : string;
  errors : list string
}.

(** [formatter.format(metadata)] of the formatter of a style; it returns
    the reference or raises. *)
Class ReferenceFormatter : Type := {
  format_reference : string -> CitationMetadata -> result string
}.

Section Processor.
Context `{ReferenceFormatter}.

(** Step 3 for one citation, given what its call of [engine.search] does. *)
Definition look_up (style : string) (citation : AuthorYearCitation)
    (outcome : result (option CitationMetadata)) : ReferenceEntry :=
  let failed (e : exn) :=
    {| r_citation := citation; r_metadata := None;
       r_formatted := "[ERROR: " +:+ c_author citation +:+ ", " +:+ c_year citation +:+ "]";
       r_found := false; r_confidence := 0.0%float;
       r_error := Some (match e with Exception msg => msg end) |} in
  match outcome with
  | Ok (Some metadata) =>
      match format_reference style metadata with
      | Ok formatted =>
          {| r_citation := citation; r_metadata := Some metadata;
             r_formatted := formatted; r_found := true; r_confidence := 0.8%float;
             r_error := None |}
      | Raise e => failed e
      end
  | Ok None =>
      {| r_citation := citation; r_metadata := None;
         r_formatted :=
           "[NOT FOUND: " +:+ c_author citation +:+ ", " +:+ c_year citation +:+ "]";
         r_found := false; r_confidence := 0.0%float;
         r_error := Some "No matching publication found" |}
  | Raise e => failed e
  end.

(** The key of the sort of Step 4 and the order of two keys. *)
Definition sort_key (r : ReferenceEntry) : string * string * string :=
  (Py.lower (c_author (r_citation r)), c_year (r_citation r),
   if Py.truthy (c_second_author (r_citation r))
   then Py.lower (Py.str_of (c_second_author (r_citation r)))
   else EmptyString).

Definition key_lt (a b : string * string * string) : bool :=
  String.ltb a.1.1 b.1.1
  || (String.eqb a.1.1 b.1.1
      && (String.ltb a.1.2 b.1.2
          || (String.eqb a.1.2 b.1.2 && String.ltb a.2 b.2))).

(** Steps 3 to 6 of [process_document], from the unique citations found,
    each with what its search does: the body of the document and the
    result.  Without citations the document is returned as it is.  The
    document is given by the children of its body; the progress callback
    and the archive, which is returned as it came when it cannot be read,
    are left out. *)
Definition process_citations (body : list BodyChild) (style : string)
    (calls : list (AuthorYearCitation * result (option CitationMetadata)))
    : list BodyChild * ProcessingResult :=
  match calls with
  | [] =>
      (body,
       {| citations_found := 0; citations_resolved := 0; citations_failed := 0;
          references := []; reference_list_text := EmptyString;
          result_style := style;
          errors := ["No author-date citations found in document"] |})
  | _ :: _ =>
      let total := length calls in
      let references := map (fun c => look_up style c.1 c.2) calls in
      let resolved := length (List.filter r_found references) in
      let references := sorted (fun a b => key_lt (sort_key a) (sort_key b)) references in
      let reference_list_text :=
        _generate_reference_list (map r_formatted references) style in
      (update_references body reference_list_text,
       {| citations_found := total; citations_resolved := resolved;
          citations_failed := total - resolved;
          references := references; reference_list_text := reference_list_text;
          result_style := style; errors := [] |})
  end.

End Processor.

End AuthorDateProcessor.

(** ** Writing the relationships ([document_processor.py], lines 813-832) *)

Section Save.
Import Links.

(** The order of the key [(len(x), x)] of [save]: by length, then as
    strings. *)
Definition save_key_lt (a b : string) : bool :=
  (len a <? len b) || ((len a =? len b) && String.ltb a b).

(** The [Relationship] elements [save] writes, in the order of their ids.
    The ids of a dictionary are distinct, so the order of [map_to_list] does
    not show in the result. *)
Definition save_entries (self : RelsManager) : list RelEntry :=
  map (fun kv : string * Relationship =>
         {| e_id := kv.1; e_type := rel_type kv.2; e_target := target kv.2;
            e_mode := if Py.truthy (Some (mode kv.2)) then mode kv.2 else EmptyString |})
      (sorted (fun a b => save_key_lt a.1 b.1) (map_to_list (relationships self))).

End Save.

(** ** Reading and writing the notes ([document_processor.py],
    lines 380-664 and 1532-1587) *)

(** A child of a paragraph of a note: the paragraph properties, a run
    (whether it holds the reference mark of the note, whether it is italic,
    and the texts of its [w:t] children), or another element, with the
    texts of the [w:t] elements below it. *)
Inductive PChild : Type :=
| Props
| ARun (ref italic : bool) (texts : list (option string))
| Elem (tag : string) (texts : list (option string)).

(** An endnote or footnote element: its [w:id] attribute and its
    paragraphs. *)
Record NoteXml : Type := {
  x_id : option string;
  x_paragraphs : list (list PChild)
}.

Definition child_texts (c : PChild) : list (option string) :=
  match c with
  | Props => []
  | ARun _ _ texts => texts
  | Elem _ texts => texts
  end.

(** [note.findall('.//w:t')] *)
Definition note_texts (n : NoteXml) : list (option string) :=
  flat_map (flat_map child_texts) (x_paragraphs n).

(** [get_endnotes] and [get_footnotes] on the notes of the part; [None]
    when the part is missing or does not parse. *)
Definition get_notes (part : option (list NoteXml)) : list Note :=
  match part with
  | None => []
  | Some notes =>
      flat_map
        (fun n =>
           match x_id n with
           | None => []
           | Some id =>
               match Py.int id with
               | None => []
               | Some k =>
                   if (k <? 1)%Z then []
                   else
                     let text_parts :=
                       flat_map (fun t => if Py.truthy t then [Py.str_of t] else [])
                                (note_texts n) in
                     let full_text := Py.strip (join EmptyString text_parts) in
                     if Py.truthy (Some full_text)
                     then [{| note_id := id; note_text := full_text |}]
                     else []
               end
           end)
        notes
  end.

(** [html.unescape], of the standard library. *)
Class Html : Type := {
  unescape : string -> string
}.

(** The loop over the children of the paragraph: the children kept, each
    with its position in the paragraph as its identity, and the last
    properties element and the last reference run met. *)
Fixpoint keep_children (children : list (nat * PChild)) (preserved_pPr preserved_ref : option nat)
    : list (nat * PChild) * option nat * option nat :=
  match children with
  | [] => ([], preserved_pPr, preserved_ref)
  | (i, child) :: rest =>
      match child with
      | Props =>
          let '(kept, p, r) := keep_children rest (Some i) preserved_ref in
          ((i, child) :: kept, p, r)
      | ARun true _ _ =>
          let '(kept, p, r) := keep_children rest preserved_pPr (Some i) in
          ((i, child) :: kept, p, r)
      | _ => keep_children rest preserved_pPr preserved_ref
      end
  end.

(** [list(para).index(child)], elements being compared by identity;
    [None] stands for [ValueError]. *)
Fixpoint index_of (i : nat) (children : list (nat * PChild)) : option nat :=
  match children with
  | [] => None
  | (j, _) :: rest => if i =? j then Some 0 else option_map S (index_of i rest)
  end.

(** [para.insert(idx, elem)] *)
Definition insert_at {A : Type} (idx : nat) (x : A) (l : list A) : list A :=
  (firstn idx l ++ x :: skipn idx l)%list.

(** The run with the reference mark that is created when none is found. *)
Definition reference_run : PChild := ARun true false [].

(** The runs made from the new content. *)
Definition text_runs (text : string) : list PChild :=
  flat_map
    (fun part =>
       if negb (Py.truthy (Some part)) then []
       else
         match italic_group part with
         | Some (inner, _) => [ARun false true [Some inner]]
         | None => [ARun false false [Some part]]
         end)
    (split_italic text).

Section Writer.
Context `{Html}.

(** The rewrite of an existing paragraph; [None] when it raises. *)
Definition rewrite_paragraph (para : list PChild) (new_content : string)
    : option (list PChild) :=
  let children := imap (fun i c => (i, c)) para in
  let '(kept, preserved_pPr, preserved_ref) := keep_children children None None in
  kept ←
    match preserved_ref with
    | Some _ => Some kept
    | None =>
        let ref_run := (length para, reference_run) in
        match preserved_pPr with
        | Some p => idx ← index_of p kept; Some (insert_at (idx + 1) ref_run kept)
        | None => Some (insert_at 0 ref_run kept)
        end
    end;
  Some (map snd kept ++ text_runs (unescape new_content))%list.

(** [write_endnote] and [write_footnote] on the notes of the part: the
    notes written back, or [None] when the function returns [False]. *)
Fixpoint write_endnote (notes : list NoteXml) (id new_content : string)
    : option (list NoteXml) :=
  match notes with
  | [] => None
  | n :: rest =>
      if bool_decide (x_id n = Some id) then
        match x_paragraphs n with
        | [] =>
            Some ({| x_id := x_id n;
                     x_paragraphs := [text_runs (unescape new_content)] |} :: rest)
        | para :: paras =>
            para' ← rewrite_paragraph para new_content;
            Some ({| x_id := x_id n; x_paragraphs := para' :: paras |} :: rest)
        end
      else rest' ← write_endnote rest id new_content; Some (n :: rest')
  end.

End Writer.

(** [text.replace('&', '&amp;').replace('<', '&lt;').replace('>', '&gt;')] *)
Definition xml_escape (text : string) : string :=
  replace_char ">" "&gt;" (replace_char "<" "&lt;" (replace_char "&" "&amp;" text)).

(** The quotation mark. *)
Definition dq : string := String "034" EmptyString.

Section Converter.
Context `{Html}.

(** The run [html_to_word_xml] writes for one part of the text. *)
Definition part_xml (part : string) : list string :=
  if negb (Py.truthy (Some part)) then []
  else if Py.startswith "<i>" part && endswith "</i>" part then
    let inner := Py.slice 3 (String.length part - 4) part in
    let inner_escaped := xml_escape inner in
    ["<w:r><w:rPr><w:i/></w:rPr><w:t xml:space=" +:+ dq +:+ "preserve" +:+ dq +:+ ">"
     +:+ inner_escaped +:+ "</w:t></w:r>"]
  else
    let escaped := xml_escape part in
    ["<w:r><w:t xml:space=" +:+ dq +:+ "preserve" +:+ dq +:+ ">" +:+ escaped +:+ "</w:t></w:r>"].

Definition html_to_word_xml (html note_type : string) : string :=
  let text := unescape html in
  let '(style_name, ref_style, ref_element) :=
    if String.eqb note_type "footnote"
    then ("FootnoteText", "FootnoteReference", "<w:footnoteRef/>")
    else ("EndnoteText", "EndnoteReference", "<w:endnoteRef/>") in
  let runs :=
    ["<w:r><w:rPr><w:rStyle w:val=" +:+ dq +:+ ref_style +:+ dq +:+ "/></w:rPr>"
     +:+ ref_element +:+ "</w:r>";
     "<w:r><w:t xml:space=" +:+ dq +:+ "preserve" +:+ dq +:+ "> </w:t></w:r>"] in
  let runs := (runs ++ flat_map part_xml (split_italic text))%list in
  "<w:p><w:pPr><w:pStyle w:val=" +:+ dq +:+ style_name +:+ dq +:+ "/></w:pPr>"
  +:+ join EmptyString runs +:+ "</w:p>".

End Converter.

(** ** Reference points taken from the specification

    The definitions of this part restate what the specification says, to be
    compared with the functions above; none of them is used by the model of
    the sources. *)

(** Modelled from the spec: [normalize_doi] of [models.py], which is not
    among the sources.  Section 3 of the specification: the normalized form
    of a DOI is lowercase, stripped of the doi: or URL prefix, and trimmed. *)
Definition normalize_doi_spec (doi : string) : string :=
  let d := Py.lower (Py.strip doi) in
  let d :=
    if Py.startswith "https://doi.org/" d then Py.drop 16 d
    else if Py.startswith "http://doi.org/" d then Py.drop 15 d
    else if Py.startswith "https://dx.doi.org/" d then Py.drop 19 d
    else if Py.startswith "http://dx.doi.org/" d then Py.drop 18 d
    else if Py.startswith "doi:" d then Py.drop 4 d
    else d in
  Py.strip d.

Definition spec_models : Models := {| normalize_doi := normalize_doi_spec |}.

(** A record with every field empty, to build examples from. *)
Definition empty_metadata : CitationMetadata :=
  {| title := None; authors := []; year := None; journal := None;
     publisher := None; volume := None; issue := None; pages := None;
     doi := None; url := None; case_name := None; citation := None;
     source_engine := None; raw_source := None |}.

(** A router that resolves nothing and a formatter with the default ibid
    form, to run examples with. *)
Definition null_router : Router := {| get_citation := fun _ _ => Some (None, None) |}.

Definition plain_formatter : Formatter :=
  {| format_ibid := fun page =>
       match page with
       | Some p => "Ibid., " +:+ p +:+ "."
       | None => "Ibid."
       end;
     format_short := fun _ m => Py.str_of (title m) |}.

Section SpecSourceKey.
Context `{Models}.

(** Section 4.1: the candidate keys, in priority order. *)
Definition doi_key (m : CitationMetadata) : option string :=
  if Py.truthy (doi m) && Py.truthy (Some (normalize_doi (Py.str_of (doi m))))
  then Some ("doi:" +:+ normalize_doi (Py.str_of (doi m))) else None.

Definition url_key (m : CitationMetadata) : option string :=
  if Py.truthy (url m) then Some ("url:" +:+ normalize_url (Py.str_of (url m))) else None.

Definition legal_key (m : CitationMetadata) : option string :=
  if Py.truthy (case_name m) && Py.truthy (citation m)
  then Some ("legal:" +:+ Py.strip (Py.lower (Py.str_of (case_name m))) +:+ "|"
             +:+ Py.strip (Py.lower (Py.str_of (citation m))))
  else None.

Definition title_key (m : CitationMetadata) : option string :=
  if Py.truthy (title m) then
    Some ("title:" +:+ Py.strip (Py.lower (Py.str_of (title m))) +:+
          match head (authors m) with
          | Some a => "|author:" +:+ Py.strip (Py.lower a)
          | None => EmptyString
          end)
  else None.

Definition case_key (m : CitationMetadata) : option string :=
  if Py.truthy (case_name m)
  then Some ("case:" +:+ Py.strip (Py.lower (Py.str_of (case_name m)))) else None.

(** The texts the legal, title and case keys are made of are ASCII text:
    there [str.lower] and [str.strip] are [Py.lower] and [Py.strip]. *)
Definition ascii_names (m : CitationMetadata) : Prop :=
  Py.isascii (Py.str_of (case_name m)) = true /\
  Py.isascii (Py.str_of (citation m)) = true /\
  Py.isascii (Py.str_of (title m)) = true /\
  Py.isascii (default EmptyString (head (authors m))) = true.

(** The first candidate that applies. *)
Fixpoint first_applicable (candidates : list (option string)) : option string :=
  match candidates with
  | [] => None
  | Some k :: _ => Some k
  | None :: rest => first_applicable rest
  end.

(** The claim's condition for a null key: no DOI, no URL, no legal case and
    no title on the record. *)
Definition claimed_no_identity (m : CitationMetadata) : Prop :=
  Py.truthy (doi m) = false /\ Py.truthy (url m) = false /\
  Py.truthy (case_name m) = false /\ Py.truthy (title m) = false.

(** The condition the code implements: as above, except that a DOI counts
    only when its normalized form is not empty. *)
Definition no_identity (m : CitationMetadata) : Prop :=
  (Py.truthy (doi m) = false \/ normalize_doi (Py.str_of (doi m)) = EmptyString) /\
  Py.truthy (url m) = false /\
  Py.truthy (case_name m) = false /\ Py.truthy (title m) = false.

(** The history after a sequence of calls of [add]. *)
Definition add_all (calls : list (option CitationMetadata * string)) (h : CitationHistory)
    : CitationHistory :=
  fold_left (fun h c => add h c.1 c.2) calls h.

(** The entry a call of [add] creates when the counter stands at [n]. *)
Definition entry_of (m : option CitationMetadata) (f : string) (n : nat)
    : CitationHistoryEntry :=
  {| entry_metadata := m; entry_formatted := f;
     source_key := generate_source_key m; note_number := S n |}.

(** The entry of the first call whose key is [k], the counter standing at
    [n] before the calls. *)
Fixpoint first_added (k : string) (calls : list (option CitationMetadata * string)) (n : nat)
    : option CitationHistoryEntry :=
  match calls with
  | [] => None
  | (m, f) :: rest =>
      if decide (generate_source_key m = Some k) then Some (entry_of m f n)
      else first_added k rest (S n)
  end.

End SpecSourceKey.

(** Section 4.5: the states of the citation-form engine, decided in the
    order of the table. *)
Inductive form_state : Type := S0 | S1 | S2 | S3 | S4 | S5.

Section SpecEngine.
Context `{Models}.

Definition resolved (data : Fetched) : bool :=
  match f_metadata data with
  | Some _ => Py.truthy (f_formatted data)
  | None => false
  end.

Definition classify (history : CitationHistory) (data : Fetched) : form_state :=
  if f_is_explicit_ibid data then S0
  else if negb (resolved data) then S1
  else if urls_match (f_current_url data) (get_previous_url history) then S2
  else if is_same_as_previous history (f_metadata data) then S3
  else if has_been_cited_before history (f_metadata data) then S4
  else S5.

End SpecEngine.

(** A record whose only field is a DOI made of one space. *)
Definition blank_doi : CitationMetadata :=
  {| title := None; authors := []; year := None; journal := None;
     publisher := None; volume := None; issue := None; pages := None;
     doi := Some " "; url := None; case_name := None; citation := None;
     source_engine := None; raw_source := None |}.

(** *** The ibid forms *)

(** Text made of ASCII characters and en dashes.  On such text the white
    space, the digits and the letters that [IBID_PATTERN] and [str.strip]
    recognize are those of Python. *)
Fixpoint ascii_or_en_dash (s : string) : bool :=
  match s with
  | EmptyString => true
  | String c s' =>
      if Py.is_ascii c then ascii_or_en_dash s'
      else if Ascii.eqb c "226" then
        match s' with
        | String d (String e s'') =>
            if Ascii.eqb d "128" && Ascii.eqb e "147" then ascii_or_en_dash s'' else false
        | _ => false
        end
      else false
  end.

(** Character classes used to tell the parts of an ibid reference apart. *)
Definition not_letter (c : ascii) : bool :=
  let n := nat_of_ascii c in negb ((97 <=? n) && (n <=? 122)).
Definition nondigit (c : ascii) : bool := negb (Py.is_digit c).
Definition nondot (c : ascii) : bool := negb (Ascii.eqb c ".").
Definition nonspace (c : ascii) : bool := negb (Py.is_space c).

(** What [IBID_PATTERN] accepts, part by part: the token, the separator, the
    page marker and the page range. *)
Definition ibid_token (u : string) : Prop :=
  In (Py.lower u) ["ibid"; "ibid."; "ibidem"; "ibidem."; "id"; "id."].

Definition ibid_separator (u : string) : Prop :=
  (exists a w, u = a +:+ w /\ Py.lower a = "at" /\ w <> EmptyString /\ str_all ws w = true) \/
  (exists p w, u = p +:+ w /\ In p [""; ","; "."] /\ str_all ws w = true).

Definition ibid_page_marker (u : string) : Prop :=
  exists p d w, u = p +:+ d +:+ w /\
    In (Py.lower p) ["p"; "pp"] /\ In d [""; "."] /\ str_all ws w = true.

Definition page_range (u : string) : Prop :=
  exists d1 h d2, u = d1 +:+ h +:+ d2 /\
    d1 <> EmptyString /\ str_all digit d1 = true /\
    In h [""; "-"; "–"] /\ str_all digit d2 = true.

(** [ibid_parse t pg]: the trimmed text [t] reads as token, white space,
    separator, page marker, page range [pg] (empty when there is none) and
    a final period, every part after the token being optional. *)
Definition ibid_parse (t pg : string) : Prop :=
  exists tok w sep pm dot,
    t = tok +:+ w +:+ sep +:+ pm +:+ pg +:+ dot /\
    ibid_token tok /\ str_all ws w = true /\
    (sep = EmptyString \/ ibid_separator sep) /\
    (pm = EmptyString \/ ibid_page_marker pm) /\
    (pg = EmptyString \/ page_range pg) /\
    In dot [""; "."].

(** Group 1 of a match whose page range is [pg]. *)
Definition page_group (pg : string) : option string :=
  match pg with
  | EmptyString => None
  | _ => Some pg
  end.

(** The forms as section 4.2 words them, white space being allowed between
    the parts: one of ibid, ibid., ibidem, id, id.; then optionally a comma,
    a period or at; then optionally p. or pp.; then optionally a page range
    such as 45, 123-125 or 123–125; then optionally a period. *)
Definition CLAIMED_IBID_FORM : regex :=
  Seq (Alt (Lit "ibid.") (Alt (Lit "ibidem") (Alt (Lit "ibid") (Alt (Lit "id.") (Lit "id")))))
 (Seq (Star ws)
 (Seq (Opt (Alt (Lit ",") (Alt (Lit ".") (Lit "at"))))
 (Seq (Star ws)
 (Seq (Opt (Alt (Lit "pp.") (Lit "p.")))
 (Seq (Star ws)
 (Seq (Opt (Seq (Plus digit) (Opt (Seq dash (Plus digit)))))
 (Seq (Opt (Lit "."))
      Dollar))))))).

Definition claimed_ibid_form (t : string) : bool :=
  match match_ true CLAIMED_IBID_FORM t with
  | Some _ => true
  | None => false
  end.

(** *** The reference-list headings *)

(** The headings the code recognizes, in lower case. *)
Definition heading_forms : list string :=
  ["reference"; "references"; "bibliography"; "references cited"].

(** The headings section 6 lists, in lower case. *)
Definition claimed_heading_forms : list string :=
  ["references"; "references cited"; "bibliography"].

(** *** Integer literals and parts of a text *)

(** The value of a decimal digit. *)
Definition digit_value (c : ascii) : Z := Z.of_nat (nat_of_ascii c - 48).

(** [numeral s n]: [s] is a run of decimal digits, single underscores being
    allowed between two digits, and it denotes [n]. *)
Inductive numeral : string -> Z -> Prop :=
| numeral_digit (c : ascii) :
    Py.is_digit c = true -> numeral (String c EmptyString) (digit_value c)
| numeral_next (s : string) (n : Z) (c : ascii) :
    numeral s n -> Py.is_digit c = true ->
    numeral (s +:+ String c EmptyString) (10 * n + digit_value c)
| numeral_group (s : string) (n : Z) (c : ascii) :
    numeral s n -> Py.is_digit c = true ->
    numeral (s +:+ String "_" (String c EmptyString)) (10 * n + digit_value c).

(** [reads_as s z]: the text [s] is an integer literal for [z] as [int]
    accepts them: white space, an optional sign, a numeral, white space. *)
Definition reads_as (s : string) (z : Z) : Prop :=
  exists l sign body r n,
    s = l +:+ sign +:+ body +:+ r /\
    str_all Py.is_int_space l = true /\ str_all Py.is_int_space r = true /\
    numeral body n /\
    ((sign = EmptyString \/ sign = "+") /\ z = n \/ sign = "-" /\ z = (- n)%Z).

(** [part_of needle hay]: [needle in hay] *)
Definition part_of (needle hay : string) : Prop :=
  exists pre post, hay = pre +:+ needle +:+ post.

(** *** The confidence formula and the ranking *)

Section SpecResolver.
Import AuthorDate.
#[local] Set Warnings "-inexact-float".
Local Open Scope float_scope.

(** A confidence that is a number (not a NaN). *)
Definition is_number (x : float) : bool := x <=? x.

Definition all_numbers (results : list SearchResult) : Prop :=
  forall r, In r results -> is_number (confidence r) = true.

Definition conf_le (a b : SearchResult) : Prop :=
  (confidence a <=? confidence b) = true.

(** [best] is one of [results] and none has a higher confidence. *)
Definition highest (results : list SearchResult) (best : SearchResult) : Prop :=
  In best results /\
  forall r, In r results -> (confidence r <=? confidence best) = true.

(** The confidence formula of section 4.3, term by term. *)
Definition parse_year (y : option string) : option Z :=
  match y with
  | Some s => Py.int s
  | None => None
  end.

Definition year_score (m : CitationMetadata) (year_ : string) : float :=
  if opt_eqb (year m) year_ then 0.3
  else
    match parse_year (year m), Py.int year_ with
    | Some a, Some b => if (Z.abs (a - b) <=? 1)%Z then 0.2 else 0
    | _, _ => 0
    end.

Definition author_matches (needle : string) (m : CitationMetadata) : bool :=
  existsb (fun a => Py.contains (Py.lower needle) (Py.lower a)) (authors m).

Definition author_score (m : CitationMetadata) (author : string) : float :=
  if author_matches author m then 0.3 else 0.

Definition second_author_score (m : CitationMetadata) (second_author : option string)
    : float :=
  if Py.truthy second_author && author_matches (Py.str_of second_author) m
  then 0.15 else 0.

Definition doi_score (m : CitationMetadata) : float :=
  if Py.truthy (doi m) then 0.15 else 0.

Definition completeness (m : CitationMetadata) : nat :=
  (if Py.truthy (title m) then 1 else 0) +
  (if Py.truthy (journal m) || Py.truthy (publisher m) then 1 else 0) +
  (if Py.truthy (volume m) || Py.truthy (pages m) then 1 else 0).

Definition clamp_above_one (x : float) : float := if 1 <? x then 1 else x.

Definition confidence_formula (m : CitationMetadata) (author year_ : string)
    (second_author : option string) : float :=
  clamp_above_one
    (year_score m year_ + author_score m author + second_author_score m second_author
     + doi_score m + float_of_nat (completeness m) * 0.05).

(** The years are integer literals at most 1 apart. *)
Definition years_close (y : option string) (year_ : string) : Prop :=
  exists t a b, y = Some t /\ reads_as t a /\ reads_as year_ b /\ (Z.abs (a - b) <= 1)%Z.

(** The lowercased [needle] is part of a lowercased author of the record. *)
Definition names_author (needle : string) (m : CitationMetadata) : Prop :=
  exists a, In a (authors m) /\ part_of (Py.lower needle) (Py.lower a).

(** The terms of the confidence of section 4.3 that depend on the texts:
    [t] is the term for the year, for the author and for the second author. *)
Definition year_term (m : CitationMetadata) (year_ : string) (t : float) : Prop :=
  (year m = Some year_ /\ t = 0.3) \/
  (year m <> Some year_ /\ years_close (year m) year_ /\ t = 0.2) \/
  (year m <> Some year_ /\ ~ years_close (year m) year_ /\ t = 0).

Definition author_term (m : CitationMetadata) (author : string) (t : float) : Prop :=
  (names_author author m /\ t = 0.3) \/ (~ names_author author m /\ t = 0).

Definition second_author_term (m : CitationMetadata) (second_author : option string)
    (t : float) : Prop :=
  (exists s, second_author = Some s /\ s <> EmptyString /\ names_author s m /\ t = 0.15) \/
  (~ (exists s, second_author = Some s /\ s <> EmptyString /\ names_author s m) /\ t = 0).

(** The texts that are scored are ASCII text, and the years are within the
    limit of [int] on the number of digits: there [str.lower] and [int] are
    [Py.lower] and [Py.int]. *)
Definition scored_text (m : CitationMetadata) (author year_ : string)
    (second_author : option string) : Prop :=
  Py.isascii author = true /\ Py.isascii (Py.str_of second_author) = true /\
  Forall (fun a => Py.isascii a = true) (authors m) /\
  Py.isascii year_ = true /\ (String.length year_ <= 4300)%nat /\
  Py.isascii (Py.str_of (year m)) = true /\ (String.length (Py.str_of (year m)) <= 4300)%nat.

(** The value [search] stores in [raw_source]. *)
Definition search_raw (author year_ : string) : string :=
  "(" +:+ author +:+ ", " +:+ year_ +:+ ")".

(** The metadata of the best of a list of results, as [search] returns it. *)
Definition final_answer (author year_ : string) (ranked : list SearchResult)
    : outcome :=
  Returns (option_map (fun b => set_raw_source (metadata b) (search_raw author year_))
             (head (sort_reverse ranked))).

(** An oracle that never answers, and a provider result, to run examples
    with. *)
Definition silent_oracle : Oracle := {| guess_citation := fun _ => None |}.

Definition sample_result (c : float) : SearchResult :=
  {| metadata := empty_metadata; confidence := c; match_reason := "sample" |}.

(** A record to score, a year off the year asked for. *)
Definition bandura_1978 : CitationMetadata :=
  {| title := Some "Social learning theory"; authors := ["Bandura, Albert"];
     year := Some "1978"; journal := None; publisher := None; volume := None;
     issue := None; pages := None; doi := None; url := None; case_name := None;
     citation := None; source_engine := None; raw_source := None |}.

End SpecResolver.

(** *** Well-formed relationship managers *)

Section SpecLinks.
Import Links.

(** Every URL the manager knows has an entry that targets it, and the ids
    from [next_id] on are free. *)
Definition rels_ok (r : RelsManager) : Prop :=
  (forall u id, url_to_rid r !! u = Some id ->
     exists rel, relationships r !! id = Some rel /\ target rel = u) /\
  (forall n, next_id r <= n -> relationships r !! rid n = None).

(** The cache of a part agrees with its manager. *)
Definition link_ok (st : link_state) : Prop :=
  rels_ok st.1 /\
  forall u id, st.2 !! u = Some id -> url_to_rid st.1 !! u = Some id.

(** A package whose archives cannot be opened, to run examples with. *)
Definition broken_package : Package :=
  {| xml_tree := list (list Child);
     extractall := fun _ => Raise (Exception "File is not a zip file");
     repackage := fun _ => Ok [];
     parse := fun _ => Ok [];
     tree_paragraphs := fun t => t;
     tree_replace := fun _ paras => paras;
     write := fun _ => Ok [];
     rels_entries := fun _ => [];
     save := fun _ => Ok [] |}.

End SpecLinks.

(** *** Vocabulary of the further facts

    Predicates and functions in which the facts about the further parts of
    the sources are stated; none of them is used by the model of the
    sources. *)

Section SpecHistory.
Context `{Models}.

(** A history as [add] builds it: every stored entry sits under its own key
    and carries a note number that has been handed out; the previous entry
    is the latest one and its key, if any, is stored; and a history without
    a previous entry is empty. *)
Definition history_ok (h : CitationHistory) : Prop :=
  (forall k e, all_sources h !! k = Some e ->
     source_key e = Some k /\ generate_source_key (entry_metadata e) = Some k /\
     1 <= note_number e <= note_counter h) /\
  (forall p, previous h = Some p ->
     note_number p = note_counter h /\
     source_key p = generate_source_key (entry_metadata p) /\
     forall k, source_key p = Some k -> is_Some (all_sources h !! k)) /\
  (previous h = None -> note_counter h = 0 /\ all_sources h = ∅).

End SpecHistory.

(** The writes Phase 2 owes the document for a list of results: one per
    successful result, with the formatted text of the result. *)
Definition expected_writes (fetched : list Fetched) (results : list ProcessedCitation)
    : list WriteOp :=
  flat_map (fun dr : Fetched * ProcessedCitation =>
              if success dr.2
              then [write_note (f_note_type dr.1) (f_note_id dr.1) (formatted dr.2)]
              else [])
           (combine fetched results).

Section SpecSearches.
Import AuthorDate.
#[local] Set Warnings "-inexact-float".
Local Open Scope float_scope.

(** The key under which [search_multiple] files a call, and the value it
    files. *)
Definition call_key (c : string * string * option string * option (option CitationMetadata))
    : string * string :=
  (Py.lower c.1.1.1, c.1.1.2).

Definition call_value (c : string * string * option string * option (option CitationMetadata))
    : option CitationMetadata :=
  match c.2 with
  | Some metadata => metadata
  | None => None
  end.

(** the score of a record with a title *)
Definition scored (r : SearchResult) : Prop :=
  Py.truthy (title (metadata r)) = true /\
  (0 <=? confidence r) = true /\ (confidence r <=? 1) = true.

End SpecSearches.

Section SpecReferences.
Import References.

Definition is_paragraph (c : BodyChild) : bool :=
  match c with P _ => true | _ => false end.

(** The body once its old reference list is removed. *)
Definition without_references (body : list BodyChild) : list BodyChild :=
  match find_references (paragraphs body) 0 with
  | Some idx => remove_paragraphs_from idx body
  | None => body
  end.

End SpecReferences.

(** the order of two keys, read off the comparisons of their components *)
Definition lex3 (c1 c2 c3 : comparison) : comparison :=
  match c1 with
  | Eq => match c2 with Eq => c3 | c => c end
  | c => c
  end.

Definition key_compare (a b : string * string * string) : comparison :=
  lex3 (String.compare a.1.1 b.1.1) (String.compare a.1.2 b.1.2) (String.compare a.2 b.2).

Section SpecActivator.
Import Links.

(** the relationship [_load] stores for an element *)
Definition rel_of (e : RelEntry) : Relationship :=
  {| rel_type := e_type e; target := e_target e; mode := e_mode e |}.

Definition ids_free (r : RelsManager) : Prop :=
  forall n, next_id r <= n -> relationships r !! rid n = None.

(** The text [_process_paragraph] reads from a child of a paragraph: the
    first text element of a run, the text of a hyperlink. *)
Definition text_read (c : Child) : string :=
  match c with
  | Run text => Py.str_of text
  | Hyperlink _ text => text
  | OtherChild _ => EmptyString
  end.

(** The texts read from the children of a paragraph, put together. *)
Definition texts_read (para : list Child) : string :=
  fold_right (fun c acc => text_read c +:+ acc) EmptyString para.

(** Spans that follow one another between [lo] and [hi]. *)
Fixpoint spans_ok (lo hi : nat) (spans : list (nat * nat)) : Prop :=
  match spans with
  | [] => True
  | (a, b) :: rest => lo <= a /\ a <= b /\ b <= hi /\ spans_ok b hi rest
  end.

(** A link target as the activator makes them: a web address without
    trailing punctuation. *)
Definition is_link_target (t : string) : bool :=
  (Py.startswith "http://" t || Py.startswith "https://" t) && String.eqb (clean t) t.

(** The hyperlink [r_id] with text [t] resolves in the manager [r]. *)
Definition resolves (r : RelsManager) (r_id t : string) : Prop :=
  exists rel, relationships r !! r_id = Some rel /\ target rel = t.

(** The hyperlinks of [elems] are all among those of [old], or are link
    targets that resolve. *)
Definition links_ok (r : RelsManager) (old elems : list Child) : Prop :=
  forall r_id t, In (Hyperlink r_id t) elems ->
    In (Hyperlink r_id t) old \/ (is_link_target t = true /\ resolves r r_id t).

(** every relationship of [r] is one of [r'] *)
Definition grows (r r' : RelsManager) : Prop :=
  forall id rel, relationships r !! id = Some rel -> relationships r' !! id = Some rel.

End SpecActivator.

(** The children the rewrite keeps. *)
Definition is_kept (c : PChild) : bool :=
  match c with
  | Props => true
  | ARun true _ _ => true
  | _ => false
  end.

Definition is_reference_run (c : PChild) : bool :=
  match c with
  | ARun true _ _ => true
  | _ => false
  end.

(** The markup a run stands for. *)
Definition run_markup (c : PChild) : string :=
  match c with
  | ARun _ true texts => "<i>" +:+ join EmptyString (map Py.str_of texts) +:+ "</i>"
  | ARun _ false texts => join EmptyString (map Py.str_of texts)
  | _ => EmptyString
  end.

Definition is_props (c : PChild) : bool :=
  match c with Props => true | _ => false end.

(** the runs made from the parts of a split *)
Definition part_runs (part : string) : list PChild :=
  if negb (Py.truthy (Some part)) then []
  else
    match italic_group part with
    | Some (inner, _) => [ARun false true [Some inner]]
    | None => [ARun false false [Some part]]
    end.

(** What the three replacements do to one character. *)
Definition escape_char (c : ascii) : string :=
  if Ascii.eqb c "&" then "&amp;"
  else if Ascii.eqb c "<" then "&lt;"
  else if Ascii.eqb c ">" then "&gt;"
  else String c EmptyString.

Fixpoint escape_each (s : string) : string :=
  match s with
  | EmptyString => EmptyString
  | String c s' => escape_char c +:+ escape_each s'
  end.


(** * Facts

    ** Strings *)

Section StringFacts.

Lemma app_cons (c : ascii) (s t : string) : String c s +:+ t = String c (s +:+ t).
Proof. reflexivity. Qed.

Lemma app_nil_l (s : string) : EmptyString +:+ s = s.
Proof. reflexivity. Qed.

Lemma app_nil_r (s : string) : s +:+ EmptyString = s.
Proof. induction s as [|c s IH]; [reflexivity | rewrite app_cons, IH; reflexivity]. Qed.

Lemma app_assoc (s t u : string) : (s +:+ t) +:+ u = s +:+ (t +:+ u).
Proof. induction s as [|c s IH]; [reflexivity | rewrite !app_cons, IH; reflexivity]. Qed.

Lemma length_app (s t : string) :
  String.length (s +:+ t) = String.length s + String.length t.
Proof. induction s as [|c s IH]; [reflexivity | rewrite app_cons; simpl; now rewrite IH]. Qed.

Lemma take_app (u r : string) : Py.take (String.length u) (u +:+ r) = u.
Proof. induction u as [|c u IH]; [now destruct r | rewrite app_cons; simpl; now rewrite IH]. Qed.

Lemma consumed_app (u r : string) : consumed (u +:+ r) r = u.
Proof.
  unfold consumed. rewrite length_app.
  replace (String.length u + String.length r - String.length r) with (String.length u) by lia.
  apply take_app.
Qed.

Lemma app_eq_nil (s t : string) : s +:+ t = EmptyString -> s = EmptyString /\ t = EmptyString.
Proof. destruct s; [simpl; auto | discriminate]. Qed.

Lemma lower_app (a b : string) : Py.lower (a +:+ b) = Py.lower a +:+ Py.lower b.
Proof. induction a as [|c a IH]; [reflexivity | rewrite app_cons; simpl; rewrite IH; reflexivity]. Qed.

Lemma lower_app_inv (t a b : string) :
  Py.lower t = a +:+ b ->
  exists ta tb, t = ta +:+ tb /\ Py.lower ta = a /\ Py.lower tb = b.
Proof.
  revert t. induction a as [|c a IH]; intros t Ht.
  - exists EmptyString, t. auto.
  - destruct t as [|d t]; [discriminate|].
    rewrite app_cons in Ht. simpl in Ht. injection Ht as Hc Ht.
    destruct (IH _ Ht) as (ta & tb & -> & <- & <-).
    exists (String d ta), tb. rewrite app_cons. simpl. rewrite Hc. auto.
Qed.

Lemma lit_eq_lower (w u : string) :
  lit_eq true w u = true <-> Py.lower w = Py.lower u.
Proof.
  revert u. induction w as [|a w IH]; intros [|c u]; simpl; try (split; [discriminate|discriminate]).
  - tauto.
  - rewrite andb_true_iff, IH, Ascii.eqb_eq. split.
    + intros [-> ->]. reflexivity.
    + intros [= -> ->]. auto.
Qed.

Lemma str_all_app f (a b : string) : str_all f (a +:+ b) = str_all f a && str_all f b.
Proof.
  induction a as [|c a IH]; [reflexivity|].
  rewrite app_cons. simpl. rewrite IH. now rewrite andb_assoc.
Qed.

Lemma str_snoc (u : string) :
  u <> EmptyString -> exists u' c, u = u' +:+ String c EmptyString.
Proof.
  induction u as [|c u IH]; [congruence|]. intros _.
  destruct u as [|d u].
  - exists EmptyString, c. reflexivity.
  - destruct IH as (u' & c' & E); [discriminate|].
    exists (String c u'), c'. rewrite app_cons, <- E. reflexivity.
Qed.

Lemma rstrip_last f (s u : string) (c : ascii) :
  Py.rstrip_with f s = u +:+ String c EmptyString -> f c = false.
Proof.
  revert u. induction s as [|d s IH]; intros u; simpl.
  - intros E. symmetry in E. apply app_eq_nil in E as [_ E]. discriminate.
  - destruct (Py.rstrip_with f s) as [|d' r] eqn:Er.
    + destruct (f d) eqn:Ed.
      * intros E. symmetry in E. apply app_eq_nil in E as [_ E]. discriminate.
      * destruct u as [|d'' u].
        -- rewrite app_nil_l. intros [= <-]. exact Ed.
        -- rewrite app_cons. intros [= _ E]; symmetry in E;
             apply app_eq_nil in E as [_ E]; discriminate.
    + destruct u as [|d'' u].
      * rewrite app_nil_l. intros [= _ E]; discriminate.
      * rewrite app_cons. intros [= _ E]. eapply IH. exact E.
Qed.

Lemma strip_ws_suffix (s u w : string) :
  Py.strip s = u +:+ w -> str_all Py.is_space w = true -> w = EmptyString.
Proof.
  intros E Hw. destruct w as [|c w]; [reflexivity|].
  destruct (str_snoc (String c w)) as (w' & c' & Ew); [discriminate|].
  rewrite Ew in E, Hw. rewrite <- app_assoc in E.
  apply rstrip_last in E.
  rewrite str_all_app in Hw. simpl in Hw.
  rewrite E in Hw. rewrite andb_false_r in Hw. discriminate.
Qed.

End StringFacts.

(** ** The matcher computes the ways a pattern matches *)

Section MatcherFacts.

Lemma run_lit_spec ic w s r :
  In r (run_lit ic w s) <-> exists u, s = u +:+ r /\ lit_eq ic w u = true.
Proof.
  revert s. induction w as [|a w IH]; intros s; simpl.
  - split.
    + intros [<-|[]]. exists EmptyString. auto.
    + intros (u & -> & Hu). destruct u; [now left | discriminate].
  - destruct s as [|c s].
    + split; [intros [] | intros (u & Hs & Hu)].
      destruct u; [discriminate | discriminate].
    + destruct (chr_eq ic a c) eqn:E.
      * rewrite IH. split.
        -- intros (u & -> & Hu). exists (String c u). rewrite app_cons. simpl. now rewrite E.
        -- intros (u & Hs & Hu). destruct u as [|c' u]; [discriminate|].
           rewrite app_cons in Hs. injection Hs as <- ->.
           simpl in Hu. rewrite E in Hu. eauto.
      * split; [intros [] | intros (u & Hs & Hu)].
        destruct u as [|c' u]; [discriminate|].
        rewrite app_cons in Hs. injection Hs as <- ->.
        simpl in Hu. rewrite E in Hu. discriminate.
Qed.

Lemma run_star_spec f s r :
  In r (run_star f s) <-> exists u, s = u +:+ r /\ str_all f u = true.
Proof.
  induction s as [|c s IH]; simpl.
  - split.
    + intros [<-|[]]. exists EmptyString. auto.
    + intros (u & Hs & _). symmetry in Hs. apply app_eq_nil in Hs as [_ ->]. now left.
  - destruct (f c) eqn:E.
    + rewrite in_app_iff, IH. simpl. split.
      * intros [(u & -> & Hu) | [<- | []]].
        -- exists (String c u). rewrite app_cons. simpl. now rewrite E.
        -- exists EmptyString. auto.
      * intros (u & Hs & Hu). destruct u as [|c' u].
        -- right. left. exact Hs.
        -- rewrite app_cons in Hs. injection Hs as <- ->.
           simpl in Hu. rewrite E in Hu. left. eauto.
    + simpl. split.
      * intros [<-|[]]. exists EmptyString. auto.
      * intros (u & Hs & Hu). destruct u as [|c' u]; [now left|].
        rewrite app_cons in Hs. injection Hs as <- ->.
        simpl in Hu. rewrite E in Hu. discriminate.
Qed.

Lemma run_plus_spec f s r :
  In r (run_plus f s) <-> exists u, s = u +:+ r /\ u <> EmptyString /\ str_all f u = true.
Proof.
  unfold run_plus. destruct s as [|c s].
  - split; [intros [] | intros (u & Hs & Hne & _)].
    symmetry in Hs. apply app_eq_nil in Hs as [-> _]. congruence.
  - destruct (f c) eqn:E.
    + rewrite run_star_spec. split.
      * intros (u & -> & Hu). exists (String c u). rewrite app_cons. simpl. rewrite E. auto.
      * intros (u & Hs & Hne & Hu). destruct u as [|c' u]; [congruence|].
        rewrite app_cons in Hs. injection Hs as <- ->.
        simpl in Hu. rewrite E in Hu. eauto.
    + split; [intros [] | intros (u & Hs & Hne & Hu)].
      destruct u as [|c' u]; [congruence|].
      rewrite app_cons in Hs. injection Hs as <- ->.
      simpl in Hu. rewrite E in Hu. discriminate.
Qed.

Theorem run_matches ic e g s g' r :
  In (g', r) (run ic e (g, s)) <-> exists u, s = u +:+ r /\ matches ic e u r g g'.
Proof.
  revert g s g' r. induction e as [f|w|a IHa b IHb|a IHa b IHb|a IHa|f|f|a IHa|];
    intros g s g' r; simpl.
  - destruct s as [|c s].
    + split; [intros [] | intros (u & Hs & _ & c & -> & _); discriminate].
    + destruct (f c) eqn:E; simpl.
      * split.
        -- intros [[= <- <-]|[]]. exists (String c EmptyString). eauto.
        -- intros (u & Hs & -> & c' & -> & Hc).
           rewrite app_cons, app_nil_l in Hs. injection Hs as <- <-. now left.
      * split; [intros [] | intros (u & Hs & -> & c' & -> & Hc)].
        rewrite app_cons, app_nil_l in Hs. injection Hs as <- <-. congruence.
  - rewrite in_map_iff. split.
    + intros (x & [= <- <-] & Hin). apply run_lit_spec in Hin as (u & -> & Hu). eauto.
    + intros (u & -> & -> & Hu). exists r. split; [reflexivity|].
      apply run_lit_spec. eauto.
  - rewrite in_flat_map. split.
    + intros ([g1 m] & H1 & H2).
      apply IHa in H1 as (u1 & -> & M1). apply IHb in H2 as (u2 & -> & M2).
      exists (u1 +:+ u2). rewrite app_assoc. split; [reflexivity|]. eauto 10.
    + intros (u & -> & u1 & u2 & g1 & -> & M1 & M2).
      exists (g1, u2 +:+ r). split.
      * apply IHa. exists u1. rewrite app_assoc. auto.
      * apply IHb. eauto.
  - rewrite in_app_iff, IHa, IHb. split.
    + intros [(u & -> & M) | (u & -> & M)]; eauto.
    + intros (u & -> & [M|M]); eauto.
  - rewrite in_app_iff, IHa. simpl. split.
    + intros [(u & -> & M) | [[= <- <-] | []]]; [eauto|].
      exists EmptyString. auto.
    + intros (u & -> & [M | [-> ->]]); [eauto|]. right. now left.
  - rewrite in_map_iff. split.
    + intros (x & [= <- <-] & Hin). apply run_star_spec in Hin as (u & -> & Hu). eauto.
    + intros (u & -> & -> & Hu). exists r. split; [reflexivity|].
      apply run_star_spec. eauto.
  - rewrite in_map_iff. split.
    + intros (x & [= <- <-] & Hin). apply run_plus_spec in Hin as (u & -> & Hu). eauto.
    + intros (u & -> & -> & Hu). exists r. split; [reflexivity|].
      apply run_plus_spec. eauto.
  - rewrite in_map_iff. split.
    + intros ([g0 r0] & [= <- <-] & Hin). simpl in *.
      apply IHa in Hin as (u & -> & M). exists u. rewrite consumed_app. eauto.
    + intros (u & -> & (g0 & M) & ->). exists (g0, r). simpl.
      rewrite consumed_app. split; [reflexivity|]. apply IHa. eauto.
  - destruct (at_end s) eqn:E; simpl.
    + split.
      * intros [[= <- <-]|[]]. exists EmptyString. auto.
      * intros (u & -> & -> & -> & _). now left.
    + split; [intros [] | intros (u & -> & -> & -> & E')]. rewrite app_nil_l in E. congruence.
Qed.

Lemma at_end_ws (r : string) : at_end r = true -> str_all Py.is_space r = true.
Proof.
  destruct r as [|c [|d r]]; simpl; try discriminate; [reflexivity|].
  intros E. apply Ascii.eqb_eq in E. subst c. reflexivity.
Qed.

Lemma match_Some_iff ic e s :
  (exists st, match_ ic e s = Some st) <->
  exists u r g', s = u +:+ r /\ matches ic e u r None g'.
Proof.
  unfold match_. split.
  - intros ([g' r] & E). apply head_Some_elem_of in E.
    apply list_elem_of_In, run_matches in E as (u & -> & M). eauto.
  - intros (u & r & g' & -> & M).
    assert (Hin : In (g', r) (run ic e (None, u +:+ r))) by (apply run_matches; eauto).
    destruct (run ic e (None, u +:+ r)); [destruct Hin | simpl; eauto].
Qed.

(** the tail [\s*$] of a stripped text is empty *)
Lemma ws_dollar_tail ic (s u1 u2 r : string) g g' :
  Py.strip s = (u1 +:+ u2) +:+ r ->
  matches ic (Seq (Star ws) Dollar) u2 r g g' ->
  u2 = EmptyString /\ r = EmptyString.
Proof.
  intros E (w & e & g1 & -> & (_ & Hw) & -> & _ & He).
  rewrite app_nil_r in *. rewrite app_assoc in E.
  apply strip_ws_suffix in E.
  - apply app_eq_nil in E. exact E.
  - unfold ws in Hw. rewrite str_all_app, Hw. simpl. apply at_end_ws. exact He.
Qed.

End MatcherFacts.

(** ** The ibid recognizer *)

Section IbidFacts.

Lemma opt_lit_iff w u r g g' :
  matches true (Opt (Lit w)) u r g g' <->
  g' = g /\ (Py.lower u = Py.lower w \/ u = EmptyString).
Proof.
  cbn [matches]. rewrite lit_eq_lower. split.
  - intros [[-> E] | [-> ->]]; auto.
  - intros [-> [E | ->]]; auto.
Qed.

Lemma lower_char_not_letter (c : ascii) :
  not_letter (Py.lower_char c) = true -> Py.lower_char c = c.
Proof. destruct c as [[] [] [] [] [] [] [] []]; vm_compute; congruence. Qed.

Lemma lower_not_letter (u w : string) :
  Py.lower u = w -> str_all not_letter w = true -> u = w.
Proof.
  revert w. induction u as [|c u IH]; intros w; simpl.
  - now intros <-.
  - intros <-. simpl. rewrite andb_true_iff. intros [Hc Hw].
    rewrite (lower_char_not_letter _ Hc). f_equal. apply IH; auto.
Qed.

Lemma token_iff u r g g' :
  matches true IBID_TOKEN u r g g' <-> g' = g /\ ibid_token u.
Proof.
  unfold IBID_TOKEN, ibid_token.
  assert (P : forall w, (w = "ibid" \/ w = "ibidem" \/ w = "id") ->
            (matches true (Seq (Lit w) (Opt (Lit "."))) u r g g' <->
             g' = g /\ (Py.lower u = w \/ Py.lower u = w +:+ "."))).
  { intros w Hw.
    assert (Lw : Py.lower w = w) by (destruct Hw as [->|[->| ->]]; reflexivity).
    split.
    - intros (u1 & u2 & g1 & -> & [-> H1] & H2).
      apply lit_eq_lower in H1. apply opt_lit_iff in H2 as [-> H2].
      split; [reflexivity|]. rewrite lower_app, <- H1, Lw.
      destruct H2 as [-> | ->]; [right; reflexivity | left; simpl; now rewrite app_nil_r].
    - intros [-> [E | E]].
      + exists u, EmptyString, g. rewrite app_nil_r. split; [reflexivity|].
        split; [split; [reflexivity | apply lit_eq_lower; congruence]|].
        right. auto.
      + apply lower_app_inv in E as (ta & tb & -> & Ha & Hb).
        exists ta, tb, g. split; [reflexivity|].
        split; [split; [reflexivity | apply lit_eq_lower; congruence]|].
        left. split; [reflexivity | apply lit_eq_lower; now rewrite Hb]. }
  change (matches true (Alt (Seq (Lit "ibid") (Opt (Lit ".")))
           (Alt (Seq (Lit "ibidem") (Opt (Lit "."))) (Seq (Lit "id") (Opt (Lit "."))))) u r g g')
    with (matches true (Seq (Lit "ibid") (Opt (Lit "."))) u r g g' \/
          matches true (Seq (Lit "ibidem") (Opt (Lit "."))) u r g g' \/
          matches true (Seq (Lit "id") (Opt (Lit "."))) u r g g').
  rewrite !P by auto. simpl. intuition (subst; auto 10).
Qed.

Lemma separator_iff u r g g' :
  matches true IBID_SEPARATOR u r g g' <-> g' = g /\ ibid_separator u.
Proof.
  unfold IBID_SEPARATOR, ibid_separator. cbn [matches]. split.
  - intros [(u1 & u2 & g1 & -> & [-> H1] & -> & Hne & Hw)
           | (u1 & u2 & g1 & -> & H1 & -> & Hw)].
    + apply lit_eq_lower in H1. split; [reflexivity|]. left. exists u1, u2. auto.
    + destruct H1 as [[-> (c & -> & Hc)] | [-> ->]]; (split; [reflexivity|]); right.
      * exists (String c EmptyString), u2. split; [reflexivity|]. split; [|exact Hw].
        unfold comma_or_dot in Hc. apply orb_true_iff in Hc.
        rewrite !Ascii.eqb_eq in Hc. destruct Hc as [-> | ->]; simpl; auto.
      * exists EmptyString, u2. simpl. auto.
  - intros [-> [(a & w & -> & Ha & Hne & Hw) | (p & w & -> & Hp & Hw)]].
    + left. exists a, w, g. split; [reflexivity|].
      split; [split; [reflexivity | apply lit_eq_lower; now rewrite Ha]|]. auto.
    + right. exists p, w, g. split; [reflexivity|]. split; [|auto].
      destruct Hp as [<- | [<- | [<- | []]]].
      * right. auto.
      * left. split; [reflexivity|]. exists ","%char. auto.
      * left. split; [reflexivity|]. exists "."%char. auto.
Qed.

Lemma marker_iff u r g g' :
  matches true IBID_PAGE_MARKER u r g g' <-> g' = g /\ ibid_page_marker u.
Proof.
  unfold IBID_PAGE_MARKER, ibid_page_marker.
  change (matches true (Seq (Lit "p") (Seq (Opt (Lit "p")) (Seq (Opt (Lit ".")) (Star ws)))) u r g g')
    with (exists u1 u2 g1, u = u1 +:+ u2 /\
            matches true (Lit "p") u1 (u2 +:+ r) g g1 /\
            exists u3 u4 g2, u2 = u3 +:+ u4 /\
              matches true (Opt (Lit "p")) u3 (u4 +:+ r) g1 g2 /\
              exists u5 u6 g3, u4 = u5 +:+ u6 /\
                matches true (Opt (Lit ".")) u5 (u6 +:+ r) g2 g3 /\
                matches true (Star ws) u6 r g3 g').
  split.
  - intros (u1 & u2 & g1 & -> & [-> H1] & u3 & u4 & g2 & -> & H2 & u5 & u6 & g3 & -> & H3 & -> & Hw).
    apply lit_eq_lower in H1. apply opt_lit_iff in H2 as [-> H2]. apply opt_lit_iff in H3 as [-> H3].
    split; [reflexivity|].
    exists (u1 +:+ u3), u5, u6. rewrite !app_assoc. split; [reflexivity|].
    rewrite lower_app, <- H1. split; [|split; [|exact Hw]].
    + destruct H2 as [-> | ->]; simpl; auto.
    + destruct H3 as [E | ->]; [|simpl; auto].
      apply lower_not_letter in E; [|reflexivity]. subst. simpl. auto.
  - intros [-> (p & d & w & -> & Hp & Hd & Hw)].
    assert (exists p1 p2, p = p1 +:+ p2 /\ Py.lower p1 = "p" /\ (Py.lower p2 = "p" \/ p2 = EmptyString))
      as (p1 & p2 & -> & Hp1 & Hp2).
    { destruct Hp as [E | [E | []]]; symmetry in E.
      - exists p, EmptyString. rewrite app_nil_r. auto.
      - change "pp" with ("p" +:+ "p") in E.
        apply lower_app_inv in E as (ta & tb & -> & Ha & Hb). eauto 10. }
    exists p1, (p2 +:+ d +:+ w), g. rewrite !app_assoc. split; [reflexivity|].
    split; [split; [reflexivity | apply lit_eq_lower; now rewrite Hp1]|].
    exists p2, (d +:+ w), g. split; [reflexivity|].
    split; [apply opt_lit_iff; split; [reflexivity|]; simpl; tauto|].
    exists d, w, g. split; [reflexivity|].
    split; [apply opt_lit_iff; split; [reflexivity|] | simpl; auto].
    destruct Hd as [<- | [<- | []]]; simpl; auto.
Qed.

Lemma page_iff u r g g' :
  matches true IBID_PAGE u r g g' <-> g' = g /\ page_range u.
Proof.
  unfold IBID_PAGE, page_range, dash, one. cbn [matches]. split.
  - intros (d1 & u2 & g1 & -> & (-> & Hne & H1) & h & d2 & g2 & -> & Hh & -> & H2).
    assert (Hh' : g2 = g /\ In h [""; "-"; "–"]).
    { destruct Hh as [[[-> (c & -> & Hc)] | [-> Hl]] | [-> ->]].
      - apply Ascii.eqb_eq in Hc. subst c. simpl. auto.
      - apply lit_eq_lower in Hl. symmetry in Hl.
        apply lower_not_letter in Hl; [|reflexivity]. subst. simpl. auto.
      - simpl. auto. }
    destruct Hh' as [-> Hh']. split; [reflexivity|]. exists d1, h, d2. auto.
  - intros [-> (d1 & h & d2 & -> & Hne & H1 & Hh & H2)].
    exists d1, (h +:+ d2), g. split; [reflexivity|]. split; [auto|].
    exists h, d2, g. split; [reflexivity|]. split; [|auto].
    destruct Hh as [<- | [<- | [<- | []]]].
    + right. auto.
    + left. left. split; [reflexivity|]. exists "-"%char. auto.
    + left. right. split; [reflexivity | reflexivity].
Qed.

Lemma page_range_nonempty pg : page_range pg -> pg <> EmptyString.
Proof.
  intros (d1 & h & d2 & -> & Hne & _). intros E. apply app_eq_nil in E as [E _]. auto.
Qed.

Lemma page_group_range pg : page_range pg -> page_group pg = Some pg.
Proof. intros H. apply page_range_nonempty in H. destruct pg; [congruence | reflexivity]. Qed.

Lemma opt_iff (P : string -> Prop) e u r g g' :
  (forall u r g g', matches true e u r g g' <-> g' = g /\ P u) ->
  matches true (Opt e) u r g g' <-> g' = g /\ (u = EmptyString \/ P u).
Proof.
  intros He. cbn [matches]. rewrite He. intuition.
Qed.

Lemma ibid_matches_iff u r g' :
  matches true IBID_PATTERN u r None g' <->
  at_end r = true /\ exists pg, ibid_parse u pg /\ g' = page_group pg.
Proof.
  unfold IBID_PATTERN.
  change (matches true (Seq IBID_TOKEN ?x) u r None g')
    with (exists tok u2 g1, u = tok +:+ u2 /\
            matches true IBID_TOKEN tok (u2 +:+ r) None g1 /\
            matches true x u2 r g1 g').
  split.
  - intros (tok & u2 & g1 & -> & Htok & tail & u4 & g2 & -> & Htail & dot & e & g3 & -> & Hdot & He).
    apply token_iff in Htok as [-> Htok].
    apply opt_lit_iff in Hdot as [-> Hdot].
    destruct He as (-> & -> & Hend). split; [exact Hend|].
    assert (Hdot' : In dot [""; "."]).
    { destruct Hdot as [E | ->]; [|simpl; auto].
      apply lower_not_letter in E; [|reflexivity]. subst. simpl. auto. }
    rewrite app_nil_r.
    destruct Htail as [(w & u6 & g4 & -> & [-> Hw] & sep & u8 & g5 & -> & Hsep & pm & pgs & g6 & -> & Hpm & Hpg) | [-> ->]].
    + apply (opt_iff ibid_separator) in Hsep as [-> Hsep]; [|apply separator_iff].
      apply (opt_iff ibid_page_marker) in Hpm as [-> Hpm]; [|apply marker_iff].
      destruct Hpg as [[(g0 & Hpg) ->] | [-> ->]].
      * apply page_iff in Hpg as [_ Hpg]. exists pgs. split.
        -- exists tok, w, sep, pm, dot. rewrite !app_assoc. auto 10.
        -- now rewrite page_group_range.
      * exists EmptyString. split; [|reflexivity].
        exists tok, w, sep, pm, dot. rewrite !app_assoc. auto 10.
    + exists EmptyString. split; [|reflexivity].
      exists tok, EmptyString, EmptyString, EmptyString, dot. simpl. auto 10.
  - intros (Hend & pg & (tok & w & sep & pm & dot & -> & Htok & Hw & Hsep & Hpm & Hpg & Hdot) & ->).
    exists tok, (w +:+ sep +:+ pm +:+ pg +:+ dot), None. split; [reflexivity|].
    split; [apply token_iff; auto|].
    exists (w +:+ sep +:+ pm +:+ pg), dot, (page_group pg). rewrite !app_assoc.
    split; [reflexivity|]. split.
    + left. exists w, (sep +:+ pm +:+ pg), None. split; [reflexivity|].
      split; [split; auto|].
      exists sep, (pm +:+ pg), None. split; [reflexivity|].
      split; [apply (opt_iff ibid_separator); [apply separator_iff | tauto]|].
      exists pm, pg, None. split; [reflexivity|].
      split; [apply (opt_iff ibid_page_marker); [apply marker_iff | tauto]|].
      destruct Hpg as [-> | Hpg].
      * right. auto.
      * left. rewrite page_group_range by exact Hpg. split; [|reflexivity].
        exists None. apply page_iff. auto.
    + exists dot, EmptyString, (page_group pg). rewrite app_nil_r. split; [reflexivity|].
      split; [|cbn [matches]; auto].
      apply opt_lit_iff. split; [reflexivity|].
      destruct Hdot as [<- | [<- | []]]; auto.
Qed.

(** on a stripped text the pattern reads to the very end *)
Lemma ibid_run_stripped s g' r :
  In (g', r) (run true IBID_PATTERN (None, Py.strip s)) <->
  r = EmptyString /\ exists pg, ibid_parse (Py.strip s) pg /\ g' = page_group pg.
Proof.
  rewrite run_matches. split.
  - intros (u & E & M). apply ibid_matches_iff in M as (Hend & pg & Hp & ->).
    assert (r = EmptyString) as ->.
    { eapply strip_ws_suffix; [exact E | now apply at_end_ws]. }
    rewrite app_nil_r in E. subst u. eauto.
  - intros (-> & pg & Hp & ->). exists (Py.strip s). rewrite app_nil_r.
    split; [reflexivity|]. apply ibid_matches_iff. eauto.
Qed.

Lemma str_all_impl (f h : ascii -> bool) (u : string) :
  (forall c, f c = true -> h c = true) -> str_all f u = true -> str_all h u = true.
Proof.
  intros Hi. induction u as [|c u IH]; simpl; [auto|].
  rewrite !andb_true_iff. intros [Hc Hu]. auto.
Qed.

Lemma digit_lower (c : ascii) : Py.is_digit (Py.lower_char c) = Py.is_digit c.
Proof. destruct c as [[] [] [] [] [] [] [] []]; reflexivity. Qed.

Lemma nondigit_lower (u : string) : str_all nondigit (Py.lower u) = str_all nondigit u.
Proof.
  induction u as [|c u IH]; simpl; [reflexivity|].
  unfold nondigit at 1 3. now rewrite digit_lower, IH.
Qed.

Lemma space_nondigit (c : ascii) : Py.is_space c = true -> nondigit c = true.
Proof. destruct c as [[] [] [] [] [] [] [] []]; vm_compute; congruence. Qed.

Lemma digit_nondot (c : ascii) : Py.is_digit c = true -> nondot c = true.
Proof. destruct c as [[] [] [] [] [] [] [] []]; vm_compute; congruence. Qed.

Lemma digit_nonspace (c : ascii) : Py.is_digit c = true -> nonspace c = true.
Proof. destruct c as [[] [] [] [] [] [] [] []]; vm_compute; congruence. Qed.

Lemma in_forms_all (f : ascii -> bool) (u : string) (forms : list string) :
  In u forms -> forallb (str_all f) forms = true -> str_all f u = true.
Proof. intros Hin Hf. rewrite forallb_forall in Hf. auto. Qed.

Lemma token_nondigit tok : ibid_token tok -> str_all nondigit tok = true.
Proof.
  intros H. rewrite <- nondigit_lower. eapply in_forms_all; [exact H | reflexivity].
Qed.

Lemma ws_nondigit w : str_all ws w = true -> str_all nondigit w = true.
Proof. apply str_all_impl. exact space_nondigit. Qed.

Lemma separator_nondigit sep :
  sep = EmptyString \/ ibid_separator sep -> str_all nondigit sep = true.
Proof.
  intros [-> | [(a & w & -> & Ha & _ & Hw) | (p & w & -> & Hp & Hw)]]; [reflexivity| |].
  - rewrite str_all_app, <- nondigit_lower, Ha, (ws_nondigit _ Hw). reflexivity.
  - rewrite str_all_app, (ws_nondigit _ Hw), andb_true_r.
    eapply in_forms_all; [exact Hp | reflexivity].
Qed.

Lemma marker_nondigit pm :
  pm = EmptyString \/ ibid_page_marker pm -> str_all nondigit pm = true.
Proof.
  intros [-> | (p & d & w & -> & Hp & Hd & Hw)]; [reflexivity|].
  rewrite !str_all_app, (ws_nondigit _ Hw), andb_true_r.
  rewrite <- nondigit_lower.
  rewrite (in_forms_all _ _ _ Hp) by reflexivity.
  rewrite (in_forms_all _ _ _ Hd) by reflexivity. reflexivity.
Qed.

Lemma page_first_digit pg :
  page_range pg -> exists c pg', pg = String c pg' /\ Py.is_digit c = true.
Proof.
  intros (d1 & h & d2 & -> & Hne & H1 & _).
  destruct d1 as [|c d1]; [congruence|]. simpl in H1.
  apply andb_true_iff in H1 as [Hc _]. rewrite app_cons. eauto.
Qed.

Lemma page_all (f : ascii -> bool) pg :
  (forall c, Py.is_digit c = true -> f c = true) ->
  forallb (str_all f) [""; "-"; "–"] = true ->
  page_range pg -> str_all f pg = true.
Proof.
  intros Hd Hf (d1 & h & d2 & -> & _ & H1 & Hh & H2).
  rewrite !str_all_app.
  rewrite (str_all_impl digit f d1 Hd H1), (str_all_impl digit f d2 Hd H2).
  rewrite (in_forms_all _ _ _ Hh Hf). reflexivity.
Qed.

Lemma nondigit_prefix_unique (p1 p2 x1 x2 : string) c1 c2 :
  p1 +:+ String c1 x1 = p2 +:+ String c2 x2 ->
  str_all nondigit p1 = true -> str_all nondigit p2 = true ->
  Py.is_digit c1 = true -> Py.is_digit c2 = true ->
  p1 = p2 /\ String c1 x1 = String c2 x2.
Proof.
  revert p2. induction p1 as [|a p1 IH]; intros [|b p2]; rewrite ?app_cons, ?app_nil_l.
  - auto.
  - intros [= -> _] _ H2 H1 _. simpl in H2. unfold nondigit in H2.
    rewrite H1 in H2. discriminate.
  - intros [= -> _] H1 _ _ H2. simpl in H1. unfold nondigit in H1.
    rewrite H2 in H1. discriminate.
  - intros [= -> E] H1 H2 Hc1 Hc2. simpl in H1, H2.
    apply andb_true_iff in H1 as [_ H1]. apply andb_true_iff in H2 as [_ H2].
    destruct (IH _ E H1 H2 Hc1 Hc2) as [-> ?]. auto.
Qed.

Lemma nodot_prefix_unique (p1 p2 d1 d2 : string) :
  p1 +:+ d1 = p2 +:+ d2 ->
  str_all nondot p1 = true -> str_all nondot p2 = true ->
  In d1 [""; "."] -> In d2 [""; "."] -> p1 = p2.
Proof.
  revert p2. induction p1 as [|a p1 IH]; intros [|b p2]; rewrite ?app_cons, ?app_nil_l.
  - auto.
  - intros E _ H2 Hd1 _. simpl in H2. apply andb_true_iff in H2 as [H2 _].
    destruct Hd1 as [<- | [<- | []]]; [discriminate|].
    injection E as <- _. discriminate.
  - intros E H1 _ _ Hd2. simpl in H1. apply andb_true_iff in H1 as [H1 _].
    destruct Hd2 as [<- | [<- | []]]; [discriminate|].
    injection E as -> _. discriminate.
  - intros [= -> E] H1 H2 Hd1 Hd2. simpl in H1, H2.
    apply andb_true_iff in H1 as [_ H1]. apply andb_true_iff in H2 as [_ H2].
    f_equal. eapply IH; eauto.
Qed.

Lemma ibid_parse_split t pg :
  ibid_parse t pg ->
  exists pre dot, t = pre +:+ pg +:+ dot /\ str_all nondigit pre = true /\
    (pg = EmptyString \/ page_range pg) /\ In dot [""; "."].
Proof.
  intros (tok & w & sep & pm & dot & -> & Htok & Hw & Hsep & Hpm & Hpg & Hdot).
  exists (tok +:+ w +:+ sep +:+ pm), dot. rewrite !app_assoc.
  split; [reflexivity|]. split; [|auto].
  rewrite !str_all_app, (token_nondigit _ Htok), (ws_nondigit _ Hw),
    (separator_nondigit _ Hsep), (marker_nondigit _ Hpm). reflexivity.
Qed.

Lemma ibid_parse_unique t pg1 pg2 :
  ibid_parse t pg1 -> ibid_parse t pg2 -> pg1 = pg2.
Proof.
  intros H1 H2.
  apply ibid_parse_split in H1 as (p1 & d1 & E1 & Hp1 & Hg1 & Hd1).
  apply ibid_parse_split in H2 as (p2 & d2 & E2 & Hp2 & Hg2 & Hd2).
  assert (Hdn : forall d, In d [""; "."] -> str_all nondigit d = true).
  { intros d Hd. eapply in_forms_all; [exact Hd | reflexivity]. }
  rewrite E1 in E2. clear E1.
  destruct Hg1 as [-> | Hg1], Hg2 as [-> | Hg2]; [reflexivity | | |].
  - exfalso. destruct (page_first_digit _ Hg2) as (c & pg' & -> & Hc).
    rewrite app_nil_l in E2.
    assert (X : str_all nondigit (p1 +:+ d1) = true)
      by (rewrite str_all_app, Hp1, (Hdn _ Hd1); reflexivity).
    rewrite E2, !str_all_app in X. simpl in X. unfold nondigit at 2 in X.
    rewrite Hc in X. simpl in X. rewrite andb_false_r in X. discriminate.
  - exfalso. destruct (page_first_digit _ Hg1) as (c & pg' & -> & Hc).
    rewrite app_nil_l in E2.
    assert (X : str_all nondigit (p2 +:+ d2) = true)
      by (rewrite str_all_app, Hp2, (Hdn _ Hd2); reflexivity).
    rewrite <- E2, !str_all_app in X. simpl in X. unfold nondigit at 2 in X.
    rewrite Hc in X. simpl in X. rewrite andb_false_r in X. discriminate.
  - destruct (page_first_digit _ Hg1) as (c1 & x1 & E1 & Hc1).
    destruct (page_first_digit _ Hg2) as (c2 & x2 & E2' & Hc2).
    assert (Hn1 : str_all nondot pg1 = true) by (apply page_all; [exact digit_nondot | reflexivity | exact Hg1]).
    assert (Hn2 : str_all nondot pg2 = true) by (apply page_all; [exact digit_nondot | reflexivity | exact Hg2]).
    rewrite E1, E2' in E2. rewrite !app_cons in E2.
    apply nondigit_prefix_unique in E2 as [_ E2]; auto.
    rewrite <- !app_cons, <- E1, <- E2' in E2.
    eapply nodot_prefix_unique; eauto.
Qed.

Lemma lstrip_nonspace f (u : string) :
  str_all (fun c => negb (f c)) u = true -> Py.lstrip_with f u = u.
Proof.
  destruct u as [|c u]; simpl; [reflexivity|].
  intros H. apply andb_true_iff in H as [H _]. apply negb_true_iff in H. now rewrite H.
Qed.

Lemma rstrip_nonspace f (u : string) :
  str_all (fun c => negb (f c)) u = true -> Py.rstrip_with f u = u.
Proof.
  induction u as [|c u IH]; simpl; [reflexivity|].
  intros H. apply andb_true_iff in H as [Hc Hu]. apply negb_true_iff in Hc.
  rewrite (IH Hu), Hc. destruct u; reflexivity.
Qed.

Lemma strip_page pg : page_range pg -> Py.strip pg = pg.
Proof.
  intros H. assert (Hn : str_all nonspace pg = true)
    by (apply page_all; [exact digit_nonspace | reflexivity | exact H]).
  unfold Py.strip. rewrite lstrip_nonspace by exact Hn. apply rstrip_nonspace. exact Hn.
Qed.

Lemma is_ibid_match (s : string) :
  is_ibid s = true <-> exists st, match_ true IBID_PATTERN (Py.strip s) = Some st.
Proof.
  unfold is_ibid. destruct s as [|c s].
  - simpl. split; [discriminate | intros (st & E); discriminate].
  - simpl Py.truthy. cbv iota beta. simpl negb. cbv iota.
    destruct (match_ true IBID_PATTERN (Py.strip (String c s))); split; eauto; try discriminate.
    intros (st & E). discriminate.
Qed.

Lemma match_ibid_stripped s g' r :
  match_ true IBID_PATTERN (Py.strip s) = Some (g', r) ->
  r = EmptyString /\ exists pg, ibid_parse (Py.strip s) pg /\ g' = page_group pg.
Proof.
  unfold match_. intros E. apply head_Some_elem_of, list_elem_of_In in E.
  apply ibid_run_stripped in E. exact E.
Qed.

Lemma parse_match_ibid s pg :
  ibid_parse (Py.strip s) pg ->
  match_ true IBID_PATTERN (Py.strip s) = Some (page_group pg, EmptyString).
Proof.
  intros Hp.
  assert (Hin : In (page_group pg, EmptyString) (run true IBID_PATTERN (None, Py.strip s)))
    by (apply ibid_run_stripped; eauto).
  unfold match_. destruct (run true IBID_PATTERN (None, Py.strip s)) as [|[g0 r0] l] eqn:E;
    [destruct Hin|].
  assert (Hin0 : In (g0, r0) (run true IBID_PATTERN (None, Py.strip s)))
    by (rewrite E; now left).
  apply ibid_run_stripped in Hin0 as (-> & pg0 & Hp0 & ->).
  rewrite (ibid_parse_unique _ _ _ Hp0 Hp). reflexivity.
Qed.


End IbidFacts.



(** ** The reference-list splice *)

Section ReferencesFacts.
Import References.

Lemma heading_iff (texts : list (option string)) :
  is_references_heading texts = true <->
  In (Py.lower (Py.strip (para_text texts))) heading_forms.
Proof.
  unfold is_references_heading.
  set (t := Py.strip (para_text texts)).
  assert (Ht : exists s, t = Py.strip s) by (eexists; reflexivity).
  clearbody t.
  transitivity (exists st, match_ true HEADING_PATTERN t = Some st).
  { destruct (match_ true HEADING_PATTERN t); split; eauto; try discriminate.
    intros (st & E). discriminate. }
  rewrite match_Some_iff. destruct Ht as (s & ->). split.
  - intros (u & r & g' & E & M).
    destruct M as [M | [M | M]].
    + destruct M as (u1 & u2 & g1 & -> & (_ & H1) & u3 & u4 & g2 & -> & H3 & M).
      rewrite <- app_assoc in E.
      destruct (ws_dollar_tail _ _ _ _ _ _ _ E M) as [-> ->].
      rewrite E, !app_nil_r.
      apply lit_eq_lower in H1. rewrite lower_app, <- H1.
      destruct H3 as [(_ & H3) | (-> & _)].
      * apply lit_eq_lower in H3. rewrite <- H3. simpl. auto.
      * simpl. auto.
    + destruct M as (u1 & u2 & g1 & -> & (_ & H1) & M).
      destruct (ws_dollar_tail _ _ _ _ _ _ _ E M) as [-> ->].
      rewrite E, !app_nil_r. apply lit_eq_lower in H1. rewrite <- H1. simpl. auto.
    + destruct M as (u1 & u2 & g1 & -> & (_ & H1) & M).
      destruct (ws_dollar_tail _ _ _ _ _ _ _ E M) as [-> ->].
      rewrite E, !app_nil_r. apply lit_eq_lower in H1. rewrite <- H1. simpl. auto.
  - intros Hin. exists (Py.strip s), EmptyString, None.
    split; [now rewrite app_nil_r|].
    assert (Tail : forall g, matches true (Seq (Star ws) Dollar) EmptyString EmptyString g g).
    { intros g. exists EmptyString, EmptyString, g. simpl. auto. }
    destruct Hin as [Hin | [Hin | [Hin | [Hin | []]]]]; symmetry in Hin.
    + left. exists (Py.strip s), EmptyString, None. rewrite app_nil_r.
      split; [reflexivity|]. split; [split; [reflexivity | apply lit_eq_lower; now rewrite Hin]|].
      exists EmptyString, EmptyString, None. split; [reflexivity|]. split; [right; auto | apply Tail].
    + change "references" with ("reference" +:+ "s") in Hin.
      apply lower_app_inv in Hin as (ta & tb & E & Ha & Hb).
      left. exists ta, tb, None. split; [exact E|].
      split; [split; [reflexivity | apply lit_eq_lower; now rewrite Ha]|].
      exists tb, EmptyString, None. rewrite app_nil_r. split; [reflexivity|].
      split; [left; split; [reflexivity | apply lit_eq_lower; now rewrite Hb] | apply Tail].
    + right. left. exists (Py.strip s), EmptyString, None. rewrite app_nil_r.
      split; [reflexivity|]. split; [split; [reflexivity | apply lit_eq_lower; now rewrite Hin] | apply Tail].
    + right. right. exists (Py.strip s), EmptyString, None. rewrite app_nil_r.
      split; [reflexivity|]. split; [split; [reflexivity | apply lit_eq_lower; now rewrite Hin] | apply Tail].
Qed.

Lemma find_references_None paras i :
  find_references paras i = None <->
  forall t, In t paras -> is_references_heading t = false.
Proof.
  revert i. induction paras as [|p paras IH]; intros i; simpl.
  - split; [intros _ t [] | reflexivity].
  - destruct (is_references_heading p) eqn:E.
    + split; [discriminate|]. intros Hf. rewrite (Hf p) in E by now left. discriminate.
    + rewrite IH. split.
      * intros Hf t [<- | Ht]; auto.
      * intros Hf t Ht. apply Hf. now right.
Qed.

Lemma find_references_Some paras i j :
  find_references paras i = Some j ->
  exists k t, j = i + k /\ nth_error paras k = Some t /\ is_references_heading t = true
    /\ forall k' t', k' < k -> nth_error paras k' = Some t' -> is_references_heading t' = false.
Proof.
  revert i. induction paras as [|p paras IH]; intros i; simpl; [discriminate|].
  destruct (is_references_heading p) eqn:E.
  - intros [= <-]. exists 0, p. split; [lia|]. split; [reflexivity|]. split; [exact E|].
    intros k' t' Hlt. lia.
  - intros Hf. apply IH in Hf as (k & t & -> & Hn & Ht & Hbefore).
    exists (S k), t. split; [lia|]. split; [exact Hn|]. split; [exact Ht|].
    intros [|k'] t' Hlt; simpl.
    + intros [= <-]. exact E.
    + intros Hk'. eapply Hbefore; [|exact Hk']. lia.
Qed.




End ReferencesFacts.

(** ** Source keys *)

Section SourceKeyFacts.
Context `{Models}.

Lemma generate_source_key_candidates (m : CitationMetadata) :
  generate_source_key (Some m) =
  first_applicable [doi_key m; url_key m; legal_key m; title_key m; case_key m].
Proof.
  unfold generate_source_key, doi_key, url_key, legal_key, title_key, case_key.
  simpl.
  destruct (Py.truthy (doi m) && _); [reflexivity|].
  destruct (Py.truthy (url m)); [reflexivity|].
  destruct (Py.truthy (case_name m) && _); [reflexivity|].
  destruct (Py.truthy (title m)).
  - destruct (authors m); simpl; [now rewrite app_nil_r | reflexivity].
  - destruct (Py.truthy (case_name m)); reflexivity.
Qed.

Lemma source_key_truthy (m : option CitationMetadata) (k : string) :
  generate_source_key m = Some k -> Py.truthy (Some k) = true.
Proof.
  destruct m as [m|]; [|discriminate].
  unfold generate_source_key.
  repeat case_match; intros [= <-]; reflexivity.
Qed.

Lemma source_key_none (m : CitationMetadata) :
  generate_source_key (Some m) = None <-> no_identity m.
Proof.
  unfold generate_source_key, no_identity.
  destruct (Py.truthy (doi m)), (normalize_doi (Py.str_of (doi m))),
    (Py.truthy (url m)), (Py.truthy (case_name m)), (Py.truthy (citation m)),
    (Py.truthy (title m)); simpl; try destruct (authors m);
    split; intros; try discriminate; intuition congruence.
Qed.

Lemma sources_match_iff (m1 m2 : option CitationMetadata) :
  sources_match m1 m2 = true <->
  exists k, generate_source_key m1 = Some k /\ generate_source_key m2 = Some k.
Proof.
  unfold sources_match.
  destruct (generate_source_key m1) as [k1|], (generate_source_key m2) as [k2|];
    try (split; [discriminate | intros (k & ? & ?); discriminate]).
  rewrite String.eqb_eq. split.
  - intros ->. eauto.
  - intros (k & [= ->] & [= ->]). reflexivity.
Qed.


End SourceKeyFacts.



(** ** The citation history *)

Section HistoryFacts.
Context `{Models}.

Lemma add_counter h m f : note_counter (add h m f) = S (note_counter h).
Proof. unfold add; simpl. lia. Qed.

Lemma add_previous h m f : previous (add h m f) = Some (entry_of m f (note_counter h)).
Proof. unfold add, entry_of; simpl. repeat f_equal. lia. Qed.

Lemma add_all_sources h m f :
  all_sources (add h m f) =
  match generate_source_key m with
  | Some k =>
      if decide (is_Some (all_sources h !! k)) then all_sources h
      else <[k := entry_of m f (note_counter h)]> (all_sources h)
  | None => all_sources h
  end.
Proof.
  unfold add, entry_of; simpl.
  destruct (generate_source_key m) as [k|] eqn:Hk; [|reflexivity].
  rewrite (source_key_truthy _ _ Hk). simpl.
  replace (note_counter h + 1) with (S (note_counter h)) by lia.
  destruct (decide (is_Some (all_sources h !! k))) as [Hs|Hs].
  - rewrite bool_decide_eq_true_2 by exact Hs. reflexivity.
  - rewrite bool_decide_eq_false_2 by exact Hs. reflexivity.
Qed.

Lemma add_lookup h m f k :
  all_sources (add h m f) !! k =
  match all_sources h !! k with
  | Some e => Some e
  | None =>
      if decide (generate_source_key m = Some k)
      then Some (entry_of m f (note_counter h)) else None
  end.
Proof.
  rewrite add_all_sources.
  destruct (generate_source_key m) as [k'|] eqn:Hk.
  - destruct (decide (is_Some (all_sources h !! k'))) as [Hs|Hs].
    + destruct (all_sources h !! k) eqn:E; [reflexivity|].
      destruct (decide (Some k' = Some k)) as [[= ->]|]; [|reflexivity].
      rewrite E in Hs. destruct Hs; discriminate.
    + destruct (decide (k' = k)) as [->|Hne].
      * rewrite lookup_insert_eq.
        apply eq_None_not_Some in Hs. rewrite Hs.
        rewrite decide_True by reflexivity. reflexivity.
      * rewrite lookup_insert_ne by exact Hne.
        destruct (all_sources h !! k); [reflexivity|].
        rewrite decide_False by congruence. reflexivity.
  - destruct (all_sources h !! k); [reflexivity|].
    rewrite decide_False by discriminate. reflexivity.
Qed.

Lemma add_all_counter calls h :
  note_counter (add_all calls h) = note_counter h + length calls.
Proof.
  revert h. induction calls as [|[m f] calls IH]; intros h; simpl.
  - lia.
  - unfold add_all in *. simpl. rewrite IH, add_counter. lia.
Qed.

Lemma add_all_lookup calls h k :
  all_sources (add_all calls h) !! k =
  match all_sources h !! k with
  | Some e => Some e
  | None => first_added k calls (note_counter h)
  end.
Proof.
  revert h. induction calls as [|[m f] calls IH]; intros h.
  - simpl. destruct (all_sources h !! k); reflexivity.
  - unfold add_all in *. simpl. rewrite IH, add_lookup, add_counter.
    destruct (all_sources h !! k); [reflexivity|].
    destruct (decide (generate_source_key m = Some k)); reflexivity.
Qed.

Lemma add_all_previous calls h :
  previous (add_all calls h) =
  match last calls with
  | Some (m, f) => Some (entry_of m f (note_counter h + length calls - 1))
  | None => previous h
  end.
Proof.
  revert h. induction calls as [|[m f] calls IH]; intros h; [reflexivity|].
  change (add_all ((m, f) :: calls) h) with (add_all calls (add h m f)).
  rewrite IH, add_counter.
  destruct calls as [|c calls].
  - change (last [(m, f)]) with (Some (m, f)).
    change (last []) with (@None (option CitationMetadata * string)).
    cbv iota beta. rewrite add_previous. simpl length. do 2 f_equal. lia.
  - change (last ((m, f) :: c :: calls)) with (last (c :: calls)).
    destruct (last (c :: calls)) as [[m' f']|] eqn:E.
    + simpl length. do 2 f_equal. lia.
    + apply last_None in E. discriminate.
Qed.

(** C2: a call of [add] raises the counter by one, makes the new entry the
    previous one and stores it under its key exactly when that key is not
    null and not yet present; so after any sequence of calls on a fresh
    history the counter is the number of calls, the previous entry is the
    last one added and each key holds the first entry added with it. *)
Theorem history_add_keeps_first_occurrence
    (calls : list (option CitationMetadata * string))
    (h : CitationHistory) (m : option CitationMetadata) (f : string) (k : string) :
  (note_counter (add h m f) = S (note_counter h)
   /\ previous (add h m f) = Some (entry_of m f (note_counter h))
   /\ all_sources (add h m f) =
      match generate_source_key m with
      | Some k =>
          if decide (is_Some (all_sources h !! k)) then all_sources h
          else <[k := entry_of m f (note_counter h)]> (all_sources h)
      | None => all_sources h
      end)
  /\ note_counter (add_all calls new_history) = length calls
  /\ previous (add_all calls new_history) =
     match last calls with
     | Some (m, f) => Some (entry_of m f (length calls - 1))
     | None => None
     end
  /\ all_sources (add_all calls new_history) !! k = first_added k calls 0.
Proof.
  split; [split; [apply add_counter | split; [apply add_previous | apply add_all_sources]]|].
  split; [rewrite add_all_counter; reflexivity|].
  split; [rewrite add_all_previous; reflexivity|].
  rewrite add_all_lookup. simpl. rewrite lookup_empty. reflexivity.
Qed.

End HistoryFacts.

(** ** The citation-form engine *)

Section EngineFacts.
Context `{Models} `{Router} `{Formatter}.

(** C3: an explicit ibid (S0) and a URL ibid (S2) leave the history as it
    is; a same-as-previous note (S3), a short form (S4) and a full citation
    (S5) make one call of [add], with the note's metadata and the text
    written to the document. *)
Theorem phase2_history_frame (style : string) (h : CitationHistory) (data : Fetched) :
  let '(h', r, w) := phase2_step style h data in
  match classify h data with
  | S0 | S2 => h' = h
  | S1 => h' = h /\ w = []
  | S3 => exists m, f_metadata data = Some m /\ w = [write_note (f_note_type data) (f_note_id data) (formatted r)] /\
          formatted r = format_ibid None /\ h' = add h (Some m) (formatted r)
  | S4 => exists m, f_metadata data = Some m /\ w = [write_note (f_note_type data) (f_note_id data) (formatted r)] /\
          formatted r = format_short style m /\ h' = add h (Some m) (formatted r)
  | S5 => exists m, f_metadata data = Some m /\ w = [write_note (f_note_type data) (f_note_id data) (formatted r)] /\
          Some (formatted r) = f_formatted data /\ h' = add h (Some m) (formatted r)
  end.
Proof.
  unfold phase2_step, classify, resolved.
  destruct (f_is_explicit_ibid data).
  - destruct (get_previous_metadata h); reflexivity.
  - destruct (f_metadata data) as [m|]; [|simpl; auto].
    destruct (f_formatted data) as [[|c0 f0]|]; simpl; auto.
    assert (Hu : Py.truthy (f_current_url data) && Py.truthy (get_previous_url h)
                 && urls_match (f_current_url data) (get_previous_url h)
                 = urls_match (f_current_url data) (get_previous_url h)).
    { unfold urls_match.
      destruct (Py.truthy (f_current_url data)), (Py.truthy (get_previous_url h)); reflexivity. }
    rewrite Hu.
    destruct (urls_match _ _); [reflexivity|].
    destruct (is_same_as_previous h (Some m)); [eauto 10|].
    destruct (has_been_cited_before h (Some m)); eauto 10.
Qed.

(** C4: an explicit ibid met while the history has no previous entry keeps
    its raw text, is logged as a failure with the ibid error, writes
    nothing to the document, leaves the history as it is, and the loop goes
    on with the next note. *)
Theorem ibid_without_precedent (style : string) (note : Note) (nt : note_type)
    (h : CitationHistory) (rest : list Fetched) :
  is_ibid (note_text note) = true ->
  previous h = None ->
  let data := fetch_metadata_for_note style note nt in
  let r := {| original := note_text note; formatted := note_text note;
              pc_metadata := None; pc_url := None; success := false;
              error := Some "ibid reference but no previous citation found";
              citation_form := "ibid" |} in
  phase2_step style h data = (h, r, [])
  /\ phase2 style h (data :: rest) =
     (let '(h', rs, ws) := phase2 style h rest in (h', r :: rs, ws)).
Proof.
  intros Hi Hp data r.
  assert (E : phase2_step style h data = (h, r, [])).
  { unfold data, fetch_metadata_for_note. rewrite Hi.
    unfold phase2_step, get_previous_metadata. simpl. rewrite Hp. reflexivity. }
  split; [exact E|].
  simpl. rewrite E. destruct (phase2 style h rest) as [[h' rs] ws]. reflexivity.
Qed.

End EngineFacts.

Lemma ibid_without_precedent_witness :
  is_ibid "ibid." = true /\
  @phase2_step spec_models plain_formatter "Chicago Manual of Style" new_history
    (@fetch_metadata_for_note null_router "Chicago Manual of Style"
       {| note_id := "1"; note_text := "ibid." |} endnote)
  = (new_history,
     {| original := "ibid."; formatted := "ibid.";
        pc_metadata := None; pc_url := None; success := false;
        error := Some "ibid reference but no previous citation found";
        citation_form := "ibid" |}, []).
Proof.
  split; [reflexivity|].
  apply (@ibid_without_precedent spec_models null_router plain_formatter
           "Chicago Manual of Style" {| note_id := "1"; note_text := "ibid." |}
           endnote new_history []); reflexivity.
Defined.


(** ** Stripping and lower case *)

Section StripFacts.

Lemma lstrip_app f (u s : string) :
  Py.lstrip_with f s = s -> Py.lstrip_with f (u +:+ s) = Py.lstrip_with f u +:+ s.
Proof.
  intros Hs. induction u as [|c u IH]; [exact Hs|].
  rewrite app_cons. simpl. destruct (f c); [exact IH | reflexivity].
Qed.

Lemma lstrip_all f (w s : string) :
  str_all f w = true -> Py.lstrip_with f (w +:+ s) = Py.lstrip_with f s.
Proof.
  induction w as [|c w IH]; [reflexivity|].
  rewrite app_cons. simpl. destruct (f c); [exact IH | discriminate].
Qed.

Lemma rstrip_app f (a b : string) :
  Py.rstrip_with f (a +:+ b) =
  match Py.rstrip_with f b with
  | EmptyString => Py.rstrip_with f a
  | String c r => a +:+ String c r
  end.
Proof.
  induction a as [|c a IH].
  - rewrite app_nil_l. destruct (Py.rstrip_with f b); reflexivity.
  - rewrite app_cons. simpl. rewrite IH.
    destruct (Py.rstrip_with f b) as [|d r]; [reflexivity|].
    destruct a; reflexivity.
Qed.

Lemma rstrip_all f (w : string) : str_all f w = true -> Py.rstrip_with f w = EmptyString.
Proof.
  induction w as [|c w IH]; [reflexivity|]. simpl.
  destruct (f c); [|discriminate]. intros Hw. now rewrite IH.
Qed.

Lemma rstrip_none f (s : string) :
  str_all (fun c => negb (f c)) s = true -> Py.rstrip_with f s = s.
Proof.
  induction s as [|c s IH]; [reflexivity|]. simpl.
  destruct (f c) eqn:E; [discriminate|]. simpl. intros Hs. rewrite IH by exact Hs.
  destruct s; reflexivity.
Qed.

End StripFacts.

Section StripFacts2.

Lemma lstrip_app_gen f (a b : string) :
  Py.lstrip_with f (a +:+ b) =
  match Py.lstrip_with f a with
  | EmptyString => Py.lstrip_with f b
  | String c l => String c l +:+ b
  end.
Proof.
  induction a as [|c a IH]; [reflexivity|].
  rewrite app_cons. simpl. destruct (f c); [exact IH | reflexivity].
Qed.

Lemma lstrip_all_nil f (w : string) : str_all f w = true -> Py.lstrip_with f w = EmptyString.
Proof.
  induction w as [|c w IH]; [reflexivity|]. simpl.
  destruct (f c); [exact IH | discriminate].
Qed.

Lemma rstrip_length f (s : string) : String.length (Py.rstrip_with f s) <= String.length s.
Proof.
  induction s as [|c s IH]; [reflexivity|]. simpl.
  destruct (Py.rstrip_with f s); [destruct (f c); simpl; lia | simpl in *; lia].
Qed.

Lemma app_inv_head (a b c : string) : a +:+ b = a +:+ c -> b = c.
Proof.
  induction a as [|d a IH]; [now rewrite !app_nil_l|].
  rewrite !app_cons. intros [= E]. auto.
Qed.

Lemma lstrip_suffix f (s : string) : exists w, s = w +:+ Py.lstrip_with f s.
Proof.
  induction s as [|c s [w IH]]; [exists EmptyString; reflexivity|]. simpl.
  destruct (f c).
  - exists (String c w). rewrite app_cons. now rewrite <- IH.
  - exists EmptyString. reflexivity.
Qed.

(** a text without trailing characters of the class keeps none after
    characters are removed from its front *)
Lemma rstrip_lstrip_fixed f g (u : string) :
  Py.rstrip_with f u = u -> Py.rstrip_with f (Py.lstrip_with g u) = Py.lstrip_with g u.
Proof.
  intros Hu. destruct (lstrip_suffix g u) as [w Hw].
  set (l := Py.lstrip_with g u) in *.
  rewrite Hw, rstrip_app in Hu.
  destruct (Py.rstrip_with f l) as [|c r] eqn:El.
  - assert (Hlen := rstrip_length f w). rewrite Hu, length_app in Hlen.
    destruct l; [reflexivity | simpl in Hlen; lia].
  - apply app_inv_head in Hu. exact Hu.
Qed.

Lemma is_space_lower (c : ascii) : Py.is_space (Py.lower_char c) = Py.is_space c.
Proof. destruct c as [[] [] [] [] [] [] [] []]; reflexivity. Qed.

Lemma slash_lower (c : ascii) : Ascii.eqb "/" (Py.lower_char c) = Ascii.eqb "/" c.
Proof. destruct c as [[] [] [] [] [] [] [] []]; reflexivity. Qed.

Lemma question_lower (c : ascii) : Ascii.eqb "?" (Py.lower_char c) = Ascii.eqb "?" c.
Proof. destruct c as [[] [] [] [] [] [] [] []]; reflexivity. Qed.

Lemma lower_lstrip_with f (s : string) :
  (forall c, f (Py.lower_char c) = f c) ->
  Py.lower (Py.lstrip_with f s) = Py.lstrip_with f (Py.lower s).
Proof.
  intros Hf. induction s as [|c s IH]; [reflexivity|]. simpl.
  rewrite Hf. destruct (f c); [exact IH | reflexivity].
Qed.

Lemma lower_rstrip_with f (s : string) :
  (forall c, f (Py.lower_char c) = f c) ->
  Py.lower (Py.rstrip_with f s) = Py.rstrip_with f (Py.lower s).
Proof.
  intros Hf. induction s as [|c s IH]; [reflexivity|]. simpl.
  rewrite <- IH, Hf.
  destruct (Py.rstrip_with f s); simpl; [destruct (f c)|]; reflexivity.
Qed.

Lemma lower_strip (s : string) : Py.lower (Py.strip s) = Py.strip (Py.lower s).
Proof.
  unfold Py.strip.
  now rewrite lower_rstrip_with, lower_lstrip_with by apply is_space_lower.
Qed.

Lemma strip_spaces (w1 u w2 : string) :
  str_all Py.is_space w1 = true -> str_all Py.is_space w2 = true ->
  Py.strip (w1 +:+ u +:+ w2) = Py.strip u.
Proof.
  intros H1 H2. unfold Py.strip. rewrite lstrip_all by exact H1.
  rewrite lstrip_app_gen.
  destruct (Py.lstrip_with Py.is_space u) as [|c l].
  - rewrite lstrip_all_nil by exact H2. reflexivity.
  - rewrite rstrip_app, rstrip_all by exact H2. reflexivity.
Qed.

End StripFacts2.

(** ** Integer literals and parts of a text *)

Section NumeralFacts.

Lemma int_digits_more s c : forall acc b v,
  Py.is_digit c = true ->
  Py.int_digits s acc b = Some v ->
  Py.int_digits (s +:+ String c EmptyString) acc b = Some (10 * v + digit_value c)%Z
  /\ Py.int_digits (s +:+ String "_" (String c EmptyString)) acc b
     = Some (10 * v + digit_value c)%Z.
Proof.
  intros acc b v Hc. revert acc b v.
  assert (Hu : Py.is_digit "_" = false) by reflexivity.
  induction s as [|d s IH]; intros acc b v.
  - cbn [Py.int_digits]. destruct b; [|discriminate]. intros [= <-].
    rewrite !app_nil_l. cbn [Py.int_digits]. rewrite Hc, Hu.
    change (Ascii.eqb "_" "_") with true. cbn [andb]. cbv iota.
    split; reflexivity.
  - rewrite !app_cons. cbn [Py.int_digits]. destruct (Py.is_digit d).
    + apply IH.
    + destruct (Ascii.eqb d "_" && b); [|discriminate].
      destruct s as [|e s]; [discriminate|]. rewrite !app_cons.
      rewrite <- !app_cons. apply IH.
Qed.

Lemma numeral_int_digits body n : numeral body n -> Py.int_digits body 0%Z false = Some n.
Proof.
  induction 1 as [c Hc | s n c _ IH Hc | s n c _ IH Hc].
  - cbn [Py.int_digits]. rewrite Hc. reflexivity.
  - now apply int_digits_more.
  - now apply int_digits_more.
Qed.

Lemma int_digits_numeral s : forall acc b v p,
  Py.int_digits s acc b = Some v ->
  (b = true -> numeral p acc) ->
  (b = false -> (p = EmptyString /\ acc = 0%Z) \/
                exists q, p = q +:+ "_" /\ numeral q acc) ->
  numeral (p +:+ s) v.
Proof.
  induction s as [|d s IH]; intros acc b v p.
  - cbn [Py.int_digits]. destruct b; [|discriminate]. intros [= <-] Hp _.
    rewrite app_nil_r. now apply Hp.
  - cbn [Py.int_digits]. destruct (Py.is_digit d) eqn:Hd.
    + intros E Ht Hf.
      replace (p +:+ String d s) with ((p +:+ String d EmptyString) +:+ s)
        by (rewrite app_assoc; reflexivity).
      apply (IH _ _ _ _ E); [|discriminate]. intros _.
      destruct b.
      * apply numeral_next; auto.
      * destruct (Hf eq_refl) as [[-> ->] | (q & -> & Hq)].
        -- rewrite app_nil_l. change (10 * 0 + Z.of_nat (nat_of_ascii d - 48))%Z
             with (digit_value d). now apply numeral_digit.
        -- rewrite app_assoc. now apply numeral_group.
    + destruct (Ascii.eqb d "_") eqn:Eu; [|discriminate].
      destruct b; [|discriminate]. cbn [andb].
      destruct s as [|e s]; [discriminate|].
      apply Ascii.eqb_eq in Eu. subst d. intros E Ht _.
      replace (p +:+ String "_" (String e s)) with ((p +:+ "_") +:+ String e s)
        by (rewrite app_assoc; reflexivity).
      apply (IH _ _ _ _ E); [discriminate|]. intros _. right. exists p. auto.
Qed.

Lemma int_digits_iff body n : Py.int_digits body 0%Z false = Some n <-> numeral body n.
Proof.
  split; [|apply numeral_int_digits].
  intros E. rewrite <- (app_nil_l body).
  apply (int_digits_numeral _ _ _ _ _ E); [discriminate|]. auto.
Qed.

End NumeralFacts.

Section ReadsAsFacts.

Lemma lstrip_split f (s : string) :
  exists w, s = w +:+ Py.lstrip_with f s /\ str_all f w = true.
Proof.
  induction s as [|c s (w & IH & Hw)]; [exists EmptyString; split; reflexivity|].
  cbn [Py.lstrip_with]. destruct (f c) eqn:E.
  - exists (String c w). rewrite app_cons, <- IH. cbn [str_all]. rewrite E, Hw. auto.
  - exists EmptyString. split; reflexivity.
Qed.

Lemma rstrip_split f (s : string) :
  exists w, s = Py.rstrip_with f s +:+ w /\ str_all f w = true.
Proof.
  induction s as [|c s (w & IH & Hw)]; [exists EmptyString; split; reflexivity|].
  cbn [Py.rstrip_with]. destruct (Py.rstrip_with f s) as [|d r] eqn:Er.
  - rewrite app_nil_l in IH. subst w. destruct (f c) eqn:E.
    + exists (String c s). rewrite app_nil_l. cbn [str_all]. rewrite E, Hw. auto.
    + exists s. split; [reflexivity | exact Hw].
  - exists w. rewrite app_cons, <- IH. auto.
Qed.

(** the text [int] reads, once the white space around it is removed *)
Lemma int_unfold (s : string) :
  Py.int s =
  match Py.rstrip_with Py.is_int_space (Py.lstrip_with Py.is_int_space s) with
  | EmptyString => None
  | String c t =>
      if Ascii.eqb c "-" then option_map Z.opp (Py.int_digits t 0%Z false)
      else if Ascii.eqb c "+" then Py.int_digits t 0%Z false
      else Py.int_digits (String c t) 0%Z false
  end.
Proof.
  unfold Py.int.
  destruct (Py.rstrip_with Py.is_int_space (Py.lstrip_with Py.is_int_space s)) as [|c t];
    [reflexivity|].
  destruct c as [[] [] [] [] [] [] [] []]; reflexivity.
Qed.

Lemma digit_not_sign c :
  Py.is_digit c = true -> Ascii.eqb c "-" = false /\ Ascii.eqb c "+" = false.
Proof. destruct c as [[] [] [] [] [] [] [] []]; vm_compute; intuition congruence. Qed.

Lemma digit_not_int_space c : Py.is_digit c = true -> Py.is_int_space c = false.
Proof. destruct c as [[] [] [] [] [] [] [] []]; vm_compute; congruence. Qed.

Lemma numeral_first body n :
  numeral body n -> exists c rest, body = String c rest /\ Py.is_digit c = true.
Proof.
  induction 1 as [c Hc | s n c _ (d & rest & -> & Hd) Hc | s n c _ (d & rest & -> & Hd) Hc].
  - eauto.
  - rewrite app_cons. eauto.
  - rewrite app_cons. eauto.
Qed.

Lemma numeral_rstrip body n :
  numeral body n -> forall pre, Py.rstrip_with Py.is_int_space (pre +:+ body) = pre +:+ body.
Proof.
  assert (Hlast : forall pre c, Py.is_digit c = true ->
            Py.rstrip_with Py.is_int_space (pre +:+ String c EmptyString)
            = pre +:+ String c EmptyString).
  { intros pre c Hc. rewrite rstrip_app. cbn [Py.rstrip_with].
    now rewrite (digit_not_int_space _ Hc). }
  destruct 1 as [c Hc | s n c _ Hc | s n c _ Hc]; intros pre.
  - now apply Hlast.
  - rewrite <- app_assoc. now apply Hlast.
  - replace (pre +:+ s +:+ String "_" (String c EmptyString))
      with ((pre +:+ s +:+ "_") +:+ String c EmptyString)
      by (rewrite !app_assoc; reflexivity).
    now apply Hlast.
Qed.

Lemma int_core (l t r : string) (c : ascii) (t' : string) :
  str_all Py.is_int_space l = true -> str_all Py.is_int_space r = true ->
  t = String c t' -> Py.is_int_space c = false ->
  Py.rstrip_with Py.is_int_space t = t ->
  Py.rstrip_with Py.is_int_space (Py.lstrip_with Py.is_int_space (l +:+ t +:+ r)) = t.
Proof.
  intros Hl Hr -> Hc Ht. rewrite lstrip_all by exact Hl.
  rewrite app_cons. cbn [Py.lstrip_with]. rewrite Hc. rewrite <- app_cons.
  rewrite rstrip_app, (rstrip_all _ r Hr). exact Ht.
Qed.

Lemma int_reads_as (s : string) (z : Z) : Py.int s = Some z <-> reads_as s z.
Proof.
  rewrite int_unfold. split.
  - destruct (lstrip_split Py.is_int_space s) as (l & Hs & Hl).
    destruct (rstrip_split Py.is_int_space (Py.lstrip_with Py.is_int_space s)) as (r & Hs' & Hr).
    set (t := Py.rstrip_with Py.is_int_space (Py.lstrip_with Py.is_int_space s)) in *.
    rewrite Hs' in Hs. clear Hs'. destruct t as [|c t]; [discriminate|].
    destruct (Ascii.eqb c "-") eqn:Em; [|destruct (Ascii.eqb c "+") eqn:Ep].
    + apply Ascii.eqb_eq in Em. subst c.
      destruct (Py.int_digits t 0%Z false) as [n|] eqn:E; [|discriminate].
      intros [= <-]. apply int_digits_iff in E.
      exists l, "-", t, r, n. repeat split; auto.
    + apply Ascii.eqb_eq in Ep. subst c. intros E. apply int_digits_iff in E.
      exists l, "+", t, r, z. repeat split; auto.
    + intros E. apply int_digits_iff in E.
      exists l, EmptyString, (String c t), r, z. repeat split; auto.
  - intros (l & sign & body & r & n & -> & Hl & Hr & Hn & Hs).
    destruct (numeral_first _ _ Hn) as (d & rest & Eb & Hd).
    destruct (digit_not_sign _ Hd) as [Hm Hp].
    pose proof (numeral_int_digits _ _ Hn) as Ed.
    destruct Hs as [[[-> | ->] ->] | [-> ->]].
    + rewrite app_nil_l.
      rewrite (int_core l body r d rest Hl Hr Eb (digit_not_int_space _ Hd)).
      * rewrite Eb, Hm, Hp, <- Eb. exact Ed.
      * rewrite <- (app_nil_l body). now apply (numeral_rstrip _ _ Hn).
    + rewrite <- (app_assoc "+" body r).
      rewrite (int_core l ("+" +:+ body) r "+" body Hl Hr eq_refl eq_refl).
      * change ("+" +:+ body) with (String "+" body). cbv iota.
        change (Ascii.eqb "+" "-") with false. change (Ascii.eqb "+" "+") with true.
        cbv iota. exact Ed.
      * now apply (numeral_rstrip _ _ Hn).
    + rewrite <- (app_assoc "-" body r).
      rewrite (int_core l ("-" +:+ body) r "-" body Hl Hr eq_refl eq_refl).
      * change ("-" +:+ body) with (String "-" body). cbv iota.
        change (Ascii.eqb "-" "-") with true. cbv iota. now rewrite Ed.
      * now apply (numeral_rstrip _ _ Hn).
Qed.

Lemma contains_part_of (needle hay : string) :
  Py.contains needle hay = true <-> part_of needle hay.
Proof.
  assert (Hstart : forall p s, Py.startswith p s = true <-> exists post, s = p +:+ post).
  { intros p. induction p as [|a p IH]; intros s.
    - split; [intros _; exists s; reflexivity | reflexivity].
    - destruct s as [|b s]; cbn [Py.startswith].
      + split; [discriminate | intros (post & E); discriminate].
      + rewrite andb_true_iff, Ascii.eqb_eq, IH. split.
        * intros (-> & post & ->). exists post. reflexivity.
        * intros (post & E). rewrite app_cons in E. injection E as -> ->. eauto. }
  assert (Hunfold : forall h, Py.contains needle h =
            Py.startswith needle h ||
            match h with EmptyString => false | String _ h' => Py.contains needle h' end)
    by (intros [|c h]; reflexivity).
  split.
  - induction hay as [|c hay IH]; rewrite Hunfold, orb_true_iff.
    + intros [E | E]; [|discriminate]. apply Hstart in E as (post & E).
      exists EmptyString, post. exact E.
    + intros [E | E].
      * apply Hstart in E as (post & E). exists EmptyString, post. exact E.
      * destruct (IH E) as (pre & post & ->). exists (String c pre), post. reflexivity.
  - intros (pre & post & ->). induction pre as [|c pre IH]; rewrite Hunfold.
    + rewrite app_nil_l. rewrite (proj2 (Hstart needle (needle +:+ post))) by eauto.
      reflexivity.
    + rewrite app_cons, IH. apply orb_true_r.
Qed.

End ReadsAsFacts.

(** ** The author-date resolver *)

Section ResolverFacts.
Import AuthorDate.
#[local] Set Warnings "-inexact-float".
Local Open Scope float_scope.

(** Order facts on binary64 numbers, from the specification of the
    primitive comparisons. *)
Ltac cmp_cases :=
  repeat match goal with
  | H : context [(?a ?= ?b)%Z] |- _ => destruct (Z.compare_spec a b)
  | |- context [(?a ?= ?b)%Z] => destruct (Z.compare_spec a b)
  | H : context [Pos.compare_cont Eq ?a ?b] |- _ =>
      change (Pos.compare_cont Eq a b) with (Pos.compare a b) in *;
      destruct (Pos.compare_spec a b)
  | |- context [Pos.compare_cont Eq ?a ?b] =>
      change (Pos.compare_cont Eq a b) with (Pos.compare a b) in *;
      destruct (Pos.compare_spec a b)
  end; simpl in *; try congruence; try lia.

Lemma SFleb_total (x y : spec_float) :
  SFleb x x = true -> SFleb y y = true -> SFltb x y = false -> SFleb y x = true.
Proof.
  unfold SFleb, SFltb.
  destruct x as [sx|sx| |sx mx ex], y as [sy|sy| |sy my ey]; simpl;
    try destruct sx; try destruct sy; simpl; try congruence; intros; cmp_cases.
Qed.

Lemma SFleb_trans (x y z : spec_float) :
  SFleb x y = true -> SFleb y z = true -> SFleb x z = true.
Proof.
  unfold SFleb.
  destruct x as [sx|sx| |sx mx ex], y as [sy|sy| |sy my ey], z as [sz|sz| |sz mz ez]; simpl;
    try destruct sx; try destruct sy; try destruct sz; simpl; try congruence; intros; cmp_cases.
Qed.

Lemma SFltb_leb (x y : spec_float) : SFltb x y = true -> SFleb x y = true.
Proof. unfold SFltb, SFleb. destruct (SFcompare x y) as [[]|]; congruence. Qed.

Lemma SFleb_number (x y : spec_float) :
  SFleb x y = true -> SFleb x x = true /\ SFleb y y = true.
Proof.
  unfold SFleb.
  destruct x as [sx|sx| |sx mx ex], y as [sy|sy| |sy my ey]; simpl;
    try destruct sx; try destruct sy; simpl; try congruence; intros; split; cmp_cases.
Qed.

Lemma leb_total (x y : float) :
  is_number x = true -> is_number y = true -> (x <? y) = false -> (y <=? x) = true.
Proof. unfold is_number. rewrite !leb_spec, ltb_spec. apply SFleb_total. Qed.

Lemma leb_trans (x y z : float) :
  (x <=? y) = true -> (y <=? z) = true -> (x <=? z) = true.
Proof. rewrite !leb_spec. apply SFleb_trans. Qed.

Lemma ltb_leb (x y : float) : (x <? y) = true -> (x <=? y) = true.
Proof. rewrite leb_spec, ltb_spec. apply SFltb_leb. Qed.

Lemma leb_number (x y : float) :
  (x <=? y) = true -> is_number x = true /\ is_number y = true.
Proof. unfold is_number. rewrite !leb_spec. apply SFleb_number. Qed.

Lemma bonus_on_first_match_exists needle l c b :
  bonus_on_first_match needle l c b =
  if existsb (Py.contains needle) l then (c + b)%float else c.
Proof.
  induction l as [|a l IH]; simpl; [reflexivity|].
  destruct (Py.contains needle a); [reflexivity | exact IH].
Qed.

Lemma existsb_map {A B} (f : B -> bool) (h : A -> B) l :
  existsb f (map h l) = existsb (fun a => f (h a)) l.
Proof. induction l as [|a l IH]; simpl; [reflexivity | now rewrite IH]. Qed.

Lemma calculate_confidence_eq (m : CitationMetadata) (author year_ : string)
    (second_author : option string) :
  _calculate_confidence m author year_ second_author =
  confidence_formula m author year_ second_author.
Proof.
  unfold _calculate_confidence, confidence_formula, year_score, author_score,
    second_author_score, doi_score, completeness, author_matches, parse_year.
  rewrite !bonus_on_first_match_exists, !existsb_map.
  assert (Hy : (if Py.truthy (year m)
                then match Py.int (Py.str_of (year m)), Py.int year_ with
                     | Some a, Some b => if (Z.abs (a - b) <=? 1)%Z then (0.0 + 0.2)%float else 0.0%float
                     | _, _ => 0.0%float
                     end
                else 0.0%float) =
               match match year m with Some s => Py.int s | None => None end, Py.int year_ with
               | Some a, Some b => if (Z.abs (a - b) <=? 1)%Z then (0.0 + 0.2)%float else 0.0%float
               | _, _ => 0.0%float
               end).
  { destruct (year m) as [[|c y]|]; simpl Py.truthy; cbv iota; try reflexivity. }
  rewrite Hy. clear Hy.
  destruct (opt_eqb (year m) year_);
  destruct (match year m with Some s => Py.int s | None => None end) as [a|];
  destruct (Py.int year_) as [b|];
  try destruct (Z.abs (a - b) <=? 1)%Z;
  destruct (authors m) as [|a0 l];
  try destruct (existsb (fun a => Py.contains (Py.lower author) (Py.lower a)) (a0 :: l));
  destruct (Py.truthy second_author);
  try destruct (existsb (fun a => Py.contains (Py.lower (Py.str_of second_author)) (Py.lower a)) (a0 :: l));
  destruct (Py.truthy (doi m));
  destruct (Py.truthy (title m));
  destruct (Py.truthy (journal m) || Py.truthy (publisher m));
  destruct (Py.truthy (volume m) || Py.truthy (pages m));
  vm_compute; reflexivity.
Qed.

Lemma confidence_formula_bounds (m : CitationMetadata) (author year_ : string)
    (second_author : option string) :
  (0 <=? confidence_formula m author year_ second_author) = true /\
  (confidence_formula m author year_ second_author <=? 1) = true.
Proof.
  unfold confidence_formula, year_score, author_score, second_author_score,
    doi_score, completeness.
  destruct (opt_eqb (year m) year_);
  destruct (parse_year (year m)) as [a|];
  destruct (Py.int year_) as [b|];
  try destruct (Z.abs (a - b) <=? 1)%Z;
  destruct (author_matches author m);
  destruct (Py.truthy second_author && author_matches (Py.str_of second_author) m);
  destruct (Py.truthy (doi m));
  destruct (Py.truthy (title m));
  destruct (Py.truthy (journal m) || Py.truthy (publisher m));
  destruct (Py.truthy (volume m) || Py.truthy (pages m));
  vm_compute; split; reflexivity.
Qed.

Lemma opt_eqb_eq (o : option string) (s : string) : opt_eqb o s = true <-> o = Some s.
Proof.
  destruct o as [t|]; cbn [opt_eqb]; [|split; discriminate].
  rewrite String.eqb_eq. split; [now intros -> | now intros [= ->]].
Qed.

Lemma years_close_iff (m : CitationMetadata) (year_ : string) :
  years_close (year m) year_ <->
  exists a b, parse_year (year m) = Some a /\ Py.int year_ = Some b /\ (Z.abs (a - b) <= 1)%Z.
Proof.
  unfold years_close, parse_year. split.
  - intros (t & a & b & -> & Ha & Hb & Hab). exists a, b.
    now rewrite !int_reads_as.
  - intros (a & b & Ha & Hb & Hab). destruct (year m) as [t|]; [|discriminate].
    exists t, a, b. now rewrite <- !int_reads_as.
Qed.

Lemma year_score_term (m : CitationMetadata) (year_ : string) :
  year_term m year_ (year_score m year_).
Proof.
  unfold year_term, year_score.
  destruct (opt_eqb (year m) year_) eqn:E.
  - left. apply opt_eqb_eq in E. auto.
  - right. assert (Hne : year m <> Some year_).
    { intros Hy. apply opt_eqb_eq in Hy. congruence. }
    rewrite years_close_iff.
    destruct (parse_year (year m)) as [a|] eqn:Ea;
      [destruct (Py.int year_) as [b|] eqn:Eb;
       [destruct (Z.leb_spec (Z.abs (a - b)) 1)|]|].
    + left. eauto 10.
    + right. split; [exact Hne|]. split; [|reflexivity].
      intros (a' & b' & [= <-] & [= <-] & Hab). lia.
    + right. split; [exact Hne|]. split; [|reflexivity].
      intros (a' & b' & _ & Hb & _). discriminate.
    + right. split; [exact Hne|]. split; [|reflexivity].
      intros (a' & b' & Ha & _). discriminate.
Qed.

Lemma author_matches_iff (needle : string) (m : CitationMetadata) :
  author_matches needle m = true <-> names_author needle m.
Proof.
  unfold author_matches, names_author. rewrite existsb_exists.
  split; intros (a & Ha & Hc); exists a; (split; [exact Ha|]); now apply contains_part_of.
Qed.

Lemma author_score_term (m : CitationMetadata) (author : string) :
  author_term m author (author_score m author).
Proof.
  unfold author_term, author_score. rewrite <- author_matches_iff.
  destruct (author_matches author m); [left | right]; split; auto.
Qed.

Lemma second_author_score_term (m : CitationMetadata) (second_author : option string) :
  second_author_term m second_author (second_author_score m second_author).
Proof.
  unfold second_author_term, second_author_score.
  destruct (Py.truthy second_author && author_matches (Py.str_of second_author) m) eqn:E.
  - left. apply andb_prop in E as [Ht Ha]. destruct second_author as [[|c s]|]; try discriminate.
    exists (String c s). split; [reflexivity|]. split; [discriminate|].
    split; [now apply author_matches_iff | reflexivity].
  - right. split; [|reflexivity]. intros (s & -> & Hs & Hn).
    apply author_matches_iff in Hn. destruct s as [|c s]; [congruence|].
    change (Py.str_of (Some (String c s))) with (String c s) in E.
    change (Py.truthy (Some (String c s))) with true in E. cbn [andb] in E. congruence.
Qed.


Lemma insert_sorted_In x p l : In x (insert_sorted p l) <-> x = p \/ In x l.
Proof.
  induction l as [|e l IH]; simpl; [intuition|].
  destruct (lt p e); simpl; [intuition|]. rewrite IH. intuition.
Qed.

Lemma sort_ascending_In_acc x l acc :
  In x (fold_left (fun sorted pivot => insert_sorted pivot sorted) l acc) <-> In x l \/ In x acc.
Proof.
  revert acc. induction l as [|p l IH]; intros acc; simpl; [intuition|].
  rewrite IH, insert_sorted_In. intuition.
Qed.

Lemma sort_ascending_In x l : In x (sort_ascending l) <-> In x l.
Proof. unfold sort_ascending. rewrite sort_ascending_In_acc. simpl. intuition. Qed.

Lemma sort_reverse_In x l : In x (sort_reverse l) <-> In x l.
Proof. unfold sort_reverse. now rewrite <- in_rev, sort_ascending_In, <- in_rev. Qed.

Lemma insert_sorted_sorted p l :
  is_number (confidence p) = true -> all_numbers l ->
  StronglySorted conf_le l -> StronglySorted conf_le (insert_sorted p l).
Proof.
  intros Hp Hl Hs. induction Hs as [|e l Hs IH He]; simpl.
  - constructor; [constructor | constructor].
  - unfold lt. destruct (confidence p <? confidence e) eqn:E.
    + constructor; [constructor; assumption|].
      constructor; [apply ltb_leb; exact E|].
      rewrite List.Forall_forall in *. intros x Hx.
      unfold conf_le. eapply leb_trans; [apply ltb_leb; exact E | apply He; exact Hx].
    + constructor.
      * apply IH. intros r Hr. apply Hl. now right.
      * rewrite List.Forall_forall in *. intros x Hx.
        apply insert_sorted_In in Hx as [-> | Hx]; [|now apply He].
        apply leb_total; auto. apply Hl. now left.
Qed.

Lemma sort_ascending_sorted_acc l acc :
  all_numbers l -> all_numbers acc -> StronglySorted conf_le acc ->
  StronglySorted conf_le (fold_left (fun sorted pivot => insert_sorted pivot sorted) l acc).
Proof.
  revert acc. induction l as [|p l IH]; intros acc Hl Ha Hs; simpl; [exact Hs|].
  apply IH.
  - intros r Hr. apply Hl. now right.
  - intros r Hr. apply insert_sorted_In in Hr as [-> | Hr]; [apply Hl; now left | now apply Ha].
  - apply insert_sorted_sorted; auto. apply Hl. now left.
Qed.

Lemma head_rev_max (s : list SearchResult) (b : SearchResult) :
  StronglySorted conf_le s -> all_numbers s ->
  List.hd_error (rev s) = Some b -> In b s /\ forall x, In x s -> conf_le x b.
Proof.
  intros Hs. revert b. induction Hs as [|a s Hs IH Ha]; intros b Hn; simpl; [discriminate|].
  destruct (rev s) as [|b0 t] eqn:E; simpl.
  - intros [= <-]. assert (s = []) as ->.
    { apply (f_equal (@rev _)) in E. rewrite rev_involutive in E. exact E. }
    split; [now left|]. intros x [<- | []]. apply Hn. now left.
  - intros [= <-].
    destruct (IH b0) as [Hin Hmax]; [intros r Hr; apply Hn; now right | reflexivity |].
    split; [now right|]. intros x [<- | Hx]; [|now apply Hmax].
    rewrite List.Forall_forall in Ha. now apply Ha.
Qed.

Lemma top_highest (l : list SearchResult) (b : SearchResult) :
  all_numbers l -> List.hd_error (sort_reverse l) = Some b -> highest l b.
Proof.
  intros Hn Hb. unfold sort_reverse in Hb.
  apply head_rev_max in Hb as [Hin Hmax].
  - split; [rewrite in_rev; now apply sort_ascending_In|].
    intros r Hr. apply Hmax. apply sort_ascending_In. now rewrite <- in_rev.
  - apply sort_ascending_sorted_acc.
    + intros r Hr. apply Hn. now rewrite in_rev.
    + intros r [].
    + constructor.
  - intros r Hr. apply Hn. rewrite in_rev. now apply sort_ascending_In.
Qed.

Lemma sort_reverse_nonempty (l : list SearchResult) :
  l <> [] -> sort_reverse l <> [].
Proof.
  intros Hl E. destruct l as [|a l]; [congruence|].
  assert (In a (sort_reverse (a :: l))) by (apply sort_reverse_In; now left).
  rewrite E in H. destruct H.
Qed.

Lemma py_min_number (a x : float) :
  is_number a = true -> is_number (py_min a x) = true.
Proof.
  intros Ha. unfold py_min. destruct (x <? a) eqn:E; [|exact Ha].
  apply ltb_leb, leb_number in E. tauto.
Qed.

Context `{Oracle}.

Lemma search_claude_numbers author year_ second context :
  all_numbers (_search_claude author year_ second context).
Proof.
  unfold _search_claude. intros r.
  destruct (guess_citation _) as [guess|]; [|intros []].
  destruct (_ <? 0.5); [intros []|].
  match goal with |- context [if ?c then _ else _] => destruct c end; [|intros []].
  intros [<- | []]. simpl. apply py_min_number. reflexivity.
Qed.


End ResolverFacts.

(** ** The link activator *)

Section LinkFacts.
Import Links.

Lemma str_of_nat_inj n m : Py.str_of_nat n = Py.str_of_nat m -> n = m.
Proof.
  unfold Py.str_of_nat. intros E.
  apply (f_equal DecimalString.NilEmpty.uint_of_string) in E.
  rewrite !DecimalString.NilEmpty.usu in E. injection E as E.
  apply (f_equal Nat.of_uint) in E. now rewrite !DecimalNat.Unsigned.of_to in E.
Qed.

Lemma rid_inj n m : rid n = rid m -> n = m.
Proof. unfold rid. intros E. injection E as E. now apply str_of_nat_inj. Qed.

Lemma empty_rels_ok : rels_ok empty_rels.
Proof.
  split; simpl; [intros u id E; rewrite lookup_empty in E; discriminate | intros; apply lookup_empty].
Qed.

Lemma add_hyperlink_ok (r : RelsManager) (u : string) :
  rels_ok r ->
  rels_ok (add_hyperlink r u).2 /\
  url_to_rid (add_hyperlink r u).2 !! u = Some (add_hyperlink r u).1 /\
  (forall v id, url_to_rid r !! v = Some id -> url_to_rid (add_hyperlink r u).2 !! v = Some id).
Proof.
  intros [Hu Hn]. unfold add_hyperlink, rels_ok.
  destruct (url_to_rid r !! u) as [id|] eqn:E;
    cbn [fst snd relationships url_to_rid next_id].
  - split; [split; assumption|]. split; [exact E | auto].
  - assert (Hfresh : relationships r !! rid (next_id r) = None) by (apply Hn; lia).
    split; [split|split].
    + intros v id. destruct (decide (v = u)) as [->|Hne].
      * rewrite lookup_insert_eq. intros [= <-].
        rewrite lookup_insert_eq. eexists. split; [reflexivity|reflexivity].
      * rewrite lookup_insert_ne by congruence. intros Hv.
        destruct (Hu _ _ Hv) as (rel & Hrel & Ht).
        exists rel. split; [|exact Ht].
        rewrite lookup_insert_ne; [exact Hrel|]. intros <-. congruence.
    + intros n Hle. rewrite lookup_insert_ne; [apply Hn; lia|].
      intros E'. apply rid_inj in E'. lia.
    + apply lookup_insert_eq.
    + intros v id Hv. rewrite lookup_insert_ne; [exact Hv|]. intros <-. congruence.
Qed.

Lemma relationship_id_ok (st : link_state) (u : string) :
  link_ok st ->
  link_ok (relationship_id st u).2 /\
  (relationship_id st u).2.2 !! u = Some (relationship_id st u).1 /\
  (forall v id, st.2 !! v = Some id -> (relationship_id st u).2.2 !! v = Some id).
Proof.
  intros [Hr Hc]. unfold relationship_id, link_ok.
  destruct (st.2 !! u) as [id|] eqn:E; cbn [fst snd].
  - split; [split; assumption|]. split; [exact E | auto].
  - destruct (add_hyperlink_ok st.1 u Hr) as (Hr' & Hu' & Hkeep).
    destruct (add_hyperlink st.1 u) as [id rels] eqn:Ea. cbn [fst snd] in *.
    split; [split; [exact Hr'|]|split].
    + intros v id'. destruct (decide (v = u)) as [->|Hne].
      * rewrite lookup_insert_eq. intros [= <-]. exact Hu'.
      * rewrite lookup_insert_ne by congruence. intros Hv. apply Hkeep, Hc, Hv.
    + apply lookup_insert_eq.
    + intros v id' Hv. rewrite lookup_insert_ne; [exact Hv|]. intros <-. congruence.
Qed.

(** C8 (as amended): a URL is a link target as it is written, trailing
    punctuation apart: two URLs get the same relationship id exactly when
    they are the same string, each has an entry that targets it, and
    https://Example.com/ and https://example.com are two targets. *)
Theorem link_targets_are_exact (st : link_state) (u1 u2 : string) :
  link_ok st ->
  let r1 := relationship_id st u1 in
  let r2 := relationship_id r1.2 u2 in
  (r1.1 = r2.1 <-> u1 = u2)
  /\ (exists rel, relationships r2.2.1 !! r1.1 = Some rel /\ target rel = u1)
  /\ (exists rel, relationships r2.2.1 !! r2.1 = Some rel /\ target rel = u2)
  /\ (u1 = clean "https://Example.com/" -> u2 = clean "https://example.com" ->
      r1.1 <> r2.1).
Proof.
  intros Hok r1 r2.
  destruct (relationship_id_ok st u1 Hok) as (Hok1 & Hc1 & _).
  destruct (relationship_id_ok r1.2 u2 Hok1) as (Hok2 & Hc2 & Hkeep).
  fold r1 in Hok1, Hc1. fold r2 in Hok2, Hc2, Hkeep.
  destruct Hok2 as [[Hu2 _] Hcache2].
  assert (H1 : exists rel, relationships r2.2.1 !! r1.1 = Some rel /\ target rel = u1)
    by (apply Hu2, Hcache2, Hkeep, Hc1).
  assert (H2 : exists rel, relationships r2.2.1 !! r2.1 = Some rel /\ target rel = u2)
    by (apply Hu2, Hcache2, Hc2).
  assert (Hiff : r1.1 = r2.1 <-> u1 = u2).
  { split.
    - intros E. destruct H1 as (rel1 & E1 & <-), H2 as (rel2 & E2 & <-).
      rewrite E in E1. congruence.
    - intros <-. apply Hkeep in Hc1. congruence. }
  split; [exact Hiff|]. split; [exact H1|]. split; [exact H2|].
  intros -> -> E. apply Hiff in E. discriminate E.
Qed.

Lemma link_targets_are_exact_witness :
  link_ok (empty_rels, ∅) /\
  ((relationship_id (empty_rels, ∅) "https://Example.com/").1 =
   (relationship_id (relationship_id (empty_rels, ∅) "https://Example.com/").2
      "https://example.com").1
   <-> "https://Example.com/" = "https://example.com").
Proof.
  assert (Hok : link_ok (empty_rels, ∅)).
  { split; [exact empty_rels_ok|]. simpl. intros u id E. rewrite lookup_empty in E. discriminate. }
  split; [exact Hok|].
  exact (proj1 (link_targets_are_exact (empty_rels, ∅) "https://Example.com/"
                  "https://example.com" Hok)).
Defined.

(** C8 (as stated) fails: a part whose text has both URLs gets two
    relationship entries, with two ids. *)
Lemma two_relationships_for_case_variants :
  let r := process_part [] [[Run (Some "See https://Example.com/ and https://example.com.")]] in
  r.2 = [[Run (Some "See "); Hyperlink "rId1" "https://Example.com/";
          Run (Some " and "); Hyperlink "rId2" "https://example.com";
          Run (Some ".")]]
  /\ map_to_list (relationships r.1) =
     [("rId1", {| rel_type := HYPERLINK_TYPE; target := "https://Example.com/"; mode := "External" |});
      ("rId2", {| rel_type := HYPERLINK_TYPE; target := "https://example.com"; mode := "External" |})].
Proof. vm_compute. split; reflexivity. Qed.

Section ActivatorFacts.
Context `{Package}.

(** C10: whenever extracting the archive, rewriting a part or repackaging
    raises, [process] returns the input buffer, rewound and with its bytes
    unchanged, instead of raising; so it either yields a repackaged
    document or gives the input back. *)
Theorem process_returns_input_on_failure (buf : BytesIO) :
  (forall e,
     (extractall (getvalue buf) = Raise e \/
      exists files, extractall (getvalue buf) = Ok files /\
        (process_targets files target_files = Raise e \/
         exists files', process_targets files target_files = Ok files' /\
                        repackage files' = Raise e)) ->
     process buf = Ok {| getvalue := getvalue buf; tell := 0 |})
  /\ (process buf = Ok {| getvalue := getvalue buf; tell := 0 |} \/
      exists files files' output,
        extractall (getvalue buf) = Ok files /\
        process_targets files target_files = Ok files' /\
        repackage files' = Ok output /\
        process buf = Ok {| getvalue := output; tell := 0 |}).
Proof.
  unfold process, process_body, try_except, seek.
  cbn [getvalue]. unfold mbind, result_bind. split.
  - intros e [E | (files & E & [E1 | (files' & E1 & E2)])];
      rewrite E; try rewrite E1; try rewrite E2; reflexivity.
  - destruct (extractall (getvalue buf)) as [files|e] eqn:E; [|now left].
    destruct (process_targets files target_files) as [files'|e] eqn:E1; [|now left].
    destruct (repackage files') as [output|e] eqn:E2; [|now left].
    right. eauto 10.
Qed.

End ActivatorFacts.

Lemma process_returns_input_on_failure_witness :
  @process broken_package {| getvalue := [Byte.x50; Byte.x4b]; tell := 2 |}
  = Ok {| getvalue := [Byte.x50; Byte.x4b]; tell := 0 |}.
Proof.
  apply (proj1 (@process_returns_input_on_failure broken_package
                  {| getvalue := [Byte.x50; Byte.x4b]; tell := 2 |})
           (Exception "File is not a zip file")).
  left. reflexivity.
Defined.

End LinkFacts.

(** ** Examples of the resolver *)

Section ResolverExamples.
Import AuthorDate.
#[local] Set Warnings "-inexact-float".
Local Open Scope float_scope.




End ResolverExamples.

(** * Facts about the further parts of the sources

    ** URL normalization *)


Section UrlFacts.

(** the guard of [normalize_url] on the empty string changes nothing *)
Lemma normalize_url_strip (u : string) :
  normalize_url u =
  let normalized := Py.rstrip_with (Ascii.eqb "/") (Py.lower (Py.strip u)) in
  if Py.has_char "?" normalized then Py.before_char "?" normalized else normalized.
Proof. destruct u; reflexivity. Qed.

Lemma lower_nil (u : string) : Py.lower u = EmptyString -> u = EmptyString.
Proof. destruct u; [reflexivity | discriminate]. Qed.

(** X1: two addresses that differ only in the case of their letters and in
    white space around them have the same normal form, and [urls_match]
    holds of them unless they are empty. *)
Theorem urls_match_ignores_case_and_space (u v w1 w2 : string) :
  str_all Py.is_space w1 = true -> str_all Py.is_space w2 = true ->
  Py.lower u = Py.lower v ->
  normalize_url (w1 +:+ u +:+ w2) = normalize_url v
  /\ (u <> EmptyString -> urls_match (Some (w1 +:+ u +:+ w2)) (Some v) = true).
Proof.
  intros H1 H2 Hl.
  assert (E : normalize_url (w1 +:+ u +:+ w2) = normalize_url v).
  { rewrite !normalize_url_strip, strip_spaces by assumption.
    now rewrite !lower_strip, Hl. }
  split; [exact E|]. intros Hu. unfold urls_match.
  assert (Hv : v <> EmptyString).
  { intros ->. apply Hu, lower_nil. exact Hl. }
  assert (Hw : w1 +:+ u +:+ w2 <> EmptyString).
  { intros E'. apply app_eq_nil in E' as [_ E']. apply app_eq_nil in E' as [E' _]. auto. }
  assert (T : forall x, x <> EmptyString -> Py.truthy (Some x) = true)
    by (intros [|? ?]; [congruence | reflexivity]).
  rewrite (T _ Hw), (T _ Hv). cbn [negb orb]. change (Py.str_of (Some ?x)) with x. rewrite E.
  apply String.eqb_refl.
Qed.

Lemma slashes_lower (s : string) : str_all (Ascii.eqb "/") s = true -> Py.lower s = s.
Proof.
  induction s as [|c s IH]; [reflexivity|]. cbn [str_all Py.lower].
  destruct (Ascii.eqb "/" c) eqn:E; [apply Ascii.eqb_eq in E; subst c|discriminate].
  intros Hs. rewrite IH by exact Hs. reflexivity.
Qed.

Lemma slashes_not_space (s : string) :
  str_all (Ascii.eqb "/") s = true -> str_all (fun c => negb (Py.is_space c)) s = true.
Proof.
  induction s as [|c s IH]; [reflexivity|]. cbn [str_all].
  destruct (Ascii.eqb "/" c) eqn:E; [apply Ascii.eqb_eq in E; subst c|discriminate].
  exact IH.
Qed.

(** X2: slashes at the end of an address of ASCII text that does not end
    in white space do not show in its normal form. *)
Theorem normalize_url_trailing_slashes (u s : string) :
  Py.isascii u = true ->
  Py.rstrip_with Py.is_space u = u ->
  str_all (Ascii.eqb "/") s = true ->
  normalize_url (u +:+ s) = normalize_url u.
Proof.
  intros _ Hu Hs. rewrite !normalize_url_strip.
  assert (E : Py.strip (u +:+ s) = Py.lstrip_with Py.is_space u +:+ s).
  { unfold Py.strip. destruct s as [|c s].
    - rewrite !app_nil_r. now apply rstrip_lstrip_fixed.
    - assert (Hr : Py.rstrip_with Py.is_space (String c s) = String c s)
        by now apply rstrip_none, slashes_not_space.
      assert (Hl : Py.lstrip_with Py.is_space (String c s) = String c s).
      { cbn [str_all] in Hs.
        destruct (Ascii.eqb "/" c) eqn:E; [apply Ascii.eqb_eq in E; subst c; reflexivity|discriminate]. }
      rewrite lstrip_app_gen.
      destruct (Py.lstrip_with Py.is_space u) as [|d l].
      + rewrite Hl, Hr. reflexivity.
      + rewrite rstrip_app, Hr. reflexivity. }
  rewrite E. unfold Py.strip at 1. rewrite rstrip_lstrip_fixed by exact Hu.
  rewrite lower_app, (slashes_lower s Hs).
  rewrite rstrip_app, (rstrip_all _ s Hs). reflexivity.
Qed.

Lemma has_char_app c (a b : string) :
  Py.has_char c (a +:+ b) = Py.has_char c a || Py.has_char c b.
Proof.
  induction a as [|d a IH]; [reflexivity|].
  rewrite app_cons. cbn [Py.has_char]. rewrite IH. now rewrite orb_assoc.
Qed.

Lemma has_char_lower_question (s : string) :
  Py.has_char "?" (Py.lower s) = Py.has_char "?" s.
Proof.
  induction s as [|c s IH]; [reflexivity|]. cbn [Py.lower Py.has_char].
  now rewrite question_lower, IH.
Qed.

Lemma has_char_lstrip c f (s : string) :
  Py.has_char c s = false -> Py.has_char c (Py.lstrip_with f s) = false.
Proof.
  intros Hs. destruct (lstrip_suffix f s) as [w Hw].
  rewrite Hw, has_char_app in Hs. now apply orb_false_elim in Hs as [_ Hs].
Qed.

Lemma has_char_rstrip c f (s : string) :
  Py.has_char c s = false -> Py.has_char c (Py.rstrip_with f s) = false.
Proof.
  induction s as [|d s IH]; [reflexivity|]. cbn [Py.has_char Py.rstrip_with].
  intros Hs. apply orb_false_elim in Hs as [Hd Hs]. specialize (IH Hs).
  destruct (Py.rstrip_with f s).
  - destruct (f d); [reflexivity|]. cbn [Py.has_char]. now rewrite Hd.
  - cbn [Py.has_char] in *. now rewrite Hd, IH.
Qed.

Lemma before_char_app c (a b : string) :
  Py.has_char c a = false -> Py.before_char c (a +:+ String c b) = a.
Proof.
  induction a as [|d a IH].
  - intros _. rewrite app_nil_l. cbn [Py.before_char]. now rewrite Ascii.eqb_refl.
  - cbn [Py.has_char]. intros Ha. apply orb_false_elim in Ha as [Hd Ha].
    rewrite app_cons. cbn [Py.before_char]. rewrite Hd, IH by exact Ha. reflexivity.
Qed.

Lemma rstrip_cons_keep f (c : ascii) (s : string) :
  f c = false -> Py.rstrip_with f (String c s) = String c (Py.rstrip_with f s).
Proof. intros Hc. cbn [Py.rstrip_with]. rewrite Hc. destruct (Py.rstrip_with f s); reflexivity. Qed.

(** X3: the normal form of an address with a query, the part before the
    query being ASCII text, is that part in lower case and without leading
    white space; it is the normal form of that part when the part ends
    neither in white space nor in a slash. *)
Theorem normalize_url_drops_query (u q : string) :
  Py.isascii u = true ->
  Py.has_char "?" u = false ->
  normalize_url (u +:+ "?" +:+ q) = Py.lower (Py.lstrip_with Py.is_space u)
  /\ (Py.rstrip_with Py.is_space u = u -> Py.rstrip_with (Ascii.eqb "/") u = u ->
      normalize_url (u +:+ "?" +:+ q) = normalize_url u).
Proof.
  intros _ Hq.
  assert (E : normalize_url (u +:+ "?" +:+ q) = Py.lower (Py.lstrip_with Py.is_space u)).
  { rewrite normalize_url_strip.
    assert (Es : exists q', Py.strip (u +:+ "?" +:+ q) =
                            Py.lstrip_with Py.is_space u +:+ String "?" q').
    { unfold Py.strip. rewrite lstrip_app by reflexivity.
      change ("?" +:+ q) with (String "?" q).
      rewrite rstrip_app, rstrip_cons_keep by reflexivity. eauto. }
    destruct Es as [q' ->]. rewrite lower_app. cbn [Py.lower].
    change (Py.lower_char "?") with "?"%char.
    rewrite rstrip_app, rstrip_cons_keep by reflexivity. cbv zeta.
    assert (Hl : Py.has_char "?" (Py.lower (Py.lstrip_with Py.is_space u)) = false)
      by now rewrite has_char_lower_question; apply has_char_lstrip.
    rewrite has_char_app. cbn [Py.has_char]. rewrite Ascii.eqb_refl, orb_true_r.
    now apply before_char_app. }
  split; [exact E|]. intros Hw Hs. rewrite E, normalize_url_strip.
  unfold Py.strip. rewrite (rstrip_lstrip_fixed _ _ _ Hw).
  rewrite <- lower_rstrip_with by apply slash_lower.
  rewrite (rstrip_lstrip_fixed _ _ _ Hs). cbv zeta.
  rewrite has_char_lower_question, has_char_lstrip by exact Hq. reflexivity.
Qed.

End UrlFacts.

(** ** The history and the engine, continued *)

Section HistoryLookups.
Context `{Models}.

Lemma cited_before_iff h m :
  has_been_cited_before h m = true <->
  exists k, generate_source_key m = Some k /\ is_Some (all_sources h !! k).
Proof.
  unfold has_been_cited_before.
  destruct (generate_source_key m) as [k|].
  - rewrite bool_decide_eq_true. split; [eauto | intros (k' & [= <-] & Hk); exact Hk].
  - split; [discriminate | intros (k & E & _); discriminate].
Qed.

(** X4: after [add], the previous metadata and URL are those of the source
    added, a source is the same as the previous one exactly when it matches
    the source added, and it has been cited before exactly when it had been
    or it matches the source added. *)
Theorem history_after_add (h : CitationHistory) (m m' : option CitationMetadata) (f : string) :
  get_previous_metadata (add h m f) = m
  /\ get_previous_url (add h m f) = m ≫= url
  /\ is_same_as_previous (add h m f) m' = sources_match m' m
  /\ has_been_cited_before (add h m f) m' =
     has_been_cited_before h m' || sources_match m' m.
Proof.
  split; [reflexivity|]. split; [destruct m; reflexivity|]. split; [reflexivity|].
  apply eq_true_iff_eq. rewrite orb_true_iff, !cited_before_iff, sources_match_iff.
  split.
  - intros (k & Hk & Hs). rewrite add_lookup in Hs.
    destruct (all_sources h !! k) eqn:E; [left; eauto|].
    destruct (decide (generate_source_key m = Some k)); [right; eauto|].
    destruct Hs; discriminate.
  - intros [(k & Hk & Hs) | (k & Hk & Hm)]; exists k; (split; [exact Hk|]);
      rewrite add_lookup.
    + destruct Hs as [e ->]. eauto.
    + destruct (all_sources h !! k); [eauto|]. rewrite decide_True by exact Hm. eauto.
Qed.

Lemma new_history_ok : history_ok new_history.
Proof.
  split; [intros k e E; simpl in E; rewrite lookup_empty in E; discriminate|].
  split; [discriminate | auto].
Qed.

Lemma add_ok h m f : history_ok h -> history_ok (add h m f).
Proof.
  intros (Hs & Hp & _). split; [|split].
  - intros k e. rewrite add_lookup, add_counter.
    destruct (all_sources h !! k) as [e'|] eqn:E.
    + intros [= <-]. destruct (Hs _ _ E) as (? & ? & ?). repeat split; auto; lia.
    + destruct (decide (generate_source_key m = Some k)) as [Hk|]; [|discriminate].
      intros [= <-]. simpl. repeat split; auto; lia.
  - intros p. rewrite add_previous. intros [= <-]. rewrite add_counter.
    split; [reflexivity|]. split; [reflexivity|].
    intros k Hk. rewrite add_lookup.
    destruct (all_sources h !! k); [eauto|]. rewrite decide_True by exact Hk. eauto.
  - rewrite add_previous. discriminate.
Qed.

End HistoryLookups.

Section EngineInvariants.
Context `{Models} `{Router} `{Formatter}.

Lemma phase2_step_history style h data :
  (phase2_step style h data).1.1 = h \/
  exists m f, (phase2_step style h data).1.1 = add h m f.
Proof.
  unfold phase2_step.
  repeat (case_match; cbn [fst snd]); eauto.
Qed.

Lemma phase2_history_ok style h fetched :
  history_ok h -> history_ok (phase2 style h fetched).1.1.
Proof.
  revert h. induction fetched as [|data rest IH]; intros h Hh; [exact Hh|].
  cbn [phase2].
  destruct (phase2_step style h data) as [[h1 r] w] eqn:E1.
  assert (Hh1 : history_ok h1).
  { destruct (phase2_step_history style h data) as [E | (m & f & E)];
      rewrite E1 in E; cbn [fst] in E; subst h1; [exact Hh | now apply add_ok]. }
  specialize (IH h1 Hh1).
  destruct (phase2 style h1 rest) as [[h2 rs] ws]. exact IH.
Qed.

(** X5: the history Phase 2 ends with is well formed: every entry is
    stored under its own key with a note number between 1 and the counter,
    and the previous entry is the latest one and is stored when it has a
    key.  So a source that is the same as the previous one has been cited
    before. *)
Theorem phase2_keeps_history_well_formed (style : string) (endnotes footnotes : list Note)
    (m : option CitationMetadata) :
  let h := (process_notes style endnotes footnotes).1.1 in
  history_ok h
  /\ (is_same_as_previous h m = true -> has_been_cited_before h m = true).
Proof.
  intros h.
  assert (Hh : history_ok h) by (apply phase2_history_ok, new_history_ok).
  split; [exact Hh|].
  unfold is_same_as_previous. destruct (previous h) as [p|] eqn:Ep; [|discriminate].
  rewrite sources_match_iff, cited_before_iff. intros (k & Hk & Hpk).
  exists k. split; [exact Hk|].
  destruct Hh as (_ & Hp & _). destruct (Hp p Ep) as (_ & Hsk & Hin).
  apply Hin. now rewrite Hsk.
Qed.

Lemma phase2_step_result style h data :
  let '(h', r, w) := phase2_step style h data in
  original r = f_original_text data
  /\ w = (if success r
          then [write_note (f_note_type data) (f_note_id data) (formatted r)] else [])
  /\ (success r = false -> formatted r = original r /\ h' = h).
Proof.
  unfold phase2_step.
  destruct (f_is_explicit_ibid data).
  - destruct (get_previous_metadata h); cbn; repeat split; intros; try discriminate; auto.
  - destruct (f_metadata data) as [m|];
      [|cbn; repeat split; intros; try discriminate; auto].
    destruct (f_formatted data) as [[|c0 f0]|];
      [cbn; repeat split; intros; try discriminate; auto| |
       cbn; repeat split; intros; try discriminate; auto].
    destruct (Py.truthy (f_current_url data) && Py.truthy (get_previous_url h) &&
              urls_match (f_current_url data) (get_previous_url h));
      [cbn; repeat split; intros; try discriminate; auto|].
    destruct (is_same_as_previous h (Some m));
      [cbn; repeat split; intros; try discriminate; auto|].
    destruct (has_been_cited_before h (Some m));
      cbn; repeat split; intros; try discriminate; auto.
Qed.

(** X6: Phase 2 returns one result for each note, in the order of the
    notes and with the original text of the note; it writes exactly the
    successful results, in that order; a failed result keeps the original
    text; and when every result fails, the history is unchanged and nothing
    is written. *)
Theorem phase2_accounts_for_every_note (style : string) (h : CitationHistory)
    (fetched : list Fetched) :
  let '(h', rs, ws) := phase2 style h fetched in
  map original rs = map f_original_text fetched
  /\ ws = expected_writes fetched rs
  /\ Forall (fun r => success r = false -> formatted r = original r) rs
  /\ (Forall (fun r => success r = false) rs -> h' = h /\ ws = []).
Proof.
  revert h. induction fetched as [|data rest IH]; intros h.
  - cbn. repeat split; constructor.
  - cbn [phase2].
    pose proof (phase2_step_result style h data) as Hs.
    destruct (phase2_step style h data) as [[h1 r] w].
    destruct Hs as (Ho & Hw & Hf).
    specialize (IH h1). destruct (phase2 style h1 rest) as [[h2 rs] ws].
    destruct IH as (IH1 & IH2 & IH3 & IH4).
    split; [cbn [map]; now rewrite Ho, IH1|].
    split; [unfold expected_writes in *; cbn [combine flat_map fst snd]; now rewrite Hw, IH2|].
    split; [constructor; [intros Hr; now apply Hf | exact IH3]|].
    intros Hall. apply Forall_cons in Hall as [Hr Hrs].
    destruct (Hf Hr) as [_ ->]. destruct (IH4 Hrs) as [-> ->].
    rewrite Hw, Hr. auto.
Qed.

Lemma phase2_app style h a b :
  phase2 style h (a ++ b) =
  let '(h1, r1, w1) := phase2 style h a in
  let '(h2, r2, w2) := phase2 style h1 b in
  (h2, (r1 ++ r2)%list, (w1 ++ w2)%list).
Proof.
  revert h. induction a as [|data a IH]; intros h.
  - cbn. destruct (phase2 style h b) as [[h2 r2] w2]. reflexivity.
  - cbn [phase2 app]. change ((data :: a) ++ b)%list with (data :: (a ++ b))%list.
    cbn [phase2].
    destruct (phase2_step style h data) as [[h1 r] w].
    rewrite IH. destruct (phase2 style h1 a) as [[h2 r2] w2].
    destruct (phase2 style h2 b) as [[h3 r3] w3].
    now rewrite <- List.app_assoc.
Qed.

(** X7: processing the notes of a document is Phase 2 on the endnotes from
    an empty history, followed by Phase 2 on the footnotes from the history
    the endnotes leave. *)
Theorem footnotes_follow_the_endnotes (style : string) (endnotes footnotes : list Note) :
  process_notes style endnotes footnotes =
  let '(h1, r1, w1) :=
    phase2 style new_history (map (fun n => fetch_metadata_for_note style n endnote) endnotes) in
  let '(h2, r2, w2) :=
    phase2 style h1 (map (fun n => fetch_metadata_for_note style n footnote) footnotes) in
  (h2, (r1 ++ r2)%list, (w1 ++ w2)%list).
Proof.
  unfold process_notes. rewrite map_app, !map_map. cbn [fst snd].
  apply phase2_app.
Qed.

(** X8: a resolved source without a key (no DOI, URL, citation, case name
    or title) whose URL does not match the previous one is cited in full; it
    is not stored among the sources, so it is never recognised again, neither
    as the previous source nor as one cited before. *)
Theorem unkeyed_source_is_cited_in_full (style : string) (h : CitationHistory)
    (data : Fetched) (m : CitationMetadata) (text : string) :
  f_is_explicit_ibid data = false ->
  f_metadata data = Some m ->
  f_formatted data = Some text ->
  text <> EmptyString ->
  generate_source_key (Some m) = None ->
  urls_match (f_current_url data) (get_previous_url h) = false ->
  let h' := add h (Some m) text in
  phase2_step style h data =
    (h',
     {| original := f_original_text data; formatted := text;
        pc_metadata := Some m; pc_url := f_current_url data; success := true;
        error := None; citation_form := "full" |},
     [write_note (f_note_type data) (f_note_id data) text])
  /\ all_sources h' = all_sources h
  /\ is_same_as_previous h' (Some m) = false
  /\ has_been_cited_before h' (Some m) = false.
Proof.
  intros Hi Hm Hf Ht Hk Hu h'.
  assert (Hsame : forall x, is_same_as_previous x (Some m) = false).
  { intros x. unfold is_same_as_previous, sources_match. rewrite Hk.
    destruct (previous x); reflexivity. }
  assert (Hcited : forall x, has_been_cited_before x (Some m) = false).
  { intros x. unfold has_been_cited_before. now rewrite Hk. }
  split; [|split; [|split; [apply Hsame | apply Hcited]]].
  - unfold phase2_step. rewrite Hi, Hm, Hf.
    destruct text as [|c t]; [congruence|].
    rewrite Hu, andb_false_r, Hsame, Hcited. reflexivity.
  - unfold h'. rewrite add_all_sources, Hk. reflexivity.
Qed.

End EngineInvariants.

(** ** The provider searches *)

Section SearchesFacts.
Import AuthorDate.
#[local] Set Warnings "-inexact-float".

Section ProviderFacts.
Context `{Engines}.
Local Open Scope float_scope.


Ltac formula_cases m author year_ second :=
  rewrite ?calculate_confidence_eq;
  unfold confidence_formula, year_score, author_score, second_author_score,
    doi_score, completeness;
  destruct (opt_eqb (year m) year_);
  destruct (parse_year (year m));
  destruct (Py.int year_);
  try match goal with |- context [(Z.abs ?x <=? 1)%Z] => destruct (Z.abs x <=? 1)%Z end;
  destruct (author_matches author m);
  destruct (Py.truthy second && author_matches (Py.str_of second) m);
  destruct (Py.truthy (doi m));
  destruct (Py.truthy (title m));
  destruct (Py.truthy (journal m) || Py.truthy (publisher m));
  destruct (Py.truthy (volume m) || Py.truthy (pages m));
  try discriminate;
  vm_compute; repeat split; reflexivity.

(** X9: every result of the four provider searches has a title and a
    confidence between 0 and 1; a result of Crossref or OpenAlex has the year
    asked for, and so a confidence of at least 0.35. *)
Theorem provider_results_are_scored (author year_ : string) (second : option string) :
  Forall scored
    (_search_semantic_scholar author year_ second ++ _search_crossref author year_ second ++
     _search_openalex author year_ second ++ _search_google_scholar author year_ second)
  /\ Forall (fun r => year (metadata r) = Some year_ /\ (0.35 <=? confidence r) = true)
       (_search_crossref author year_ second ++ _search_openalex author year_ second).
Proof.
  assert (Hss : Forall scored (_search_semantic_scholar author year_ second)).
  { unfold _search_semantic_scholar.
    destruct semantic_scholar as [ss|]; [|constructor].
    destruct (ss _) as [[m|]|]; try constructor.
    destruct (Py.truthy (title m)) eqn:Et; constructor; [|constructor].
    unfold scored; cbn [metadata confidence]. split; [exact Et|].
    clear Et. formula_cases m author year_ second. }
  assert (Hcr : Forall (fun r => scored r /\ year (metadata r) = Some year_ /\
                                 (0.35 <=? confidence r) = true)
                  (_search_crossref author year_ second)).
  { unfold _search_crossref.
    destruct crossref as [cr|]; [|constructor].
    destruct (cr _) as [[m|]|]; try constructor.
    destruct (Py.truthy (title m)) eqn:Et; [|constructor].
    destruct (Py.truthy (year m) && opt_eqb (year m) year_) eqn:Ey; constructor; [|constructor].
    apply andb_prop in Ey as [_ Ey].
    unfold scored; cbn [metadata confidence].
    split; [split; [exact Et|]|split].
    - revert Et Ey. formula_cases m author year_ second.
    - unfold opt_eqb in Ey. destruct (year m); [|discriminate].
      apply String.eqb_eq in Ey. now subst.
    - revert Et Ey. formula_cases m author year_ second. }
  assert (Hoa : Forall (fun r => scored r /\ year (metadata r) = Some year_ /\
                                 (0.35 <=? confidence r) = true)
                  (_search_openalex author year_ second)).
  { unfold _search_openalex.
    destruct openalex as [oa|]; [|constructor].
    destruct (oa _) as [[m|]|]; try constructor.
    destruct (Py.truthy (title m)) eqn:Et; [|constructor].
    destruct (Py.truthy (year m) && opt_eqb (year m) year_) eqn:Ey; constructor; [|constructor].
    apply andb_prop in Ey as [_ Ey].
    unfold scored; cbn [metadata confidence].
    split; [split; [exact Et|]|split].
    - revert Et Ey. formula_cases m author year_ second.
    - unfold opt_eqb in Ey. destruct (year m); [|discriminate].
      apply String.eqb_eq in Ey. now subst.
    - revert Et Ey. formula_cases m author year_ second. }
  assert (Hgs : Forall scored (_search_google_scholar author year_ second)).
  { unfold _search_google_scholar.
    destruct google_scholar as [gs|]; [|constructor].
    destruct (gs _) as [[m|]|]; try constructor.
    destruct (Py.truthy (title m)) eqn:Et; constructor; [|constructor].
    unfold scored; cbn [metadata confidence]. split; [exact Et|].
    clear Et. formula_cases m author year_ second. }
  split.
  - repeat apply Forall_app_2; try assumption;
      eapply Forall_impl; try eassumption; cbn; tauto.
  - apply Forall_app_2; eapply Forall_impl; try eassumption; cbn; tauto.
Qed.

End ProviderFacts.

Section ClaudeFacts.
Context `{Oracle}.
Local Open Scope float_scope.

Lemma py_min_le (a x : float) : is_number a = true -> (py_min a x <=? a) = true.
Proof.
  intros Ha. unfold py_min. destruct (x <? a) eqn:E; [now apply ltb_leb | exact Ha].
Qed.

Lemma SFleb_nan (x : spec_float) : SFleb x x = false -> x = S754_nan.
Proof.
  unfold SFleb. destruct x as [s|s| |s m e]; simpl; try destruct s; simpl;
    try congruence; try reflexivity.
  - rewrite Z.compare_refl, Pos.compare_cont_refl. discriminate.
  - rewrite Z.compare_refl. rewrite Pos.compare_cont_refl. discriminate.
Qed.

(** a confidence that is not a number is never below a bound, and adding
    to it gives no number *)
Lemma nan_py_min (a c b : float) :
  is_number c = false -> py_min a (c + b) = a /\ (c <? a) = false.
Proof.
  unfold is_number. rewrite leb_spec. intros Hc. apply SFleb_nan in Hc.
  unfold py_min. rewrite !ltb_spec, add_spec, Hc. split; reflexivity.
Qed.

(** X10: the fallback search returns at most one result; its confidence is
    a number of at most 0.95, it has a title, its source is [Claude AI],
    and the author asked for is, in lower case, part of one of its authors
    in lower case (this for ASCII names).  The guess it comes from has a
    confidence that is not below 0.5: at least 0.5 when it is a number; a
    confidence that is not a number passes too, and the result then gets
    0.95. *)
Theorem claude_results_are_capped (author year_ : string) (second context : option string) :
  Forall (fun r =>
            (confidence r <=? 0.95) = true /\ is_number (confidence r) = true /\
            Py.truthy (title (metadata r)) = true /\
            (Py.isascii author = true ->
             Forall (fun a => Py.isascii a = true) (authors (metadata r)) ->
             names_author author (metadata r)) /\
            source_engine (metadata r) = Some "Claude AI" /\
            exists guess c,
              guess_citation (claude_query author year_ second context) = Some guess /\
              g_confidence guess = Some c /\
              (is_number c = true -> (0.5 <=? c) = true) /\
              (is_number c = false -> confidence r = 0.95))
         (_search_claude author year_ second context)
  /\ length (_search_claude author year_ second context) <= 1.
Proof.
  unfold _search_claude.
  destruct (guess_citation _) as [guess|] eqn:Eg; [|split; [constructor | simpl; lia]].
  destruct (default 0.0 (g_confidence guess) <? 0.5) eqn:Ec; [split; [constructor | simpl; lia]|].
  match goal with |- context [if ?c then _ else _] => destruct c eqn:Em end;
    [|split; [constructor | simpl; lia]].
  split; [|simpl; lia]. constructor; [|constructor].
  cbn [confidence metadata title source_engine].
  apply andb_prop in Em as [Et Ea].
  split; [apply py_min_le; reflexivity|].
  split; [apply py_min_number; reflexivity|].
  split; [exact Et|].
  split; [intros _ _; apply author_matches_iff; exact Ea|]. split; [reflexivity|].
  destruct (g_confidence guess) as [c|] eqn:Egc.
  - exists guess, c. split; [reflexivity|]. split; [exact Egc|].
    change (default 0.0 (Some c)) with c in Ec. change (default 0.7 (Some c)) with c.
    split.
    + intros Hc. apply leb_total; [exact Hc | reflexivity | exact Ec].
    + intros Hc. now apply nan_py_min.
  - cbn in Ec. vm_compute in Ec. discriminate.
Qed.

End ClaudeFacts.

Section MultipleFacts.

Lemma search_multiple_snoc calls c :
  search_multiple (calls ++ [c]) =
  <[call_key c := call_value c]> (search_multiple calls).
Proof.
  unfold search_multiple. rewrite fold_left_app. cbn [fold_left].
  destruct c as [[[a y] sa] o]. unfold call_key, call_value; cbn [fst snd].
  destruct o; reflexivity.
Qed.

(** X11: [search_multiple] files each citation, its author being ASCII
    text, under its author in lower case and its year; of the citations
    with one key, the last one decides the entry, and a search that raises
    files [None]. *)
Theorem search_multiple_last_wins
    (calls : list (string * string * option string * option (option CitationMetadata)))
    (k : string * string) :
  Forall (fun c => Py.isascii c.1.1.1 = true) calls ->
  search_multiple calls !! k =
  call_value <$> last (filter (fun c => call_key c = k) calls).
Proof.
  intros _.
  induction calls as [|c calls IH] using rev_ind; [reflexivity|].
  rewrite search_multiple_snoc, filter_app, filter_cons, filter_nil.
  destruct (decide (call_key c = k)) as [<-|Hne].
  - rewrite lookup_insert_eq, last_snoc. reflexivity.
  - rewrite lookup_insert_ne by exact Hne. rewrite List.app_nil_r. exact IH.
Qed.

End MultipleFacts.

End SearchesFacts.

(** ** The reference list *)

Section ReferenceListFacts.
Import References.

Section SpliceFacts.

Lemma paragraphs_app (a b : list BodyChild) :
  paragraphs (a ++ b) = (paragraphs a ++ paragraphs b)%list.
Proof. unfold paragraphs. apply flat_map_app. Qed.

Lemma has_sect_pr_app (a b : list BodyChild) :
  has_sect_pr (a ++ b) = has_sect_pr a || has_sect_pr b.
Proof. unfold has_sect_pr. apply existsb_app. Qed.

Lemma remove_from_zero (b : list BodyChild) :
  remove_paragraphs_from 0 b = filter (fun c => negb (is_paragraph c)) b.
Proof.
  induction b as [|c b IH]; [reflexivity|].
  destruct c; cbn [remove_paragraphs_from]; rewrite filter_cons; cbn; now rewrite IH.
Qed.

(** removal from the paragraph that follows [a] keeps [a] and, after it,
    everything that is not a paragraph *)
Lemma remove_after (a b : list BodyChild) :
  remove_paragraphs_from (length (paragraphs a)) (a ++ b) =
  (a ++ filter (fun c => negb (is_paragraph c)) b)%list.
Proof.
  unfold paragraphs.
  induction a as [|c a IH]; [apply remove_from_zero|].
  change ((c :: a) ++ b)%list with (c :: (a ++ b))%list.
  destruct c; cbn [remove_paragraphs_from flat_map app length];
    rewrite IH; reflexivity.
Qed.

Lemma find_references_app pa h pb i :
  (forall t, In t pa -> is_references_heading t = false) ->
  is_references_heading h = true ->
  find_references (pa ++ h :: pb) i = Some (i + length pa).
Proof.
  revert i. induction pa as [|p pa IH]; intros i Hpa Hh.
  - cbn. rewrite Hh. f_equal. lia.
  - cbn [app find_references]. change ((p :: pa) ++ h :: pb)%list with (p :: (pa ++ h :: pb))%list.
    cbn [find_references]. rewrite (Hpa p) by now left.
    rewrite IH; [f_equal; cbn; lia | intros t Ht; apply Hpa; now right | exact Hh].
Qed.

Lemma without_references_split pre h post :
  (forall t, In t (paragraphs pre) -> is_references_heading t = false) ->
  is_references_heading h = true ->
  without_references (pre ++ P h :: post) =
  (pre ++ filter (fun c => negb (is_paragraph c)) post)%list.
Proof.
  intros Hpre Hh. unfold without_references.
  rewrite paragraphs_app. cbn [paragraphs flat_map app].
  change (flat_map _ post) with (paragraphs post).
  rewrite find_references_app by assumption. cbn [Nat.add].
  rewrite remove_after. rewrite filter_cons. reflexivity.
Qed.

Lemma paragraphs_remove idx body :
  paragraphs (remove_paragraphs_from idx body) = firstn idx (paragraphs body).
Proof.
  revert idx. induction body as [|c body IH]; intros idx; [now destruct idx|].
  destruct c; cbn [remove_paragraphs_from paragraphs flat_map app];
    try (change (flat_map _ ?b) with (paragraphs b); apply IH).
  destruct idx; change (flat_map _ ?b) with (paragraphs b) in *.
  - apply (IH 0).
  - cbn [paragraphs flat_map app firstn]. change (flat_map _ ?b) with (paragraphs b).
    now rewrite IH.
Qed.

Lemma without_references_clean body t :
  In t (paragraphs (without_references body)) -> is_references_heading t = false.
Proof.
  unfold without_references.
  destruct (find_references (paragraphs body) 0) as [idx|] eqn:E.
  - rewrite paragraphs_remove. intros Hin.
    apply find_references_Some in E as (k & t0 & -> & _ & _ & Hbefore).
    change (0 + k) with k in Hin.
    apply In_nth_error in Hin as [j Hj].
    assert (Hlt : j < k).
    { assert (Hlen : j < length (firstn k (paragraphs body))).
      { apply nth_error_Some. rewrite Hj. discriminate. }
      rewrite length_firstn in Hlen. lia. }
    eapply (Hbefore j t Hlt).
    rewrite nth_error_firstn in Hj.
    apply Nat.ltb_lt in Hlt. rewrite Hlt in Hj. exact Hj.
  - intros Hin. eapply find_references_None in E; eauto.
Qed.

Lemma remove_keeps_sect_pr idx body :
  has_sect_pr (remove_paragraphs_from idx body) = has_sect_pr body.
Proof.
  revert idx. induction body as [|c body IH]; intros idx; [reflexivity|].
  destruct c; cbn [remove_paragraphs_from]; try destruct idx;
    unfold has_sect_pr in *; cbn [existsb]; rewrite ?IH; reflexivity.
Qed.

Lemma without_references_sect_pr body :
  has_sect_pr (without_references body) = has_sect_pr body.
Proof.
  unfold without_references. destruct (find_references _ _); [apply remove_keeps_sect_pr | reflexivity].
Qed.

Lemma remove_snoc_sect_pr idx body :
  remove_paragraphs_from idx (body ++ [SectPr]) =
  (remove_paragraphs_from idx body ++ [SectPr])%list.
Proof.
  revert idx. induction body as [|c body IH]; intros idx; [reflexivity|].
  change ((c :: body) ++ [SectPr])%list with (c :: (body ++ [SectPr]))%list.
  destruct c; cbn [remove_paragraphs_from]; try destruct idx; rewrite IH; reflexivity.
Qed.

Lemma without_references_snoc body :
  without_references (body ++ [SectPr]) = (without_references body ++ [SectPr])%list.
Proof.
  unfold without_references. rewrite paragraphs_app. cbn [paragraphs flat_map app].
  rewrite List.app_nil_r.
  destruct (find_references (paragraphs body) 0); [apply remove_snoc_sect_pr | reflexivity].
Qed.

Lemma insert_references_snoc body new :
  insert_references (body ++ [SectPr]) new = (body ++ new ++ [SectPr])%list.
Proof.
  unfold insert_references. rewrite has_sect_pr_app. cbn [has_sect_pr existsb].
  rewrite orb_true_r, List.length_app. cbn [length].
  replace (length body + 1 - 1) with (length body) by lia.
  rewrite List.firstn_app, List.firstn_all, Nat.sub_diag, List.skipn_app, List.skipn_all,
    Nat.sub_diag.
  cbn [firstn skipn]. now rewrite List.app_nil_r.
Qed.

Lemma insert_references_plain body new :
  has_sect_pr body = false -> insert_references body new = (body ++ new)%list.
Proof.
  intros Hs. unfold insert_references. rewrite Hs, List.firstn_all, List.skipn_all.
  now rewrite List.app_nil_r.
Qed.

(** X12: when the first references heading of the body is found, the
    heading and every paragraph after it are removed, everything before the
    heading and every other element after it stay, and the new list is
    inserted into what is left. *)
Theorem references_removal_keeps_the_rest (pre post new : list BodyChild)
    (h : list (option string)) :
  (forall t, In t (paragraphs pre) -> is_references_heading t = false) ->
  is_references_heading h = true ->
  update_body (pre ++ P h :: post) new =
  insert_references (pre ++ filter (fun c => negb (is_paragraph c)) post) new.
Proof.
  intros Hpre Hh.
  change (update_body (pre ++ P h :: post) new)
    with (insert_references (without_references (pre ++ P h :: post)) new).
  now rewrite without_references_split.
Qed.

Lemma update_body_eq body new :
  update_body body new = insert_references (without_references body) new.
Proof. reflexivity. Qed.

Lemma update_body_snoc content new :
  update_body (content ++ [SectPr]) new =
  (without_references content ++ new ++ [SectPr])%list.
Proof. rewrite update_body_eq, without_references_snoc. apply insert_references_snoc. Qed.

Lemma update_body_plain content new :
  has_sect_pr content = false ->
  update_body content new = (without_references content ++ new)%list.
Proof.
  intros Hs. rewrite update_body_eq.
  apply insert_references_plain. now rewrite without_references_sect_pr.
Qed.

(** X13: in a body that ends with its section properties the new list is
    put just before them, after the content without its old list; without
    section properties the new list is put at the end. *)
Theorem references_go_before_the_section_properties (content new : list BodyChild) :
  update_body (content ++ [SectPr]) new =
    (without_references content ++ new ++ [SectPr])%list
  /\ (has_sect_pr content = false ->
      update_body content new = (without_references content ++ new)%list).
Proof. split; [apply update_body_snoc | apply update_body_plain]. Qed.

Lemma without_references_fixed body :
  without_references (without_references body) = without_references body.
Proof.
  unfold without_references at 1.
  destruct (find_references (paragraphs (without_references body)) 0) as [idx|] eqn:E;
    [|reflexivity].
  apply find_references_Some in E as (k & t & _ & Hn & Ht & _).
  apply nth_error_In in Hn. apply without_references_clean in Hn. congruence.
Qed.

(** the list put in by one run is what the next run removes *)
Lemma rerun_replaces body new new' h rest :
  new = P h :: rest ->
  is_references_heading h = true ->
  forallb is_paragraph rest = true ->
  (has_sect_pr body = true -> exists content, body = (content ++ [SectPr])%list) ->
  update_body (update_body body new) new' = update_body body new'.
Proof.
  intros -> Hh Hrest Hsect.
  assert (Hfilter : filter (fun c => negb (is_paragraph c)) rest = []).
  { clear -Hrest. induction rest as [|c rest IH]; [reflexivity|].
    cbn [forallb] in Hrest. apply andb_prop in Hrest as [Hc Hrest].
    rewrite filter_cons, Hc. cbn. now apply IH. }
  destruct (has_sect_pr body) eqn:Hs.
  - destruct (Hsect eq_refl) as [content ->].
    rewrite !update_body_snoc.
    replace (without_references content ++ (P h :: rest) ++ [SectPr])%list
      with ((without_references content ++ P h :: rest) ++ [SectPr])%list
      by (rewrite <- List.app_assoc; reflexivity).
    rewrite update_body_snoc, without_references_split, Hfilter, List.app_nil_r;
      [reflexivity | apply without_references_clean | exact Hh].
  - rewrite (update_body_plain body) by exact Hs.
    rewrite (update_body_eq (_ ++ _)), without_references_split, Hfilter, List.app_nil_r;
      [reflexivity | apply without_references_clean | exact Hh].
Qed.

(** X14: a list that starts with a references heading and holds paragraphs
    only is replaced by the next update: updating twice gives what the
    second update alone gives, provided the section properties, if any, are
    the last child of the body. *)
Theorem second_run_replaces_the_reference_list
    (body new new' rest : list BodyChild) (h : list (option string)) :
  new = P h :: rest ->
  is_references_heading h = true ->
  forallb is_paragraph rest = true ->
  (has_sect_pr body = true -> exists content, body = (content ++ [SectPr])%list) ->
  update_body (update_body body new) new' = update_body body new'.
Proof. apply rerun_replaces. Qed.

End SpliceFacts.

Section ListFacts.

Lemma split_char_nonempty c s : split_char c s <> [].
Proof.
  induction s as [|d s IH]; [discriminate|]. cbn [split_char].
  destruct (Ascii.eqb c d); [discriminate|]. destruct (split_char c s); discriminate.
Qed.

Lemma split_char_plain c (a : string) : Py.has_char c a = false -> split_char c a = [a].
Proof.
  induction a as [|d a IH]; [reflexivity|]. cbn [Py.has_char split_char].
  intros Ha. apply orb_false_elim in Ha as [Hd Ha]. rewrite Hd, IH by exact Ha. reflexivity.
Qed.

Lemma split_char_app c (a b : string) :
  Py.has_char c a = false -> split_char c (a +:+ String c b) = a :: split_char c b.
Proof.
  induction a as [|d a IH].
  - intros _. rewrite app_nil_l. cbn [split_char]. now rewrite Ascii.eqb_refl.
  - cbn [Py.has_char]. intros Ha. apply orb_false_elim in Ha as [Hd Ha].
    rewrite app_cons. cbn [split_char]. rewrite Hd, IH by exact Ha. reflexivity.
Qed.

Lemma split_char_join c (lines : list string) :
  lines <> [] ->
  (forall l, In l lines -> Py.has_char c l = false) ->
  split_char c (join (String c EmptyString) lines) = lines.
Proof.
  induction lines as [|l lines IH]; [congruence|]. intros _ Hl.
  destruct lines as [|l' lines].
  - cbn [join]. apply split_char_plain, Hl. now left.
  - change (join (String c EmptyString) (l :: l' :: lines))
      with (l +:+ String c EmptyString +:+ join (String c EmptyString) (l' :: lines)).
    change (String c EmptyString +:+ ?x) with (String c x).
    rewrite split_char_app by (apply Hl; now left).
    rewrite IH; [reflexivity | discriminate | intros x Hx; apply Hl; now right].
Qed.

Lemma list_header_cases style :
  list_header style = "References" \/ list_header style = "References Cited" \/
  list_header style = "Bibliography".
Proof.
  unfold list_header. repeat case_match; auto.
Qed.

Lemma header_paragraph style :
  create_reference_paragraph (list_header style) =
    {| heading1 := true;
       runs := [{| italic := false; run_texts := [list_header style] |}] |}
  /\ is_references_heading [Some (list_header style)] = true
  /\ Py.has_char newline (list_header style) = false.
Proof.
  destruct (list_header_cases style) as [-> | [-> | ->]]; vm_compute; auto.
Qed.

Lemma generated_lines references style :
  exists rest,
    split_char newline (_generate_reference_list references style) =
    list_header style :: rest.
Proof.
  unfold _generate_reference_list. cbn [app].
  set (tail := (EmptyString :: flat_map _ references)).
  change (join _ (list_header style :: tail))
    with (list_header style +:+ String newline (join (String newline EmptyString) tail)).
  rewrite split_char_app by apply header_paragraph. eauto.
Qed.

Lemma created_are_paragraphs (l : list RefParagraph) :
  forallb is_paragraph (map body_child l) = true.
Proof. induction l as [|p l IH]; [reflexivity | exact IH]. Qed.

(** X15: the text generated for a list of references, none of which
    contains a line break, is turned into a heading paragraph with the
    header of the style, an empty paragraph, and for each reference its
    paragraph followed by an empty one. *)
Theorem one_paragraph_per_reference (references : list string) (style : string) :
  (forall f, In f references -> Py.has_char newline f = false) ->
  _create_reference_paragraphs (_generate_reference_list references style) =
    {| heading1 := true;
       runs := [{| italic := false; run_texts := [list_header style] |}] |} ::
    {| heading1 := false; runs := [] |} ::
    flat_map (fun f => [create_reference_paragraph f; {| heading1 := false; runs := [] |}])
             references.
Proof.
  intros Hf. unfold _create_reference_paragraphs, _generate_reference_list.
  rewrite split_char_join.
  - cbn [app map]. rewrite (proj1 (header_paragraph style)). do 2 f_equal.
    clear Hf. induction references as [|f references IH]; [reflexivity|].
    cbn [flat_map app map]. now rewrite IH.
  - discriminate.
  - intros l [<- | [<- | Hl]]; [apply header_paragraph | reflexivity|].
    apply in_flat_map in Hl as (f & Hin & [<- | [<- | []]]); [now apply Hf | reflexivity].
Qed.

(** X16: writing a generated reference list into a document and then
    another one leaves the document that the second list alone gives,
    provided the section properties, if any, are the last child of the
    body. *)
Theorem regenerated_list_replaces_the_old_one (body : list BodyChild)
    (references references' : list string) (style style' : string) :
  (has_sect_pr body = true -> exists content, body = (content ++ [SectPr])%list) ->
  update_references
    (update_references body (_generate_reference_list references style))
    (_generate_reference_list references' style')
  = update_references body (_generate_reference_list references' style').
Proof.
  intros Hsect. unfold update_references, _create_reference_paragraphs.
  destruct (generated_lines references style) as [rest ->]. cbn [map].
  eapply rerun_replaces; [| |apply created_are_paragraphs|exact Hsect].
  - rewrite (proj1 (header_paragraph style)). reflexivity.
  - apply header_paragraph.
Qed.

End ListFacts.

Section ItalicFacts.

Lemma startswith_app p s : Py.startswith p s = true -> s = p +:+ Py.drop (String.length p) s.
Proof.
  revert s. induction p as [|a p IH]; intros s; [now destruct s|].
  destruct s as [|b s]; [discriminate|]. cbn [Py.startswith String.length Py.drop].
  intros E. apply andb_prop in E as [Eab E]. apply Ascii.eqb_eq in Eab. subst b.
  rewrite app_cons. f_equal. now apply IH.
Qed.

Lemma startswith_no_char c p s :
  Py.has_char c p = true -> Py.has_char c s = false -> Py.startswith p s = false.
Proof.
  revert s. induction p as [|a p IH]; intros s; [discriminate|].
  destruct s as [|b s]; [reflexivity|]. cbn [Py.has_char Py.startswith].
  intros Hp Hs. apply orb_false_elim in Hs as [Hb Hs].
  destruct (Ascii.eqb a b) eqn:Eab; [|reflexivity]. apply Ascii.eqb_eq in Eab. subst b.
  rewrite Hb in Hp. cbn [orb andb] in *. now apply IH.
Qed.

Lemma lazy_close_app s inner rest :
  lazy_close s = Some (inner, rest) -> s = inner +:+ "</i>" +:+ rest.
Proof.
  revert inner. induction s as [|c s IH]; intros inner.
  - cbn. discriminate.
  - cbn [lazy_close]. destruct (Py.startswith "</i>" (String c s)) eqn:E.
    + intros [= <- <-]. now apply startswith_app in E.
    + destruct (Ascii.eqb c newline); [discriminate|].
      destruct (lazy_close s) as [[i r]|]; [|discriminate].
      intros [= <- <-]. rewrite app_cons. f_equal. now apply IH.
Qed.

Lemma match_italic_app s m rest : match_italic s = Some (m, rest) -> s = m +:+ rest.
Proof.
  unfold match_italic, italic_group. destruct (Py.startswith "<i>" s) eqn:E; [|discriminate].
  destruct (lazy_close (Py.drop 3 s)) as [[inner r]|] eqn:El; [|discriminate].
  intros [= <- <-]. apply startswith_app in E. apply lazy_close_app in El.
  cbn [String.length] in E. rewrite El in E. rewrite E at 1.
  now rewrite !app_assoc.
Qed.

Lemma split_italic_concat fuel s cur :
  fold_right append EmptyString (split_italic_fuel fuel s cur) = cur +:+ s.
Proof.
  revert s cur. induction fuel as [|k IH]; intros s cur; [cbn; now rewrite app_nil_r|].
  cbn [split_italic_fuel]. destruct s as [|c s]; [cbn; now rewrite !app_nil_r|].
  destruct (match_italic (String c s)) as [[m rest]|] eqn:E.
  - cbn [fold_right]. rewrite IH, app_nil_l. apply match_italic_app in E. now rewrite E.
  - rewrite IH, app_assoc. reflexivity.
Qed.

Lemma match_italic_plain s : Py.has_char "<" s = false -> match_italic s = None.
Proof.
  intros Hs. unfold match_italic, italic_group. now rewrite (startswith_no_char "<" "<i>" s).
Qed.

Lemma split_italic_plain fuel s cur :
  Py.has_char "<" s = false -> split_italic_fuel fuel s cur = [cur +:+ s].
Proof.
  revert s cur. induction fuel as [|k IH]; intros s cur Hs; [reflexivity|].
  cbn [split_italic_fuel]. destruct s as [|c s]; [now rewrite app_nil_r|].
  rewrite match_italic_plain by exact Hs.
  cbn [Py.has_char] in Hs. apply orb_false_elim in Hs as [_ Hs].
  rewrite IH by exact Hs. now rewrite app_assoc.
Qed.

Lemma lazy_close_plain (b c : string) :
  Py.has_char "<" b = false -> Py.has_char newline b = false ->
  lazy_close (b +:+ "</i>" +:+ c) = Some (b, c).
Proof.
  induction b as [|d b IH]; [reflexivity|].
  cbn [Py.has_char]. intros Hb Hn.
  apply orb_false_elim in Hb as [Hd Hb]. apply orb_false_elim in Hn as [Hdn Hn].
  rewrite app_cons. cbn [lazy_close].
  assert (E : Py.startswith "</i>" (String d (b +:+ "</i>" +:+ c)) = false).
  { cbn [Py.startswith]. now rewrite Hd. }
  rewrite E. rewrite Ascii.eqb_sym in Hdn. rewrite Hdn, IH by assumption. reflexivity.
Qed.

Lemma split_italic_one fuel (a b c cur : string) :
  Py.has_char "<" a = false -> Py.has_char "<" b = false ->
  Py.has_char newline b = false -> Py.has_char "<" c = false ->
  String.length a < fuel ->
  split_italic_fuel fuel (a +:+ "<i>" +:+ b +:+ "</i>" +:+ c) cur =
  [cur +:+ a; "<i>" +:+ b +:+ "</i>"; c].
Proof.
  revert a cur. induction fuel as [|k IH]; intros a cur Ha Hb Hn Hc Hlen; [lia|].
  destruct a as [|d a].
  - rewrite app_nil_l, app_nil_r.
    change ("<i>" +:+ b +:+ "</i>" +:+ c) with (String "<" ("i>" +:+ b +:+ "</i>" +:+ c)).
    cbn [split_italic_fuel].
    assert (E : match_italic (String "<" ("i>" +:+ b +:+ "</i>" +:+ c)) =
                Some ("<i>" +:+ b +:+ "</i>", c)).
    { unfold match_italic, italic_group. cbn [Py.startswith Py.drop].
      change (Py.drop 3 _) with (b +:+ "</i>" +:+ c).
      cbn. change (lazy_close _) with (lazy_close (b +:+ "</i>" +:+ c)).
      now rewrite lazy_close_plain. }
    rewrite E. now rewrite split_italic_plain, app_nil_l.
  - cbn [Py.has_char] in Ha. apply orb_false_elim in Ha as [Hd Ha].
    rewrite app_cons. cbn [split_italic_fuel].
    assert (E : match_italic (String d (a +:+ "<i>" +:+ b +:+ "</i>" +:+ c)) = None).
    { unfold match_italic, italic_group. cbn [Py.startswith]. now rewrite Hd. }
    rewrite E, IH; [now rewrite app_assoc | assumption.. | cbn in Hlen; lia].
Qed.

Lemma rstrip_nil f (s : string) : Py.rstrip_with f s = EmptyString -> str_all f s = true.
Proof.
  induction s as [|c s IH]; [reflexivity|]. cbn [Py.rstrip_with str_all].
  destruct (Py.rstrip_with f s); [|discriminate].
  destruct (f c); [intros _; now apply IH | discriminate].
Qed.

Lemma str_all_lstrip f (s : string) : str_all f (Py.lstrip_with f s) = str_all f s.
Proof.
  induction s as [|c s IH]; [reflexivity|]. cbn [Py.lstrip_with str_all].
  destruct (f c) eqn:E; [exact IH|]. cbn [str_all]. now rewrite E.
Qed.

Lemma strip_truthy (s : string) :
  str_all Py.is_space s = false -> Py.truthy (Some (Py.strip s)) = true.
Proof.
  intros Hs. destruct (Py.strip s) eqn:E; [|reflexivity].
  apply rstrip_nil in E. rewrite str_all_lstrip in E. congruence.
Qed.

Lemma drop_length_app (u v : string) : Py.drop (String.length u) (u +:+ v) = v.
Proof. induction u as [|c u IH]; [now destruct v | rewrite app_cons; exact IH]. Qed.

Lemma truthy_nonempty (s : string) : s <> EmptyString -> Py.truthy (Some s) = true.
Proof. destruct s; [congruence | reflexivity]. Qed.

(** X17: the parts a line is split into at its italic tags make up the
    line; a line without tags becomes one run with the line as its text; in
    a line with one italic part between two texts, the two texts are put in
    the first run and the italic part, without its tags, in an italic run
    after it. *)
Theorem reference_line_runs (line a b c : string) :
  fold_right append EmptyString (split_italic line) = line
  /\ (Py.has_char "<" line = false -> str_all Py.is_space line = false ->
      runs (create_reference_paragraph line) =
      [{| italic := false; run_texts := [line] |}])
  /\ (Py.has_char "<" a = false -> Py.has_char "<" b = false ->
      Py.has_char newline b = false -> Py.has_char "<" c = false ->
      a <> EmptyString -> c <> EmptyString ->
      runs (create_reference_paragraph (a +:+ "<i>" +:+ b +:+ "</i>" +:+ c)) =
      [{| italic := false; run_texts := [a; c] |};
       {| italic := true; run_texts := [b] |}]).
Proof.
  split; [apply split_italic_concat|]. split.
  - intros Hl Hs. unfold create_reference_paragraph, split_italic.
    rewrite strip_truthy by exact Hs.
    rewrite split_italic_plain, app_nil_l by exact Hl.
    assert (Hne : line <> EmptyString) by (intros ->; discriminate).
    cbn [place_parts]. rewrite truthy_nonempty by exact Hne. cbn [negb].
    rewrite (startswith_no_char "<" "<i>" line) by (reflexivity || exact Hl).
    reflexivity.
  - intros Ha Hb Hn Hc Hane Hcne.
    unfold create_reference_paragraph, split_italic.
    rewrite strip_truthy
      by (rewrite !str_all_app; cbn; now rewrite andb_false_r).
    rewrite split_italic_one, app_nil_l
      by (try assumption; rewrite !length_app; cbn [String.length]; lia).
    cbn [place_parts].
    rewrite (truthy_nonempty a Hane), (truthy_nonempty c Hcne). cbn [negb].
    rewrite (startswith_no_char "<" "<i>" a), (startswith_no_char "<" "<i>" c)
      by (reflexivity || assumption).
    cbn [andb app].
    assert (Eend : endswith "</i>" ("<i>" +:+ b +:+ "</i>") = true).
    { unfold endswith. rewrite <- app_assoc, length_app.
      rewrite Nat.add_sub, drop_length_app. reflexivity. }
    assert (Einner : Py.slice 3 (String.length ("<i>" +:+ b +:+ "</i>") - 4)
                       ("<i>" +:+ b +:+ "</i>") = b).
    { unfold Py.slice. rewrite !length_app. cbn [String.length Py.drop].
      change (Py.drop 3 _) with (b +:+ "</i>").
      replace (3 + (String.length b + 4) - 4 - 3) with (String.length b) by lia.
      apply take_app. }
    change (Py.truthy (Some ("<i>" +:+ b +:+ "</i>"))) with true.
    change (Py.startswith "<i>" ("<i>" +:+ b +:+ "</i>")) with true.
    cbn [negb andb]. rewrite Eend, Einner. reflexivity.
Qed.

End ItalicFacts.

End ReferenceListFacts.

(** ** The relationships: loading and saving *)

Section RelationshipsFacts.
Import Links.

Section SortFacts.
Context {A : Type} (lt : A -> A -> bool).

Lemma insert_by_perm x l : Permutation (insert_by lt x l) (x :: l).
Proof.
  induction l as [|y l IH]; [reflexivity|]. cbn [insert_by].
  destruct (lt x y); [reflexivity|]. rewrite IH. apply perm_swap.
Qed.

Lemma sorted_perm_acc l acc :
  Permutation (fold_left (fun acc x => insert_by lt x acc) l acc) (l ++ acc).
Proof.
  revert acc. induction l as [|x l IH]; intros acc; [reflexivity|].
  cbn [fold_left]. rewrite IH, insert_by_perm. symmetry. apply Permutation_middle.
Qed.

Lemma sorted_perm l : Permutation (sorted lt l) l.
Proof. unfold sorted. rewrite sorted_perm_acc. now rewrite List.app_nil_r. Qed.

End SortFacts.

Section NumberFacts.

Lemma int_digits_uint (d : Decimal.uint) (acc : nat) :
  Py.int_digits (DecimalString.NilEmpty.string_of_uint d) (Z.of_nat acc) true =
  Some (Z.of_nat (Nat.of_uint_acc d acc)).
Proof.
  revert acc. induction d; intros acc; [reflexivity|..];
    cbn [DecimalString.NilEmpty.string_of_uint Py.int_digits Nat.of_uint_acc];
    change (Py.is_digit _) with true; cbv iota;
    rewrite <- IHd; f_equal; rewrite ?Nat.tail_mul_spec.
  all: match goal with
       | |- context [nat_of_ascii ?c - 48] =>
           let v := eval vm_compute in (nat_of_ascii c - 48) in
           change (nat_of_ascii c - 48) with v
       end; lia.
Qed.

Lemma to_little_uint_nonempty n acc :
  acc <> Decimal.Nil -> Nat.to_little_uint n acc <> Decimal.Nil.
Proof.
  revert acc. induction n as [|n IH]; intros acc Hacc; [exact Hacc|].
  cbn [Nat.to_little_uint]. apply IH. destruct acc; discriminate.
Qed.

Lemma revapp_nonempty d d' : d' <> Decimal.Nil -> Decimal.revapp d d' <> Decimal.Nil.
Proof.
  revert d'. induction d; intros d' Hd'; [exact Hd'|..]; cbn [Decimal.revapp];
    apply IHd; discriminate.
Qed.

Lemma revapp_nonempty_l d d' : d <> Decimal.Nil -> Decimal.revapp d d' <> Decimal.Nil.
Proof.
  destruct d; [congruence|..]; intros _; cbn [Decimal.revapp];
    apply revapp_nonempty; discriminate.
Qed.

Lemma to_uint_nonempty n : Nat.to_uint n <> Decimal.Nil.
Proof.
  unfold Nat.to_uint, Decimal.rev. apply revapp_nonempty_l, to_little_uint_nonempty.
  discriminate.
Qed.

Lemma uint_digits d : str_all Py.is_digit (DecimalString.NilEmpty.string_of_uint d) = true.
Proof. induction d; [reflexivity|..]; cbn [DecimalString.NilEmpty.string_of_uint str_all]; exact IHd. Qed.

Lemma strip_digits s :
  str_all Py.is_digit s = true ->
  Py.rstrip_with Py.is_int_space (Py.lstrip_with Py.is_int_space s) = s.
Proof.
  intros Hs.
  assert (Hl : Py.lstrip_with Py.is_int_space s = s).
  { destruct s as [|c s]; [reflexivity|]. cbn [str_all] in Hs.
    apply andb_prop in Hs as [Hc _]. cbn [Py.lstrip_with].
    now rewrite (digit_not_int_space _ Hc). }
  rewrite Hl. apply rstrip_none.
  clear Hl. induction s as [|c s IH]; [reflexivity|]. cbn [str_all] in *.
  apply andb_prop in Hs as [Hc Hs]. rewrite (digit_not_int_space _ Hc). now apply IH.
Qed.

Lemma int_str_of_nat (n : nat) : Py.int (Py.str_of_nat n) = Some (Z.of_nat n).
Proof.
  unfold Py.int, Py.str_of_nat. rewrite strip_digits by apply uint_digits.
  pose proof (to_uint_nonempty n) as Hne.
  pose proof (DecimalNat.Unsigned.of_to n) as Hof. unfold Nat.of_uint in Hof.
  pose proof (int_digits_uint (Nat.to_uint n) 0) as Hd. rewrite Hof in Hd.
  destruct (Nat.to_uint n) as [|d|d|d|d|d|d|d|d|d|d]; [congruence|..];
    cbn [DecimalString.NilEmpty.string_of_uint] in *;
    cbn [Py.int_digits] in Hd |- *;
    change (Py.is_digit _) with true in *; cbv iota in *; exact Hd.
Qed.

End NumberFacts.

Section LoadFacts.


Lemma load_entry_relationships r e :
  relationships (load_entry r e) = <[e_id e := rel_of e]> (relationships r).
Proof. reflexivity. Qed.

Lemma load_entry_next_id r e n :
  next_id r <= next_id (load_entry r e)
  /\ (e_id e = rid n -> n < next_id (load_entry r e)).
Proof.
  unfold load_entry; cbn [next_id]. split.
  - destruct (Py.startswith "rId" (e_id e)); [|lia].
    destruct (Py.int _) as [num|]; [|lia].
    destruct (Z.leb_spec (Z.of_nat (next_id r)) num); lia.
  - intros ->. change (Py.startswith "rId" (rid n)) with true. cbv iota.
    change (Py.drop 3 (rid n)) with (Py.str_of_nat n). rewrite int_str_of_nat.
    destruct (Z.leb_spec (Z.of_nat (next_id r)) (Z.of_nat n)); lia.
Qed.

Lemma load_entry_free r e : ids_free r -> ids_free (load_entry r e).
Proof.
  intros Hf n Hn. rewrite load_entry_relationships.
  destruct (load_entry_next_id r e n) as [Hmono Hid].
  rewrite lookup_insert_ne; [apply Hf; lia|].
  intros E. apply Hid in E. lia.
Qed.

Lemma load_from_free entries r : ids_free r -> ids_free (fold_left load_entry entries r).
Proof.
  revert r. induction entries as [|e entries IH]; intros r Hr; [exact Hr|].
  cbn [fold_left]. apply IH, load_entry_free, Hr.
Qed.

Lemma load_entry_ok r e :
  rels_ok r -> relationships r !! e_id e = None -> rels_ok (load_entry r e).
Proof.
  intros [Hu Hn] Hnew. split.
  - intros u id. rewrite load_entry_relationships. unfold load_entry; cbn [url_to_rid].
    assert (Hold : url_to_rid r !! u = Some id ->
                   exists rel, <[e_id e := rel_of e]> (relationships r) !! id = Some rel /\
                               target rel = u).
    { intros Hid. destruct (Hu _ _ Hid) as (rel & Hrel & Ht). exists rel.
      split; [|exact Ht]. rewrite lookup_insert_ne; [exact Hrel | congruence]. }
    destruct (String.eqb (e_type e) HYPERLINK_TYPE); [|exact Hold].
    destruct (decide (u = e_target e)) as [->|Hne].
    + rewrite lookup_insert_eq. intros [= <-]. exists (rel_of e).
      now rewrite lookup_insert_eq.
    + rewrite lookup_insert_ne by congruence. exact Hold.
  - apply load_entry_free. exact Hn.
Qed.

Lemma load_from_ok entries r :
  rels_ok r ->
  (forall e, In e entries -> relationships r !! e_id e = None) ->
  NoDup (map e_id entries) ->
  rels_ok (fold_left load_entry entries r).
Proof.
  revert r. induction entries as [|e entries IH]; intros r Hr Hnew Hnd; [exact Hr|].
  cbn [fold_left]. cbn [map] in Hnd. apply NoDup_cons in Hnd as [Hnotin Hnd].
  apply IH; [apply load_entry_ok; [exact Hr | apply Hnew; now left]| |exact Hnd].
  intros e' He'. rewrite load_entry_relationships, lookup_insert_ne.
  - apply Hnew. now right.
  - intros E. apply Hnotin. rewrite E. apply list_elem_of_In, in_map, He'.
Qed.

Lemma add_hyperlink_keeps r url id rel :
  ids_free r ->
  relationships r !! id = Some rel ->
  relationships (add_hyperlink r url).2 !! id = Some rel.
Proof.
  intros Hf Hid. unfold add_hyperlink.
  destruct (url_to_rid r !! url); cbn [snd relationships]; [exact Hid|].
  rewrite lookup_insert_ne; [exact Hid|].
  intros <-. rewrite Hf in Hid by lia. discriminate.
Qed.

(** X20: after loading a relationships part, no id from the next id on is
    in use, and adding a hyperlink keeps every relationship loaded; when the
    ids of the part are distinct the manager is well formed. *)
Theorem loaded_ids_are_never_reused (entries : list RelEntry) (url : string) :
  (forall n, next_id (load entries) <= n -> relationships (load entries) !! rid n = None)
  /\ (forall id rel,
        relationships (load entries) !! id = Some rel ->
        relationships (add_hyperlink (load entries) url).2 !! id = Some rel)
  /\ (NoDup (map e_id entries) -> rels_ok (load entries)).
Proof.
  assert (Hf : ids_free (load entries)).
  { apply load_from_free. intros n _. apply lookup_empty. }
  split; [exact Hf|]. split; [intros id rel; now apply add_hyperlink_keeps|].
  intros Hnd. apply load_from_ok; [apply empty_rels_ok | intros; apply lookup_empty | exact Hnd].
Qed.

Lemma load_from_lookup_other entries r k :
  (forall e, In e entries -> e_id e <> k) ->
  relationships (fold_left load_entry entries r) !! k = relationships r !! k.
Proof.
  revert r. induction entries as [|e entries IH]; intros r Hk; [reflexivity|].
  cbn [fold_left]. rewrite IH by (intros e' He'; apply Hk; now right).
  rewrite load_entry_relationships, lookup_insert_ne; [reflexivity|]. apply Hk. now left.
Qed.

Lemma load_from_lookup entries r e :
  NoDup (map e_id entries) -> In e entries ->
  relationships (fold_left load_entry entries r) !! e_id e = Some (rel_of e).
Proof.
  revert r. induction entries as [|e0 entries IH]; intros r Hnd Hin; [destruct Hin|].
  destruct Hin as [<- | Hin].
  - cbn [fold_left map] in *. apply NoDup_cons in Hnd as [Hnotin _].
    rewrite load_from_lookup_other.
    + rewrite load_entry_relationships. apply lookup_insert_eq.
    + intros e' He' E. apply Hnotin. rewrite <- E. apply list_elem_of_In, in_map, He'.
  - cbn [fold_left map] in *. apply NoDup_cons in Hnd as [_ Hnd]. now apply IH.
Qed.

Lemma save_entries_ids r :
  Permutation (map e_id (save_entries r)) (map fst (map_to_list (relationships r))).
Proof.
  unfold save_entries. rewrite map_map. cbn [e_id].
  apply Permutation_map, sorted_perm.
Qed.

Lemma save_entries_In r e :
  In e (save_entries r) <-> relationships r !! e_id e = Some (rel_of e).
Proof.
  unfold save_entries. rewrite in_map_iff. split.
  - intros ([k rel] & <- & Hin). cbn [fst snd e_id].
    eapply Permutation_in in Hin; [|apply sorted_perm].
    apply list_elem_of_In, elem_of_map_to_list in Hin. rewrite Hin. f_equal.
    unfold rel_of; cbn. destruct rel as [t tg [|c m]]; reflexivity.
  - intros Hk. exists (e_id e, rel_of e). split.
    + destruct e as [i t tg [|c m]]; reflexivity.
    + eapply Permutation_in; [symmetry; apply sorted_perm|].
      apply list_elem_of_In, elem_of_map_to_list. exact Hk.
Qed.

(** X21: the elements [save] writes have distinct ids, and loading them
    gives back the relationships saved, in a well-formed manager. *)
Theorem saved_relationships_reload (r : RelsManager) :
  relationships (load (save_entries r)) = relationships r
  /\ NoDup (map e_id (save_entries r))
  /\ rels_ok (load (save_entries r)).
Proof.
  assert (Hnd : NoDup (map e_id (save_entries r))).
  { rewrite save_entries_ids. apply NoDup_fst_map_to_list. }
  split; [|split; [exact Hnd|]].
  - apply map_eq. intros k. unfold load.
    destruct (relationships r !! k) as [rel|] eqn:Ek.
    + set (e := {| e_id := k; e_type := rel_type rel; e_target := target rel;
                   e_mode := mode rel |}).
      assert (Hin : In e (save_entries r)).
      { apply save_entries_In. cbn. rewrite Ek. now destruct rel. }
      rewrite (load_from_lookup _ _ e Hnd Hin). now destruct rel.
    + rewrite load_from_lookup_other; [apply lookup_empty|].
      intros e He <-. apply save_entries_In in He. congruence.
  - apply load_from_ok; [apply empty_rels_ok | intros; apply lookup_empty | exact Hnd].
Qed.

End LoadFacts.

End RelationshipsFacts.

(** ** The link activator: text and targets *)

Section ActivationFacts.
Import Links.

Section SliceFacts.

Lemma take_length n (s : string) : String.length (Py.take n s) = Nat.min n (String.length s).
Proof.
  revert s. induction n as [|n IH]; intros [|c s]; cbn [Py.take String.length]; try reflexivity.
  rewrite IH. reflexivity.
Qed.

Lemma take_all n (s : string) : String.length s <= n -> Py.take n s = s.
Proof.
  revert s. induction n as [|n IH]; intros [|c s]; cbn [Py.take String.length]; intros Hn;
    try reflexivity; [lia|]. rewrite IH by lia. reflexivity.
Qed.

Lemma take_drop n (s : string) : Py.take n s +:+ Py.drop n s = s.
Proof.
  revert s. induction n as [|n IH]; intros [|c s]; cbn [Py.take Py.drop]; try reflexivity.
  rewrite app_cons, IH. reflexivity.
Qed.

Lemma drop_length n (s : string) : String.length (Py.drop n s) = String.length s - n.
Proof.
  revert s. induction n as [|n IH]; intros [|c s]; cbn [Py.drop String.length]; try reflexivity.
  apply IH.
Qed.

Lemma take_take n m (s : string) : Py.take n (Py.take m s) = Py.take (Nat.min n m) s.
Proof.
  revert m s. induction n as [|n IH]; intros [|m] [|c s]; cbn [Py.take Nat.min]; try reflexivity.
  now rewrite IH.
Qed.

Lemma take_nil n : Py.take n EmptyString = EmptyString.
Proof. now destruct n. Qed.

(** [s[:a] + s[a:b] = s[:b]] *)
Lemma take_slice a b (s : string) :
  a <= b -> Py.take a s +:+ Py.slice a b s = Py.take b s.
Proof.
  unfold Py.slice. revert b s. induction a as [|a IH]; intros b s Hab.
  - cbn [Py.take Py.drop]. destruct s; now rewrite app_nil_l, Nat.sub_0_r.
  - destruct b as [|b]; [lia|].
    destruct s as [|c s]; [cbn [Py.take Py.drop]; now rewrite take_nil|].
    cbn [Py.take Py.drop]. rewrite app_cons. f_equal.
    replace (S b - S a) with (b - a) by lia. apply IH. lia.
Qed.

Lemma rstrip_prefix f (s : string) :
  Py.take (String.length (Py.rstrip_with f s)) s = Py.rstrip_with f s.
Proof.
  induction s as [|c s IH]; [reflexivity|]. cbn [Py.rstrip_with].
  destruct (Py.rstrip_with f s) as [|d r] eqn:E.
  - destruct (f c); reflexivity.
  - cbn [String.length Py.take] in *. now rewrite IH.
Qed.

End SliceFacts.

Section SpanFacts.

Lemma spans_ok_weaken lo lo' hi spans : lo' <= lo -> spans_ok lo hi spans -> spans_ok lo' hi spans.
Proof. destruct spans as [|[a b] rest]; [auto|]. cbn. intros; intuition lia. Qed.

Lemma finditer_spans_ok fuel ic e pos s :
  spans_ok pos (pos + String.length s) (finditer_fuel fuel ic e pos s).
Proof.
  revert pos s. induction fuel as [|k IH]; intros pos s; [exact I|].
  cbn [finditer_fuel].
  assert (Hnext : spans_ok pos (pos + String.length s)
            match s with
            | EmptyString => []
            | String _ s' => finditer_fuel k ic e (S pos) s'
            end).
  { destruct s as [|c s']; [exact I|].
    apply (spans_ok_weaken (S pos)); [lia|].
    replace (pos + String.length (String c s')) with (S pos + String.length s')
      by (cbn [String.length]; lia).
    apply IH. }
  destruct (match_ ic e s) as [[g r]|]; [|exact Hnext].
  destruct (String.length s - String.length r) as [|n] eqn:En.
  - cbn [spans_ok]. repeat split; try lia. exact Hnext.
  - cbn [spans_ok]. repeat split; try lia.
    replace (pos + String.length s) with (pos + S n + String.length r) by lia.
    apply IH.
Qed.

End SpanFacts.

Section TextFacts.

Lemma texts_read_app (a b : list Child) :
  texts_read (a ++ b) = texts_read a +:+ texts_read b.
Proof.
  induction a as [|c a IH]; [reflexivity|].
  cbn [app texts_read fold_right]. fold (texts_read (a ++ b)).
  fold (texts_read a). now rewrite IH, app_assoc.
Qed.

Lemma relationship_id_fst st u : exists id st', relationship_id st u = (id, st').
Proof. destruct (relationship_id st u); eauto. Qed.

Lemma process_matches_text text spans last_end st acc :
  spans_ok last_end (String.length text) spans ->
  last_end <= String.length text ->
  texts_read acc = Py.take last_end text ->
  let '(last_end', _, acc') := process_matches text spans last_end st acc in
  last_end' <= String.length text /\ texts_read acc' = Py.take last_end' text.
Proof.
  revert last_end st acc. induction spans as [|[a b] spans IH]; intros last_end st acc Hs Hl Hacc.
  - cbn. auto.
  - cbn [process_matches]. destruct Hs as (Hla & Hab & Hb & Hs).
    set (url := Py.slice a b text).
    set (clean_url := clean url).
    assert (Hurl : String.length url = b - a).
    { unfold url, Py.slice. rewrite take_length, drop_length. lia. }
    assert (Hclean : String.length clean_url <= b - a).
    { rewrite <- Hurl. apply rstrip_length. }
    assert (Hend : b - String.length (Py.drop (String.length clean_url) url)
                   = a + String.length clean_url).
    { rewrite drop_length. lia. }
    rewrite Hend.
    assert (Hpre : Py.take a text +:+ clean_url = Py.take (a + String.length clean_url) text).
    { rewrite <- (take_slice a (a + String.length clean_url)) by lia. f_equal.
      unfold Py.slice. replace (a + String.length clean_url - a) with (String.length clean_url) by lia.
      unfold clean_url, clean. rewrite <- (rstrip_prefix trailing_punct_char url) at 1.
      fold (clean url). fold clean_url. unfold url, Py.slice.
      rewrite take_take. f_equal. lia. }
    destruct (relationship_id st clean_url) as [r_id st'].
    apply IH.
    + apply (spans_ok_weaken b); [lia | exact Hs].
    + lia.
    + rewrite texts_read_app. cbn [texts_read fold_right text_read].
      rewrite app_nil_r, <- Hpre. f_equal.
      destruct (last_end <? a) eqn:El.
      * rewrite texts_read_app, Hacc. cbn [texts_read fold_right text_read Py.str_of default].
        rewrite app_nil_r. apply take_slice. lia.
      * apply Nat.ltb_ge in El. rewrite Hacc. f_equal. lia.
Qed.

Lemma process_text_read st child :
  texts_read (process_child st child).2 = text_read child.
Proof.
  assert (Hsame : texts_read [child] = text_read child) by apply app_nil_r.
  destruct child as [[[|c t]|]| |]; try exact Hsame.
  unfold process_child. set (text := String c t).
  unfold finditer.
  pose proof (finditer_spans_ok (S (String.length text)) false URL_PATTERN 0 text) as Hs.
  destruct (finditer_fuel _ _ _ _ _) as [|m spans] eqn:Ef; [exact Hsame|].
  pose proof (process_matches_text text (m :: spans) 0 st [] Hs (Nat.le_0_l _) eq_refl) as Hm.
  destruct (process_matches text (m :: spans) 0 st []) as [[last_end st'] new_elements].
  destruct Hm as [Hle Htext]. cbn [snd].
  destruct (last_end <? String.length text) eqn:El.
  - rewrite texts_read_app, Htext. cbn [texts_read fold_right text_read Py.str_of default].
    rewrite app_nil_r. apply take_drop.
  - apply Nat.ltb_ge in El. rewrite Htext. apply take_all. exact El.
Qed.

Lemma process_texts_read st para :
  texts_read (_process_paragraph st para).2 = texts_read para.
Proof.
  revert st. induction para as [|child para IH]; intros st; [reflexivity|].
  cbn [_process_paragraph].
  pose proof (process_text_read st child) as Hc.
  destruct (process_child st child) as [st1 elems]. cbn [snd] in Hc.
  specialize (IH st1). destruct (_process_paragraph st1 para) as [st2 elems'].
  cbn [snd] in *. rewrite texts_read_app, Hc, IH. reflexivity.
Qed.

Lemma process_paragraphs_text st paras :
  map texts_read (process_paragraphs st paras).2 = map texts_read paras.
Proof.
  revert st. induction paras as [|para paras IH]; intros st; [reflexivity|].
  cbn [process_paragraphs].
  pose proof (process_texts_read st para) as Hp.
  destruct (_process_paragraph st para) as [st1 para']. cbn [snd] in Hp.
  specialize (IH st1). destruct (process_paragraphs st1 paras) as [st2 rest'].
  cbn [snd map] in *. now rewrite Hp, IH.
Qed.

(** X22: activating the links of a run keeps the text it reads, which is
    the first text element of the run: the texts of the runs and hyperlinks
    the run becomes make up that text, nothing of it being lost, repeated or
    moved; and so the texts read from every paragraph of a part are
    unchanged. *)
Theorem link_activation_keeps_the_text (entries : list RelEntry) (paras : list (list Child))
    (st : link_state) (text : option string) :
  texts_read (process_child st (Run text)).2 = Py.str_of text
  /\ map texts_read (process_part entries paras).2 = map texts_read paras.
Proof.
  split; [apply (process_text_read st (Run text))|].
  unfold process_part.
  pose proof (process_paragraphs_text (load entries, ∅) paras) as Hp.
  destruct (process_paragraphs (load entries, ∅) paras) as [st' paras']. exact Hp.
Qed.

End TextFacts.

Section MatchFacts.

Lemma drop_drop n m (s : string) : Py.drop n (Py.drop m s) = Py.drop (m + n) s.
Proof.
  revert s. induction m as [|m IH]; intros s; [reflexivity|].
  destruct s as [|c s]; [now destruct n|]. cbn [Py.drop Nat.add]. apply IH.
Qed.

Lemma drop_app_plus m (u r : string) : Py.drop (String.length u + m) (u +:+ r) = Py.drop m r.
Proof. rewrite <- drop_drop, drop_length_app. reflexivity. Qed.

Lemma match_suffix ic e s g r :
  match_ ic e s = Some (g, r) ->
  exists u, s = u +:+ r /\ matches ic e u r None g.
Proof.
  unfold match_. intros E. apply head_Some_elem_of in E.
  apply list_elem_of_In, run_matches in E. exact E.
Qed.

Lemma finditer_match fuel ic e pos s a b :
  In (a, b) (finditer_fuel fuel ic e pos s) ->
  pos <= a /\
  exists u r g, Py.drop (a - pos) s = u +:+ r /\ b = a + String.length u /\
                matches ic e u r None g.
Proof.
  revert pos s. induction fuel as [|k IH]; intros pos s; [intros []|].
  cbn [finditer_fuel].
  assert (Hnext : In (a, b) match s with
                            | EmptyString => []
                            | String _ s' => finditer_fuel k ic e (S pos) s'
                            end ->
                  pos <= a /\
                  exists u r g, Py.drop (a - pos) s = u +:+ r /\ b = a + String.length u /\
                                matches ic e u r None g).
  { destruct s as [|c s']; [intros []|]. intros Hin.
    apply IH in Hin as (Hle & u & r & g & Hd & Hb & Hm).
    split; [lia|]. exists u, r, g. split; [|auto].
    replace (a - pos) with (S (a - S pos)) by lia. exact Hd. }
  destruct (match_ ic e s) as [[g r]|] eqn:Em; [|exact Hnext].
  apply match_suffix in Em as (u & Hs & Hm).
  assert (Hn : String.length s - String.length r = String.length u)
    by (rewrite Hs, length_app; lia).
  rewrite Hn.
  assert (Hhead : (a, b) = (pos, pos + String.length u) ->
                  pos <= a /\
                  exists u r g, Py.drop (a - pos) s = u +:+ r /\ b = a + String.length u /\
                                matches ic e u r None g).
  { intros [= -> ->]. split; [lia|]. exists u, r, g.
    rewrite Nat.sub_diag. cbn [Py.drop]. destruct s; auto. }
  destruct (String.length u) as [|n] eqn:Eu.
  - intros [E | Hin]; [|now apply Hnext].
    apply Hhead. rewrite <- E. f_equal. lia.
  - intros [E | Hin]; [apply Hhead; now rewrite <- E|].
    apply IH in Hin as (Hle & u' & r' & g' & Hd & Hb & Hm').
    split; [lia|]. exists u', r', g'. split; [|auto].
    rewrite Hs. replace (a - pos) with (String.length u + (a - (pos + S n))) by lia.
    rewrite drop_app_plus. exact Hd.
Qed.

Lemma lit_eq_exact w u : lit_eq false w u = true -> u = w.
Proof.
  revert u. induction w as [|a w IH]; intros [|c u]; cbn [lit_eq]; try discriminate; [reflexivity|].
  intros E. apply andb_prop in E as [Ec E]. unfold chr_eq in Ec.
  apply Ascii.eqb_eq in Ec. subst c. f_equal. now apply IH.
Qed.

Lemma startswith_prefix p s : Py.startswith p (p +:+ s) = true.
Proof.
  induction p as [|a p IH]; [now destruct s|]. rewrite app_cons. cbn [Py.startswith].
  now rewrite Ascii.eqb_refl, IH.
Qed.

Lemma rstrip_cons f (c : ascii) (s : string) :
  Py.rstrip_with f (String c s) =
  match Py.rstrip_with f s with
  | EmptyString => if f c then EmptyString else String c EmptyString
  | r => String c r
  end.
Proof. reflexivity. Qed.

Lemma rstrip_twice f (s : string) :
  Py.rstrip_with f (Py.rstrip_with f s) = Py.rstrip_with f s.
Proof.
  induction s as [|c s IH]; [reflexivity|]. rewrite rstrip_cons.
  destruct (Py.rstrip_with f s) as [|d r] eqn:E.
  - destruct (f c) eqn:Ec; [reflexivity|]. cbn [Py.rstrip_with]. now rewrite Ec.
  - rewrite rstrip_cons, IH. reflexivity.
Qed.

Lemma url_match_target (u r : string) g :
  matches false URL_PATTERN u r None g -> is_link_target (clean u) = true.
Proof.
  intros (u1 & x1 & g1 & -> & (_ & H1) & u2 & x2 & g2 & -> & H2 & u3 & u4 & g3 & -> &
          (_ & H3) & _ & Hne & H4).
  apply lit_eq_exact in H1, H3. subst u1 u3.
  unfold is_link_target, clean. rewrite rstrip_twice, String.eqb_refl, andb_true_r.
  assert (Hp : forall p, Py.rstrip_with trailing_punct_char p = p ->
                 Py.startswith p (Py.rstrip_with trailing_punct_char (p +:+ u4)) = true).
  { intros p Hp. rewrite rstrip_app.
    destruct (Py.rstrip_with trailing_punct_char u4).
    - rewrite Hp. rewrite <- (app_nil_r p) at 2. apply startswith_prefix.
    - apply startswith_prefix. }
  destruct H2 as [(_ & c & -> & Hc) | (-> & _)].
  - apply Ascii.eqb_eq in Hc. subst c.
    change ("http" +:+ String "s" EmptyString +:+ "://" +:+ u4) with ("https://" +:+ u4).
    rewrite (Hp "https://") by reflexivity. apply orb_true_r.
  - change ("http" +:+ EmptyString +:+ "://" +:+ u4) with ("http://" +:+ u4).
    now rewrite (Hp "http://") by reflexivity.
Qed.

Lemma finditer_url_target text a b :
  In (a, b) (finditer false URL_PATTERN text) ->
  is_link_target (clean (Py.slice a b text)) = true.
Proof.
  unfold finditer. intros Hin.
  apply finditer_match in Hin as (_ & u & r & g & Hd & -> & Hm).
  rewrite Nat.sub_0_r in Hd. unfold Py.slice.
  replace (a + String.length u - a) with (String.length u) by lia.
  rewrite Hd, take_app. eapply url_match_target, Hm.
Qed.

End MatchFacts.

Section ResolveFacts.


Lemma grows_refl r : grows r r.
Proof. intros id rel E. exact E. Qed.

Lemma grows_trans r1 r2 r3 : grows r1 r2 -> grows r2 r3 -> grows r1 r3.
Proof. intros H12 H23 id rel E. auto. Qed.

Lemma resolves_grows r r' id t : grows r r' -> resolves r id t -> resolves r' id t.
Proof. intros Hg (rel & E & Ht). exists rel. auto. Qed.

Lemma links_ok_grows r r' old elems : grows r r' -> links_ok r old elems -> links_ok r' old elems.
Proof.
  intros Hg Hl id t Hin. destruct (Hl id t Hin) as [Hold | [Ht Hr]]; [now left|].
  right. split; [exact Ht | eapply resolves_grows; eauto].
Qed.

Lemma links_ok_app r old a b : links_ok r old a -> links_ok r old b -> links_ok r old (a ++ b).
Proof. intros Ha Hb id t Hin. apply in_app_or in Hin as [Hin | Hin]; auto. Qed.

Lemma add_hyperlink_grows r url : rels_ok r -> grows r (add_hyperlink r url).2.
Proof.
  intros [_ Hf] id rel Hid. unfold add_hyperlink.
  destruct (url_to_rid r !! url); cbn [snd relationships]; [exact Hid|].
  rewrite lookup_insert_ne; [exact Hid|].
  intros <-. rewrite Hf in Hid by lia. discriminate.
Qed.

Lemma relationship_id_resolves st u :
  link_ok st ->
  link_ok (relationship_id st u).2 /\
  grows st.1 (relationship_id st u).2.1 /\
  resolves (relationship_id st u).2.1 (relationship_id st u).1 u.
Proof.
  intros Hok. destruct (relationship_id_ok st u Hok) as (Hok' & Hc & _).
  split; [exact Hok'|]. split.
  - unfold relationship_id. destruct (st.2 !! u); [apply grows_refl|].
    pose proof (add_hyperlink_grows st.1 u (proj1 Hok)) as Hg.
    destruct (add_hyperlink st.1 u). exact Hg.
  - destruct Hok' as [[Hu _] Hcache]. apply Hu, Hcache, Hc.
Qed.

Lemma process_matches_links text spans last_end st old acc :
  link_ok st ->
  links_ok st.1 old acc ->
  (forall a b, In (a, b) spans -> is_link_target (clean (Py.slice a b text)) = true) ->
  let '(_, st', acc') := process_matches text spans last_end st acc in
  link_ok st' /\ grows st.1 st'.1 /\ links_ok st'.1 old acc'.
Proof.
  revert last_end st acc.
  induction spans as [|[a b] spans IH]; intros last_end st acc Hok Hacc Hspans.
  - cbn. split; [exact Hok|]. split; [apply grows_refl | exact Hacc].
  - cbn [process_matches].
    destruct (relationship_id_resolves st (clean (Py.slice a b text)) Hok) as (Hok' & Hg & Hr).
    destruct (relationship_id st (clean (Py.slice a b text))) as [r_id st'] eqn:Er.
    cbn [fst snd] in Hok', Hg, Hr.
    match goal with
    | |- context [process_matches text spans ?le st' ?acc'] =>
        specialize (IH le st' acc' Hok')
    end.
    destruct (process_matches text spans _ st' _) as [[le' st''] acc''].
    destruct IH as (Hok'' & Hg' & Hl'').
    + apply links_ok_app.
      * eapply links_ok_grows; [exact Hg|].
        destruct (last_end <? a); [|exact Hacc].
        apply links_ok_app; [exact Hacc|]. intros id t [E | []]. discriminate.
      * intros id t [[= <- <-] | []]. right. split; [|exact Hr].
        apply Hspans. now left.
    + intros a' b' Hin. apply Hspans. now right.
    + split; [exact Hok''|]. split; [eapply grows_trans; eauto | exact Hl''].
Qed.

Lemma process_child_links st child :
  link_ok st ->
  link_ok (process_child st child).1 /\
  grows st.1 (process_child st child).1.1 /\
  links_ok (process_child st child).1.1 [child] (process_child st child).2.
Proof.
  intros Hok.
  assert (Hsame : link_ok (st, [child]).1 /\ grows st.1 (st, [child]).1.1 /\
                  links_ok (st, [child]).1.1 [child] (st, [child]).2).
  { cbn [fst snd]. split; [exact Hok|]. split; [apply grows_refl|].
    intros id t Hin. now left. }
  destruct child as [[[|c t]|]| |]; try exact Hsame.
  unfold process_child. set (text := String c t).
  destruct (finditer false URL_PATTERN text) as [|m spans] eqn:Ef; [exact Hsame|].
  pose proof (process_matches_links text (m :: spans) 0 st [Run (Some text)] [] Hok) as Hm.
  destruct (process_matches text (m :: spans) 0 st []) as [[last_end st'] new_elements].
  destruct Hm as (Hok' & Hg & Hl).
  - intros id u [].
  - intros a b Hin. apply finditer_url_target. now rewrite Ef.
  - cbn [fst snd]. split; [exact Hok'|]. split; [exact Hg|].
    destruct (last_end <? String.length text); [|exact Hl].
    apply links_ok_app; [exact Hl|]. intros id u [E | []]. discriminate.
Qed.

Lemma links_ok_old r old old' elems :
  (forall c, In c old -> In c old') -> links_ok r old elems -> links_ok r old' elems.
Proof. intros Hsub Hl id t Hin. destruct (Hl id t Hin); auto. Qed.

Lemma process_paragraph_links st para :
  link_ok st ->
  link_ok (_process_paragraph st para).1 /\
  grows st.1 (_process_paragraph st para).1.1 /\
  links_ok (_process_paragraph st para).1.1 para (_process_paragraph st para).2.
Proof.
  revert st. induction para as [|child para IH]; intros st Hok.
  - cbn. split; [exact Hok|]. split; [apply grows_refl | intros id t []].
  - cbn [_process_paragraph].
    destruct (process_child_links st child Hok) as (Hok1 & Hg1 & Hl1).
    destruct (process_child st child) as [st1 elems]. cbn [fst snd] in *.
    destruct (IH st1 Hok1) as (Hok2 & Hg2 & Hl2).
    destruct (_process_paragraph st1 para) as [st2 elems']. cbn [fst snd] in *.
    split; [exact Hok2|]. split; [eapply grows_trans; eauto|].
    apply links_ok_app.
    + eapply links_ok_grows; [exact Hg2|].
      eapply links_ok_old; [|exact Hl1]. intros c [<- | []]. now left.
    + eapply links_ok_old; [|exact Hl2]. intros c Hc. now right.
Qed.

Lemma process_paragraphs_links st paras :
  link_ok st ->
  link_ok (process_paragraphs st paras).1 /\
  grows st.1 (process_paragraphs st paras).1.1 /\
  Forall2 (links_ok (process_paragraphs st paras).1.1) paras (process_paragraphs st paras).2.
Proof.
  revert st. induction paras as [|para paras IH]; intros st Hok.
  - cbn. split; [exact Hok|]. split; [apply grows_refl | constructor].
  - cbn [process_paragraphs].
    destruct (process_paragraph_links st para Hok) as (Hok1 & Hg1 & Hl1).
    destruct (_process_paragraph st para) as [st1 para']. cbn [fst snd] in *.
    destruct (IH st1 Hok1) as (Hok2 & Hg2 & Hl2).
    destruct (process_paragraphs st1 paras) as [st2 rest']. cbn [fst snd] in *.
    split; [exact Hok2|]. split; [eapply grows_trans; eauto|].
    constructor; [eapply links_ok_grows; eauto | exact Hl2].
Qed.

End ResolveFacts.

(** X23: when the ids of the relationships part are distinct, processing a
    part keeps every relationship loaded, and every hyperlink of the result
    that was not in the paragraph before has a web address without trailing
    punctuation as its text, and an id whose relationship has that address
    as its target. *)
Theorem activated_links_resolve (entries : list RelEntry) (paras : list (list Child)) :
  NoDup (map e_id entries) ->
  let r := process_part entries paras in
  (forall id rel,
     relationships (load entries) !! id = Some rel -> relationships r.1 !! id = Some rel)
  /\ Forall2 (links_ok r.1) paras r.2.
Proof.
  intros Hnd r.
  assert (Hok : link_ok (load entries, ∅)).
  { split; [|intros u id E; cbn in E; rewrite lookup_empty in E; discriminate].
    apply load_from_ok; [apply empty_rels_ok | intros; apply lookup_empty | exact Hnd]. }
  destruct (process_paragraphs_links (load entries, ∅) paras Hok) as (_ & Hg & Hl).
  unfold r, process_part.
  destruct (process_paragraphs (load entries, ∅) paras) as [st' paras']. cbn [fst snd] in *.
  split; [exact Hg | exact Hl].
Qed.

End ActivationFacts.

(** ** The notes *)

Section ReaderFacts.

Lemma lstrip_twice f (s : string) :
  Py.lstrip_with f (Py.lstrip_with f s) = Py.lstrip_with f s.
Proof.
  induction s as [|c s IH]; [reflexivity|]. cbn [Py.lstrip_with].
  destruct (f c) eqn:E; [exact IH|]. cbn [Py.lstrip_with]. now rewrite E.
Qed.

Lemma lstrip_rstrip_fixed f g (x : string) :
  Py.lstrip_with f x = x -> Py.lstrip_with f (Py.rstrip_with g x) = Py.rstrip_with g x.
Proof.
  destruct x as [|c x]; [reflexivity|]. cbn [Py.lstrip_with].
  destruct (f c) eqn:E.
  - intros Hx. exfalso.
    destruct (lstrip_suffix f x) as [w Hw]. rewrite Hx in Hw.
    apply (f_equal String.length) in Hw. rewrite length_app in Hw. cbn in Hw. lia.
  - intros _. rewrite rstrip_cons.
    destruct (Py.rstrip_with g x); [destruct (g c)|]; cbn [Py.lstrip_with]; now rewrite ?E.
Qed.

Lemma strip_twice (s : string) : Py.strip (Py.strip s) = Py.strip s.
Proof.
  unfold Py.strip.
  rewrite (lstrip_rstrip_fixed _ _ _ (lstrip_twice _ s)). apply rstrip_twice.
Qed.

(** X24: every note read from a part has an id that is a number of at
    least 1 and a text that is not empty and has no white space around it;
    and its id is the id of a note of the part. *)
Theorem notes_read_are_citable (part : option (list NoteXml)) :
  Forall (fun n =>
            (exists k, Py.int (note_id n) = Some k /\ (1 <= k)%Z)
            /\ note_text n <> EmptyString
            /\ Py.strip (note_text n) = note_text n)
         (get_notes part)
  /\ (forall notes n, part = Some notes -> In n (get_notes part) ->
        exists x, In x notes /\ x_id x = Some (note_id n)).
Proof.
  destruct part as [notes|]; [|split; [constructor | intros ? ? [=]]].
  split.
  - cbn [get_notes]. apply List.Forall_forall. intros n Hn.
    apply in_flat_map in Hn as (x & _ & Hn).
    destruct (x_id x) as [id|]; [|destruct Hn].
    destruct (Py.int id) as [k|] eqn:Ek; [|destruct Hn].
    destruct (Z.ltb_spec k 1); [destruct Hn|].
    destruct (Py.truthy (Some _)) eqn:Et; [|destruct Hn].
    destruct Hn as [<- | []]. cbn [note_id note_text].
    split; [eauto|]. split; [|apply strip_twice].
    intros E. rewrite E in Et. discriminate.
  - intros ? n [= <-] Hn. cbn [get_notes] in Hn.
    apply in_flat_map in Hn as (x & Hx & Hn). exists x. split; [exact Hx|].
    destruct (x_id x) as [id|]; [|destruct Hn].
    destruct (Py.int id) as [k|]; [|destruct Hn].
    destruct (k <? 1)%Z; [destruct Hn|].
    destruct (Py.truthy (Some _)); [|destruct Hn].
    destruct Hn as [<- | []]. reflexivity.
Qed.

End ReaderFacts.

Section WriterFacts.
Context `{Html}.


Lemma keep_children_kept cs p0 r0 :
  (keep_children cs p0 r0).1.1 = List.filter (fun ic => is_kept ic.2) cs.
Proof.
  revert p0 r0. induction cs as [|[i c] cs IH]; intros p0 r0; [reflexivity|].
  cbn [keep_children List.filter snd].
  destruct c as [|[] it ts|tag ts]; cbn [is_kept].
  - specialize (IH (Some i) r0). destruct (keep_children cs (Some i) r0) as [[k p] r].
    cbn [fst] in *. now rewrite IH.
  - specialize (IH p0 (Some i)). destruct (keep_children cs p0 (Some i)) as [[k p] r].
    cbn [fst] in *. now rewrite IH.
  - apply IH.
  - apply IH.
Qed.

Lemma keep_children_ref cs p0 r0 :
  (keep_children cs p0 r0).2 =
  if existsb (fun ic => is_reference_run ic.2) cs
  then (keep_children cs p0 r0).2 else r0.
Proof.
  revert p0 r0. induction cs as [|[i c] cs IH]; intros p0 r0; [reflexivity|].
  cbn [existsb snd]. destruct (is_reference_run c) eqn:Ec; [reflexivity|]. cbn [orb].
  cbn [keep_children].
  destruct c as [|[] it ts|tag ts]; try discriminate.
  - specialize (IH (Some i) r0). destruct (keep_children cs (Some i) r0) as [[k p] r].
    exact IH.
  - apply IH.
  - apply IH.
Qed.

Lemma keep_children_ref_some cs p0 r0 :
  existsb (fun ic => is_reference_run ic.2) cs = true ->
  is_Some (keep_children cs p0 r0).2.
Proof.
  revert p0 r0. induction cs as [|[i c] cs IH]; intros p0 r0; [discriminate|].
  cbn [existsb snd keep_children].
  destruct c as [|[] it ts|tag ts]; cbn [is_reference_run orb].
  - intros He. specialize (IH (Some i) r0 He).
    destruct (keep_children cs (Some i) r0) as [[k p] r]. exact IH.
  - intros _.
    pose proof (keep_children_ref cs p0 (Some i)) as Hr.
    destruct (existsb _ cs) eqn:He.
    + specialize (IH p0 (Some i) eq_refl).
      destruct (keep_children cs p0 (Some i)) as [[k p] r]. exact IH.
    + destruct (keep_children cs p0 (Some i)) as [[k p] r]. cbn [snd] in *. subst. eauto.
  - apply IH.
  - apply IH.
Qed.

(** without reference runs, the properties element remembered is the
    last child kept *)
Lemma keep_children_props cs p0 r0 :
  existsb (fun ic => is_reference_run ic.2) cs = false ->
  (keep_children cs p0 r0).1.2 =
  match last (List.filter (fun ic => is_kept ic.2) cs) with
  | Some ic => Some ic.1
  | None => p0
  end.
Proof.
  revert p0 r0. induction cs as [|[i c] cs IH]; intros p0 r0; [reflexivity|].
  cbn [existsb snd keep_children List.filter].
  destruct c as [|[] it ts|tag ts]; cbn [is_reference_run is_kept orb]; try discriminate.
  - intros He. specialize (IH (Some i) r0 He).
    destruct (keep_children cs (Some i) r0) as [[k p] r]. cbn [fst snd] in *.
    rewrite IH. destruct (List.filter _ cs) as [|x l] eqn:Ef; [reflexivity|].
    change (last ((i, Props) :: x :: l)) with (last (x :: l)).
    destruct (last (x :: l)) eqn:El; [reflexivity|].
    apply last_None in El. discriminate.
  - apply IH.
  - apply IH.
Qed.

Lemma index_of_last (l : list (nat * PChild)) (x : nat * PChild) :
  NoDup (map fst (l ++ [x])) -> index_of x.1 (l ++ [x]) = Some (length l).
Proof.
  destruct x as [i cx]. cbn [fst].
  induction l as [|[j c] l IH]; intros Hnd.
  - cbn [app index_of length]. now rewrite Nat.eqb_refl.
  - cbn [app map] in Hnd. apply NoDup_cons in Hnd as [Hnotin Hnd].
    cbn [app index_of length].
    destruct (Nat.eqb_spec i j) as [E|E].
    + exfalso. apply Hnotin. cbn [fst]. rewrite <- E.
      apply list_elem_of_In. change i with (fst (i, cx)).
      apply in_map, in_or_app. right. now left.
    + rewrite IH by exact Hnd. reflexivity.
Qed.

Lemma insert_at_end {A} (x : A) (l : list A) : insert_at (length l) x l = (l ++ [x])%list.
Proof. unfold insert_at. now rewrite List.firstn_all, List.skipn_all. Qed.

Lemma imap_fst {A} (l : list A) k :
  map fst (imap (fun i c => (k + i, c)) l) = seq k (length l).
Proof.
  revert k. induction l as [|a l IH]; intros k; [reflexivity|].
  cbn [imap map seq length fst]. rewrite Nat.add_0_r. f_equal.
  rewrite <- IH. f_equal. apply imap_ext. intros i c _. cbn. f_equal. lia.
Qed.

Lemma imap_snd {A} (l : list A) k : map snd (imap (fun i c => (k + i, c)) l) = l.
Proof.
  revert k. induction l as [|a l IH]; intros k; [reflexivity|].
  cbn [imap map snd]. f_equal. rewrite <- (IH (S k)) at 2. f_equal.
  apply imap_ext. intros i c _. cbn. f_equal. lia.
Qed.

Lemma filter_snd {A B} (g : B -> bool) (l : list (A * B)) :
  map snd (List.filter (fun ic => g ic.2) l) = List.filter g (map snd l).
Proof.
  induction l as [|[a b] l IH]; [reflexivity|]. cbn [List.filter map snd].
  destruct (g b); cbn [map snd]; now rewrite IH.
Qed.

Lemma existsb_snd {A B} (g : B -> bool) (l : list (A * B)) :
  existsb (fun ic => g ic.2) l = existsb g (map snd l).
Proof. induction l as [|[a b] l IH]; [reflexivity|]. cbn [existsb map snd]. now rewrite IH. Qed.

Lemma NoDup_filter_fst {B} (g : nat * B -> bool) (l : list (nat * B)) :
  NoDup (map fst l) -> NoDup (map fst (List.filter g l)).
Proof.
  induction l as [|x l IH]; [intros _; constructor|]. cbn [map List.filter].
  intros Hnd. apply NoDup_cons in Hnd as [Hnotin Hnd].
  destruct (g x); [|now apply IH]. cbn [map]. apply NoDup_cons. split; [|now apply IH].
  intros Hin. apply Hnotin. apply list_elem_of_In in Hin. apply list_elem_of_In.
  apply in_map_iff in Hin as (y & Ey & Hy). apply in_map_iff. exists y.
  split; [exact Ey|]. apply List.filter_In in Hy. tauto.
Qed.

Lemma last_snoc_inv {A} (l : list A) (x : A) : last l = Some x -> exists l', l = (l' ++ [x])%list.
Proof.
  intros Hl. destruct l as [|a l] using rev_ind; [discriminate|].
  rewrite last_snoc in Hl. injection Hl as ->. eauto.
Qed.

Lemma rewrite_paragraph_eq (para : list PChild) (new_content : string) :
  rewrite_paragraph para new_content =
  Some (List.filter is_kept para
        ++ (if existsb is_reference_run para then [] else [reference_run])
        ++ text_runs (unescape new_content))%list.
Proof.
  unfold rewrite_paragraph.
  set (children := imap (fun i c => (i, c)) para).
  assert (Hsnd : map snd children = para) by apply (imap_snd para 0).
  assert (Hnd : NoDup (map fst children)).
  { unfold children.
    change (imap (fun i c => (i, c)) para) with (imap (fun i c => (0 + i, c)) para).
    rewrite (imap_fst para 0). apply NoDup_seq. }
  pose proof (keep_children_kept children None None) as Hk.
  pose proof (keep_children_ref children None None) as Hr.
  pose proof (keep_children_ref_some children None None) as Hrs.
  pose proof (keep_children_props children None None) as Hp.
  rewrite existsb_snd, Hsnd in Hr, Hrs, Hp.
  destruct (keep_children children None None) as [[kept p] r]. cbn [fst snd] in *.
  assert (Hkept : map snd kept = List.filter is_kept para)
    by (rewrite Hk, filter_snd, Hsnd; reflexivity).
  destruct (existsb is_reference_run para) eqn:He.
  - destruct (Hrs eq_refl) as [i ->]. cbn [mbind option_bind]. now rewrite Hkept.
  - subst r. rewrite (Hp eq_refl). clear Hp.
    rewrite <- Hk. destruct (last kept) as [ic|] eqn:El.
    + apply last_snoc_inv in El as [l' ->].
      assert (Hnd' : NoDup (map fst (l' ++ [ic])))
        by (rewrite Hk; now apply NoDup_filter_fst).
      rewrite (index_of_last l' ic Hnd'). cbn [mbind option_bind].
      replace (length l' + 1) with (length (l' ++ [ic])) by (rewrite List.length_app; cbn; lia).
      rewrite insert_at_end, map_app. cbn [map snd]. rewrite Hkept.
      now rewrite <- List.app_assoc.
    + apply last_None in El. rewrite El in Hkept |- *. cbn [map] in Hkept.
      rewrite <- Hkept. reflexivity.
Qed.

End WriterFacts.

Section MarkupFacts.

Lemma startswith_length p s : Py.startswith p s = true -> String.length p <= String.length s.
Proof.
  revert s. induction p as [|a p IH]; intros [|b s]; cbn [Py.startswith String.length];
    try discriminate; try lia.
  intros E. apply andb_prop in E as [_ E]. apply IH in E. lia.
Qed.

Lemma startswith_app_long p x y :
  String.length p <= String.length x -> Py.startswith p (x +:+ y) = Py.startswith p x.
Proof.
  revert x. induction p as [|a p IH]; intros [|b x]; cbn [String.length]; intros Hl;
    try reflexivity; [lia|].
  rewrite app_cons. cbn [Py.startswith]. rewrite IH by lia. reflexivity.
Qed.

Lemma drop_app_short n (x y : string) :
  n <= String.length x -> Py.drop n (x +:+ y) = Py.drop n x +:+ y.
Proof.
  revert x. induction n as [|n IH]; intros [|b x]; cbn [String.length]; intros Hl;
    try reflexivity; [lia|].
  rewrite app_cons. cbn [Py.drop]. apply IH. lia.
Qed.

Lemma lazy_close_length x i r :
  lazy_close x = Some (i, r) -> String.length x = String.length i + 4 + String.length r.
Proof.
  intros E. apply lazy_close_app in E. rewrite E, !length_app. cbn [String.length]. lia.
Qed.

Lemma lazy_close_mono x y i r :
  lazy_close x = Some (i, r) -> lazy_close (x +:+ y) = Some (i, r +:+ y).
Proof.
  revert i. induction x as [|c x IH]; intros i; [cbn; discriminate|].
  intros E. pose proof (lazy_close_length _ _ _ E) as Hlen.
  cbn [lazy_close] in E. rewrite app_cons. cbn [lazy_close]. rewrite <- app_cons.
  rewrite startswith_app_long by (cbn [String.length] in *; lia).
  destruct (Py.startswith "</i>" (String c x)) eqn:Es.
  - injection E as <- <-. f_equal. f_equal.
    apply drop_app_short. now apply startswith_length in Es.
  - destruct (Ascii.eqb c newline); [discriminate|].
    destruct (lazy_close x) as [[i' r']|] eqn:Ex; [|discriminate].
    injection E as <- <-. now rewrite (IH i' eq_refl).
Qed.

Lemma lazy_close_exact x i r :
  lazy_close x = Some (i, r) -> lazy_close (i +:+ "</i>") = Some (i, EmptyString).
Proof.
  revert i. induction x as [|c x IH]; intros i; [cbn; discriminate|].
  cbn [lazy_close]. destruct (Py.startswith "</i>" (String c x)) eqn:Es.
  - intros [= <- _]. reflexivity.
  - destruct (Ascii.eqb c newline) eqn:En; [discriminate|].
    destruct (lazy_close x) as [[i' r']|] eqn:Ex; [|discriminate].
    intros [= <- <-]. rewrite app_cons. cbn [lazy_close]. rewrite <- app_cons.
    assert (Es' : Py.startswith "</i>" (String c i' +:+ "</i>") = false).
    { pose proof (lazy_close_app _ _ _ Ex) as Hx. rewrite Hx in Es.
      rewrite <- app_cons, <- app_assoc in Es.
      rewrite startswith_app_long in Es; [exact Es|].
      rewrite length_app. cbn [String.length]. lia. }
    rewrite Es', En, (IH i' eq_refl). reflexivity.
Qed.

Lemma italic_group_mono x y i r :
  italic_group x = Some (i, r) -> italic_group (x +:+ y) = Some (i, r +:+ y).
Proof.
  unfold italic_group. destruct (Py.startswith "<i>" x) eqn:Es; [|discriminate].
  intros E. pose proof (startswith_length _ _ Es) as Hl.
  rewrite startswith_app_long, Es by exact Hl.
  rewrite drop_app_short by exact Hl. now apply lazy_close_mono.
Qed.

Lemma italic_group_exact x i r :
  italic_group x = Some (i, r) ->
  italic_group ("<i>" +:+ i +:+ "</i>") = Some (i, EmptyString).
Proof.
  unfold italic_group. destruct (Py.startswith "<i>" x); [|discriminate].
  intros E. change (Py.startswith "<i>" ("<i>" +:+ i +:+ "</i>")) with true. cbv iota.
  change (Py.drop 3 ("<i>" +:+ i +:+ "</i>")) with (i +:+ "</i>").
  eapply lazy_close_exact, E.
Qed.

Lemma join_empty (l : list string) :
  join EmptyString l = fold_right append EmptyString l.
Proof.
  induction l as [|a l IH]; [reflexivity|]. destruct l as [|b l].
  - cbn. now rewrite app_nil_r.
  - change (join EmptyString (a :: b :: l)) with (a +:+ EmptyString +:+ join EmptyString (b :: l)).
    rewrite IH. reflexivity.
Qed.

Lemma join_empty_app (a b : list string) :
  join EmptyString (a ++ b) = join EmptyString a +:+ join EmptyString b.
Proof.
  rewrite !join_empty. induction a as [|x a IH]; [reflexivity|].
  cbn [app fold_right]. now rewrite IH, app_assoc.
Qed.


Lemma part_runs_plain cur s :
  (cur <> EmptyString -> italic_group (cur +:+ s) = None) ->
  join EmptyString (map run_markup (part_runs cur)) = cur.
Proof.
  intros Hinv. unfold part_runs. destruct cur as [|c cur]; [reflexivity|].
  cbn [Py.truthy negb].
  destruct (italic_group (String c cur)) as [[i r]|] eqn:E.
  - apply (italic_group_mono _ s) in E. rewrite Hinv in E by discriminate. discriminate.
  - cbn. reflexivity.
Qed.

Lemma split_markup fuel s cur :
  (cur <> EmptyString -> italic_group (cur +:+ s) = None) ->
  String.length s <= fuel ->
  join EmptyString (map run_markup (flat_map part_runs (split_italic_fuel fuel s cur)))
  = cur +:+ s.
Proof.
  revert s cur. induction fuel as [|k IH]; intros s cur Hinv Hlen.
  - destruct s; [|cbn in Hlen; lia]. cbn [split_italic_fuel flat_map].
    rewrite List.app_nil_r, !app_nil_r. rewrite app_nil_r in Hinv.
    apply (part_runs_plain cur EmptyString). now rewrite app_nil_r.
  - cbn [split_italic_fuel]. destruct s as [|c s].
    + cbn [flat_map]. rewrite List.app_nil_r, app_nil_r.
      apply (part_runs_plain cur EmptyString). exact Hinv.
    + unfold match_italic.
      destruct (italic_group (String c s)) as [[inner rest]|] eqn:E.
      * cbn [flat_map]. rewrite !map_app, !join_empty_app.
        rewrite (part_runs_plain cur (String c s) Hinv).
        assert (Hs : String c s = "<i>" +:+ inner +:+ "</i>" +:+ rest).
        { assert (Hm : match_italic (String c s) = Some ("<i>" +:+ inner +:+ "</i>", rest))
            by (unfold match_italic; now rewrite E).
          apply match_italic_app in Hm. rewrite Hm. now rewrite !app_assoc. }
        unfold part_runs at 1.
        change (Py.truthy (Some ("<i>" +:+ inner +:+ "</i>"))) with true. cbn [negb].
        rewrite (italic_group_exact _ _ _ E). cbn [map run_markup Py.str_of default].
        cbn [join]. rewrite (IH rest EmptyString); [|congruence|].
        -- rewrite app_nil_l. rewrite Hs. now rewrite !app_assoc.
        -- apply (f_equal String.length) in Hs. rewrite !length_app in Hs.
           cbn [String.length] in Hs, Hlen. lia.
      * rewrite IH.
        -- now rewrite app_assoc.
        -- intros _. rewrite app_assoc. change (String c EmptyString +:+ s) with (String c s).
           destruct cur as [|d cur]; [exact E | apply Hinv; discriminate].
        -- cbn [String.length] in Hlen. lia.
Qed.

(** X26: the runs made from a text stand for that text: putting the
    italic runs between italic tags again and joining the runs gives the
    text back. *)
Theorem note_markup_round_trip (text : string) :
  join EmptyString (map run_markup (text_runs text)) = text.
Proof.
  unfold text_runs. change (flat_map _ (split_italic text))
    with (flat_map part_runs (split_italic text)).
  unfold split_italic. rewrite split_markup; [reflexivity | congruence | lia].
Qed.

End MarkupFacts.

Section WriteFacts.
Context `{Html}.

Lemma write_endnote_skip pre rest id content :
  (forall x, In x pre -> x_id x <> Some id) ->
  write_endnote (pre ++ rest) id content =
  option_map (app pre) (write_endnote rest id content).
Proof.
  induction pre as [|x pre IH]; intros Hpre.
  - cbn [app]. destruct (write_endnote rest id content); reflexivity.
  - cbn [app write_endnote]. rewrite bool_decide_eq_false_2 by (apply Hpre; now left).
    rewrite IH by (intros y Hy; apply Hpre; now right).
    destruct (write_endnote rest id content); reflexivity.
Qed.

(** X25: writing a note fails when no note has the id; otherwise the first
    paragraph of the first note with the id becomes its paragraph properties
    and reference runs, a new reference run when it had none, and the runs
    of the new content; the other paragraphs and notes are unchanged, and
    the paragraph written has a reference run.  A note with the id that has
    no paragraph gets one made of the runs of the new content only, without
    a reference run. *)
Theorem write_endnote_keeps_the_reference (notes : list NoteXml) (id content : string) :
  ((forall x, In x notes -> x_id x <> Some id) -> write_endnote notes id content = None)
  /\ (forall pre n post para paras,
        notes = (pre ++ n :: post)%list ->
        (forall x, In x pre -> x_id x <> Some id) ->
        x_id n = Some id ->
        x_paragraphs n = para :: paras ->
        let para' :=
          (List.filter is_kept para
           ++ (if existsb is_reference_run para then [] else [reference_run])
           ++ text_runs (unescape content))%list in
        write_endnote notes id content =
          Some (pre ++ {| x_id := Some id; x_paragraphs := para' :: paras |} :: post)%list
        /\ existsb is_reference_run para' = true
        /\ List.filter is_kept para' =
             (List.filter is_kept para
              ++ (if existsb is_reference_run para then [] else [reference_run]))%list)
  /\ (forall pre n post,
        notes = (pre ++ n :: post)%list ->
        (forall x, In x pre -> x_id x <> Some id) ->
        x_id n = Some id ->
        x_paragraphs n = [] ->
        write_endnote notes id content =
          Some (pre ++ {| x_id := Some id;
                          x_paragraphs := [text_runs (unescape content)] |} :: post)%list
        /\ existsb is_reference_run (text_runs (unescape content)) = false).
Proof.
  split; [|split].
  - intros Hno. rewrite <- (List.app_nil_r notes), write_endnote_skip by exact Hno.
    reflexivity.
  - intros pre n post para paras -> Hpre Hn Hp para'. split; [|split].
    + rewrite write_endnote_skip by exact Hpre. cbn [write_endnote].
      rewrite bool_decide_eq_true_2 by exact Hn. rewrite Hp, rewrite_paragraph_eq.
      cbn [mbind option_bind option_map]. now rewrite Hn.
    + unfold para'. rewrite !existsb_app.
      destruct (existsb is_reference_run para) eqn:He.
      * assert (Hk : existsb is_reference_run (List.filter is_kept para) = true).
        { clear -He. induction para as [|c para IH]; [discriminate|].
          cbn [existsb List.filter] in *.
          destruct c as [|[] it ts|tag ts]; cbn [is_kept is_reference_run existsb orb] in *;
            auto. }
        now rewrite Hk.
      * cbn. now rewrite orb_true_r.
    + unfold para'. rewrite !List.filter_app.
      assert (Hidem : List.filter is_kept (List.filter is_kept para) = List.filter is_kept para).
      { clear. induction para as [|c para IH]; [reflexivity|]. cbn [List.filter].
        destruct (is_kept c) eqn:E; [cbn [List.filter]; now rewrite E, IH | exact IH]. }
      assert (Hruns : forall t, List.filter is_kept (text_runs t) = []).
      { intros t. unfold text_runs. induction (split_italic t) as [|part parts IH]; [reflexivity|].
        cbn [flat_map]. rewrite List.filter_app, IH, List.app_nil_r.
        destruct (negb _); [reflexivity|]. destruct (italic_group part) as [[i r]|]; reflexivity. }
      rewrite Hidem, Hruns, List.app_nil_r.
      destruct (existsb is_reference_run para); reflexivity.
  - intros pre n post -> Hpre Hn Hp. split.
    + rewrite write_endnote_skip by exact Hpre. cbn [write_endnote].
      rewrite bool_decide_eq_true_2 by exact Hn. rewrite Hp, Hn. reflexivity.
    + unfold text_runs. induction (split_italic (unescape content)) as [|part parts IH];
        [reflexivity|].
      cbn [flat_map]. rewrite existsb_app, IH, orb_false_r.
      destruct (negb _); [reflexivity|]. destruct (italic_group part) as [[i r]|]; reflexivity.
Qed.

End WriteFacts.

Section EscapeFacts.

Lemma replace_char_app c w (a b : string) :
  replace_char c w (a +:+ b) = replace_char c w a +:+ replace_char c w b.
Proof.
  induction a as [|d a IH]; [reflexivity|]. rewrite app_cons. cbn [replace_char].
  destruct (Ascii.eqb c d); rewrite IH; [now rewrite app_assoc | reflexivity].
Qed.

Lemma xml_escape_cons (c : ascii) (s : string) :
  xml_escape (String c s) = escape_char c +:+ xml_escape s.
Proof.
  unfold xml_escape, escape_char. cbn [replace_char].
  rewrite (Ascii.eqb_sym c "&"), (Ascii.eqb_sym c "<"), (Ascii.eqb_sym c ">").
  destruct (Ascii.eqb "&" c) eqn:E1.
  - rewrite !replace_char_app. reflexivity.
  - cbn [replace_char]. destruct (Ascii.eqb "<" c) eqn:E2.
    + rewrite !replace_char_app. reflexivity.
    + cbn [replace_char]. destruct (Ascii.eqb ">" c); reflexivity.
Qed.

Lemma xml_escape_each (s : string) : xml_escape s = escape_each s.
Proof.
  induction s as [|c s IH]; [reflexivity|]. rewrite xml_escape_cons, IH. reflexivity.
Qed.

Lemma escape_char_cases (c : ascii) :
  (c = "&"%char /\ escape_char c = "&amp;") \/
  (c = "<"%char /\ escape_char c = "&lt;") \/
  (c = ">"%char /\ escape_char c = "&gt;") \/
  (c <> "&"%char /\ c <> "<"%char /\ c <> ">"%char /\ escape_char c = String c EmptyString).
Proof.
  unfold escape_char.
  destruct (Ascii.eqb_spec c "&"); [auto|].
  destruct (Ascii.eqb_spec c "<"); [auto|].
  destruct (Ascii.eqb_spec c ">"); [auto|]. auto 10.
Qed.

Lemma escape_each_inj (s t : string) : escape_each s = escape_each t -> s = t.
Proof.
  revert t. induction s as [|c s IH]; intros [|d t]; cbn [escape_each].
  - reflexivity.
  - destruct (escape_char_cases d) as [[_ ->]|[[_ ->]|[[_ ->]|(_ & _ & _ & ->)]]]; discriminate.
  - destruct (escape_char_cases c) as [[_ ->]|[[_ ->]|[[_ ->]|(_ & _ & _ & ->)]]]; discriminate.
  - destruct (escape_char_cases c) as [[-> ->]|[[-> ->]|[[-> ->]|(Hc1 & Hc2 & Hc3 & ->)]]];
    destruct (escape_char_cases d) as [[-> ->]|[[-> ->]|[[-> ->]|(Hd1 & Hd2 & Hd3 & ->)]]];
      rewrite ?app_cons, ?app_nil_l; intros E; try discriminate E;
      try (injection E as E; f_equal; now apply IH);
      try (injection E as E1 E; congruence).
  injection E as -> E. f_equal. now apply IH.
Qed.

Lemma escape_each_app (s t : string) :
  escape_each (s +:+ t) = escape_each s +:+ escape_each t.
Proof.
  induction s as [|c s IH]; [reflexivity|]. rewrite app_cons. cbn [escape_each].
  now rewrite IH, app_assoc.
Qed.

Lemma escape_each_no_bracket (c : ascii) (s : string) :
  (c = "<" \/ c = ">")%char -> Py.has_char c (escape_each s) = false.
Proof.
  intros Hc. induction s as [|d s IH]; [reflexivity|].
  cbn [escape_each]. rewrite has_char_app, IH, orb_false_r.
  destruct (escape_char_cases d) as [[_ ->]|[[_ ->]|[[_ ->]|(_ & Hd2 & Hd3 & ->)]]];
    try (destruct Hc as [-> | ->]; reflexivity).
  cbn [Py.has_char]. rewrite orb_false_r. apply Ascii.eqb_neq.
  destruct Hc; congruence.
Qed.

Section ConverterFacts.
Context `{Html}.

(** X27: escaped text has no angle bracket, escaping distributes over
    concatenation and loses nothing (it is injective); and for a text
    without tags [html_to_word_xml] writes the paragraph with the reference
    run, a space and one run with the escaped text. *)
Theorem xml_escape_is_safe (s t html : string) :
  Py.has_char "<" (xml_escape s) = false
  /\ Py.has_char ">" (xml_escape s) = false
  /\ xml_escape (s +:+ t) = xml_escape s +:+ xml_escape t
  /\ (xml_escape s = xml_escape t -> s = t)
  /\ (Py.has_char "<" (unescape html) = false -> unescape html <> EmptyString ->
      html_to_word_xml html "endnote" =
      "<w:p><w:pPr><w:pStyle w:val=" +:+ dq +:+ "EndnoteText" +:+ dq +:+ "/></w:pPr>"
      +:+ "<w:r><w:rPr><w:rStyle w:val=" +:+ dq +:+ "EndnoteReference" +:+ dq +:+ "/></w:rPr>"
      +:+ "<w:endnoteRef/></w:r>"
      +:+ "<w:r><w:t xml:space=" +:+ dq +:+ "preserve" +:+ dq +:+ "> </w:t></w:r>"
      +:+ "<w:r><w:t xml:space=" +:+ dq +:+ "preserve" +:+ dq +:+ ">"
      +:+ xml_escape (unescape html) +:+ "</w:t></w:r>"
      +:+ "</w:p>").
Proof.
  rewrite !xml_escape_each.
  split; [apply escape_each_no_bracket; auto|].
  split; [apply escape_each_no_bracket; auto|].
  split; [apply escape_each_app|]. split; [apply escape_each_inj|].
  intros Hno Hne. unfold html_to_word_xml, split_italic.
  rewrite split_italic_plain, app_nil_l by exact Hno.
  change (String.eqb "endnote" "footnote") with false. cbv iota beta.
  cbn [flat_map]. unfold part_xml.
  rewrite (truthy_nonempty _ Hne), (startswith_no_char "<" "<i>") by (reflexivity || exact Hno).
  cbn [negb andb app]. rewrite xml_escape_each.
  rewrite !join_empty. cbn [fold_right]. rewrite !app_nil_r, !app_assoc. reflexivity.
Qed.

End ConverterFacts.

End EscapeFacts.

(** ** The author-date processor *)

Section AuthorDateProcessorFacts.
Import References Links.
#[local] Set Warnings "-inexact-float".

Section ProcessorFacts.
Context `{ReferenceFormatter}.

Lemma filter_length_le {A} (f : A -> bool) (l : list A) : length (List.filter f l) <= length l.
Proof. induction l as [|a l IH]; [reflexivity|]. cbn. destruct (f a); cbn; lia. Qed.

Lemma filter_perm_length {A} (f : A -> bool) (l l' : list A) :
  Permutation l l' -> length (List.filter f l) = length (List.filter f l').
Proof.
  induction 1 as [|x l l' _ IH|x y l|l l' l'' _ IH1 _ IH2]; cbn.
  - reflexivity.
  - destruct (f x); cbn; now rewrite IH.
  - destruct (f x), (f y); reflexivity.
  - congruence.
Qed.

(** X18: the result has one reference for each citation, they are the
    references looked up, in some order; the citations resolved and failed
    add up to the citations found; and a reference that was not found has no
    metadata and the placeholder text with its author and year. *)
Theorem every_citation_gets_one_reference (body : list BodyChild) (style : string)
    (calls : list (AuthorYearCitation * result (option CitationMetadata))) :
  let r := (process_citations body style calls).2 in
  citations_found r = length calls
  /\ citations_resolved r + citations_failed r = citations_found r
  /\ citations_resolved r = length (List.filter r_found (references r))
  /\ Permutation (references r) (map (fun c => look_up style c.1 c.2) calls)
  /\ Forall (fun e => r_found e = false ->
                      r_metadata e = None /\
                      exists tag, (tag = "[NOT FOUND: " \/ tag = "[ERROR: ") /\
                        r_formatted e =
                        tag +:+ c_author (r_citation e) +:+ ", " +:+ c_year (r_citation e) +:+ "]")
            (references r).
Proof.
  destruct calls as [|c calls].
  - cbn. repeat split; constructor.
  - intros r. unfold r, process_citations.
    cbn [snd citations_found citations_resolved citations_failed references].
    set (cs := c :: calls).
    set (looked := map (fun c => look_up style c.1 c.2) cs).
    set (srt := sorted _ looked).
    assert (Hperm : Permutation srt looked) by apply sorted_perm.
    assert (Hle : length (List.filter r_found looked) <= length cs).
    { pose proof (filter_length_le r_found looked) as Hle.
      unfold looked in Hle at 2. now rewrite length_map in Hle. }
    split; [reflexivity|]. split; [lia|].
    split; [symmetry; now apply filter_perm_length|]. split; [exact Hperm|].
    apply List.Forall_forall. intros e He.
    eapply Permutation_in in He; [|exact Hperm].
    apply in_map_iff in He as ([cit out] & <- & _). cbn [fst snd].
    unfold look_up.
    destruct out as [[m|]|[msg]]; [destruct (format_reference style m) as [f|[msg]]|..];
      cbn [r_found r_metadata r_formatted r_citation]; intros Hf; try discriminate;
      (split; [reflexivity|]); eauto.
Qed.

End ProcessorFacts.

Section SortedFacts.
Context {A : Type} (lt : A -> A -> bool).
Hypothesis lt_asym : forall x y, lt x y = true -> lt y x = false.
Hypothesis le_trans : forall x y z, lt y x = false -> lt z y = false -> lt z x = false.

Lemma insert_by_In x y l : In y (insert_by lt x l) -> y = x \/ In y l.
Proof.
  induction l as [|z l IH]; cbn [insert_by].
  - intros [<- | []]. now left.
  - destruct (lt x z); cbn [In]; intuition.
Qed.

Lemma insert_by_sorted x l :
  StronglySorted (fun a b => lt b a = false) l ->
  StronglySorted (fun a b => lt b a = false) (insert_by lt x l).
Proof.
  induction 1 as [|y l Hs IH Hy]; cbn [insert_by]; [repeat constructor|].
  destruct (lt x y) eqn:E.
  - constructor; [constructor; assumption|].
    constructor; [now apply lt_asym|].
    rewrite List.Forall_forall in Hy |- *. intros z Hz.
    eapply le_trans; [apply lt_asym, E | now apply Hy].
  - constructor; [exact IH|].
    rewrite List.Forall_forall in Hy |- *. intros z Hz.
    apply insert_by_In in Hz as [-> | Hz]; [exact E | now apply Hy].
Qed.

Lemma sorted_sorted_acc l acc :
  StronglySorted (fun a b => lt b a = false) acc ->
  StronglySorted (fun a b => lt b a = false)
    (fold_left (fun acc x => insert_by lt x acc) l acc).
Proof.
  revert acc. induction l as [|x l IH]; intros acc Hacc; [exact Hacc|].
  cbn [fold_left]. apply IH, insert_by_sorted, Hacc.
Qed.

Lemma sorted_sorted l : StronglySorted (fun a b => lt b a = false) (sorted lt l).
Proof. apply sorted_sorted_acc. constructor. Qed.

End SortedFacts.

Section KeyOrder.

Lemma compare_trans_lt (a b c : string) :
  String.compare a b = Lt -> String.compare b c = Lt -> String.compare a c = Lt.
Proof.
  intros H1 H2. apply OrderedTypeEx.String_as_OT.cmp_lt.
  apply OrderedTypeEx.String_as_OT.cmp_lt in H1, H2.
  eapply OrderedTypeEx.String_as_OT.lt_trans; eassumption.
Qed.

Lemma compare_refl (a : string) : String.compare a a = Eq.
Proof. now apply OrderedTypeEx.String_as_OT.cmp_eq. Qed.

Lemma compare_gt_lt (a b : string) : String.compare a b = Gt <-> String.compare b a = Lt.
Proof.
  rewrite (String.compare_antisym b a). destruct (String.compare a b); cbn; split; congruence.
Qed.


Lemma key_lt_compare a b : key_lt a b = true <-> key_compare a b = Lt.
Proof.
  unfold key_lt, key_compare, lex3, String.ltb.
  destruct (String.compare a.1.1 b.1.1) eqn:E1; cbn [orb].
  - apply String.compare_eq_iff in E1. rewrite E1, String.eqb_refl. cbn [andb].
    destruct (String.compare a.1.2 b.1.2) eqn:E2; cbn [orb].
    + apply String.compare_eq_iff in E2. rewrite E2, String.eqb_refl. cbn [andb].
      destruct (String.compare a.2 b.2); split; congruence.
    + tauto.
    + assert (Hne : String.eqb a.1.2 b.1.2 = false).
      { apply String.eqb_neq. intros E. rewrite E, compare_refl in E2. discriminate. }
      rewrite Hne. cbn. split; congruence.
  - tauto.
  - assert (Hne : String.eqb a.1.1 b.1.1 = false).
    { apply String.eqb_neq. intros E. rewrite E, compare_refl in E1. discriminate. }
    rewrite Hne. cbn. split; congruence.
Qed.

Lemma compare_cases (a b : string) :
  (a = b /\ String.compare a b = Eq /\ String.compare b a = Eq) \/
  (String.compare a b = Lt /\ String.compare b a = Gt) \/
  (String.compare a b = Gt /\ String.compare b a = Lt).
Proof.
  destruct (String.compare a b) eqn:E.
  - apply String.compare_eq_iff in E. subst. rewrite compare_refl. auto.
  - right. left. split; [reflexivity|]. apply compare_gt_lt. exact E.
  - right. right. split; [reflexivity|]. apply compare_gt_lt. exact E.
Qed.

Lemma key_lt_asym a b : key_lt a b = true -> key_lt b a = false.
Proof.
  intros Hab. apply not_true_is_false. rewrite key_lt_compare in *.
  unfold key_compare, lex3 in *.
  destruct (compare_cases a.1.1 b.1.1) as [(_ & E & ->)|[(E & ->)|(E & ->)]];
    rewrite E in Hab; try discriminate.
  destruct (compare_cases a.1.2 b.1.2) as [(_ & E2 & ->)|[(E2 & ->)|(E2 & ->)]];
    rewrite E2 in Hab; try discriminate.
  destruct (compare_cases a.2 b.2) as [(_ & E3 & ->)|[(E3 & ->)|(E3 & ->)]];
    rewrite E3 in Hab; discriminate.
Qed.

(** one component of a chain of three keys: when neither [b] is before
    [a] nor [c] before [b], either [c] is after [a] or the three are equal *)
Lemma compare_chain (a b c : string) :
  String.compare b a <> Lt -> String.compare c b <> Lt ->
  (String.compare c a = Gt) \/
  (a = b /\ b = c).
Proof.
  intros H1 H2.
  destruct (compare_cases b a) as [(E1 & _)|[(E1 & _)|(E1 & _)]]; [|congruence|];
  (destruct (compare_cases c b) as [(E2 & _)|[(E2 & _)|(E2 & _)]]; [|congruence|]).
  - right. split; congruence.
  - left. rewrite <- E1. exact E2.
  - left. rewrite E2. exact E1.
  - left. apply compare_gt_lt. eapply compare_trans_lt; apply compare_gt_lt; eassumption.
Qed.

Lemma lex3_not_lt c1 c2 c3 :
  lex3 c1 c2 c3 <> Lt ->
  c1 <> Lt /\ (c1 = Eq -> c2 <> Lt /\ (c2 = Eq -> c3 <> Lt)).
Proof. destruct c1, c2, c3; cbn; intros Hn; repeat split; intros; congruence. Qed.

Lemma key_le_trans a b c :
  key_lt b a = false -> key_lt c b = false -> key_lt c a = false.
Proof.
  intros Hba Hcb. apply not_true_is_false. intros Hca.
  apply not_true_iff_false in Hba, Hcb.
  rewrite key_lt_compare in *. unfold key_compare in *.
  apply lex3_not_lt in Hba as (B1 & B2), Hcb as (C1 & C2).
  destruct (compare_chain _ _ _ B1 C1) as [G | (E1 & E1')].
  { rewrite G in Hca. discriminate. }
  rewrite E1, E1', !compare_refl in *. cbn [lex3] in Hca.
  destruct (B2 eq_refl) as (B3 & B4), (C2 eq_refl) as (C3 & C4).
  destruct (compare_chain _ _ _ B3 C3) as [G | (E2 & E2')].
  { rewrite G in Hca. discriminate. }
  rewrite E2, E2', !compare_refl in *.
  specialize (B4 eq_refl). specialize (C4 eq_refl).
  destruct (compare_chain _ _ _ B4 C4) as [G | (E3 & E3')].
  { rewrite G in Hca. discriminate. }
  rewrite E3, E3', compare_refl in Hca. discriminate.
Qed.

End KeyOrder.

Section Order.
Context `{ReferenceFormatter}.

(** X19: the references of the result are in the order of their keys
    (author in lower case, year, second author in lower case): no reference
    has a key smaller than the key of one before it. *)
Theorem references_are_sorted (body : list BodyChild) (style : string)
    (calls : list (AuthorYearCitation * result (option CitationMetadata))) :
  StronglySorted (fun a b => key_lt (sort_key b) (sort_key a) = false)
    (references (process_citations body style calls).2).
Proof.
  destruct calls as [|c calls]; [constructor|].
  unfold process_citations. cbn [snd references].
  apply (sorted_sorted (fun a b => key_lt (sort_key a) (sort_key b))).
  - intros x y. apply key_lt_asym.
  - intros x y z. apply key_le_trans.
Qed.

End Order.

End AuthorDateProcessorFacts.

(** ** Examples of the further facts *)

Section FurtherExamples.
Import References Links.

Lemma urls_match_ignores_case_and_space_witness :
  str_all Py.is_space " " = true /\ str_all Py.is_space "  " = true /\
  Py.lower "HTTPS://Example.org/A" = Py.lower "https://example.org/a" /\
  normalize_url (" " +:+ "HTTPS://Example.org/A" +:+ "  ") = normalize_url "https://example.org/a".
Proof.
  split; [reflexivity|]. split; [reflexivity|]. split; [reflexivity|].
  exact (proj1 (urls_match_ignores_case_and_space
                  "HTTPS://Example.org/A" "https://example.org/a" " " "  "
                  eq_refl eq_refl eq_refl)).
Defined.

Lemma normalize_url_trailing_slashes_witness :
  Py.isascii "https://example.org/a" = true /\
  Py.rstrip_with Py.is_space "https://example.org/a" = "https://example.org/a" /\
  str_all (Ascii.eqb "/") "//" = true /\
  normalize_url ("https://example.org/a" +:+ "//") = normalize_url "https://example.org/a".
Proof.
  split; [reflexivity|]. split; [reflexivity|]. split; [reflexivity|].
  apply (normalize_url_trailing_slashes "https://example.org/a" "//"); reflexivity.
Defined.

Lemma normalize_url_drops_query_witness :
  Py.isascii "https://Example.org/a" = true /\
  Py.has_char "?" "https://Example.org/a" = false /\
  normalize_url ("https://Example.org/a" +:+ "?" +:+ "page=2") =
  Py.lower (Py.lstrip_with Py.is_space "https://Example.org/a").
Proof.
  split; [reflexivity|]. split; [reflexivity|].
  exact (proj1 (normalize_url_drops_query "https://Example.org/a" "page=2" eq_refl eq_refl)).
Defined.

Lemma search_multiple_last_wins_witness :
  let calls :=
    [("Smith", "2020", None, Some (Some empty_metadata));
     ("SMITH", "2020", Some "Doe", None)] in
  Forall (fun c => Py.isascii c.1.1.1 = true) calls /\
  search_multiple calls !! ("smith", "2020") = Some None.
Proof.
  intros calls.
  assert (Hc : Forall (fun c => Py.isascii c.1.1.1 = true) calls) by (repeat constructor).
  split; [exact Hc|].
  rewrite (search_multiple_last_wins calls ("smith", "2020") Hc). reflexivity.
Defined.

Lemma unkeyed_source_is_cited_in_full_witness :
  let data :=
    {| f_note_id := "1"; f_note_type := endnote; f_original_text := "a source";
       f_is_explicit_ibid := false; f_ibid_page := None;
       f_metadata := Some empty_metadata; f_formatted := Some "A Source.";
       f_current_url := None; f_error := None |} in
  @generate_source_key spec_models (Some empty_metadata) = None /\
  @phase2_step spec_models plain_formatter "Chicago Manual of Style" new_history data =
    (@add spec_models new_history (Some empty_metadata) "A Source.",
     {| original := "a source"; formatted := "A Source.";
        pc_metadata := Some empty_metadata; pc_url := None; success := true;
        error := None; citation_form := "full" |},
     [write_note endnote "1" "A Source."]).
Proof.
  intros data. split; [reflexivity|].
  apply (@unkeyed_source_is_cited_in_full spec_models plain_formatter
           "Chicago Manual of Style" new_history data empty_metadata "A Source.");
    try reflexivity.
  discriminate.
Defined.

Lemma references_removal_keeps_the_rest_witness :
  is_references_heading [Some "References"] = true /\
  update_body ([P [Some "Text"]] ++ P [Some "References"] :: [P [Some "Old entry"]; SectPr])
              [P [Some "Bibliography"]] =
  insert_references
    ([P [Some "Text"]] ++ filter (fun c => negb (is_paragraph c)) [P [Some "Old entry"]; SectPr])
    [P [Some "Bibliography"]].
Proof.
  split; [reflexivity|].
  apply (references_removal_keeps_the_rest [P [Some "Text"]] [P [Some "Old entry"]; SectPr]
           [P [Some "Bibliography"]] [Some "References"]).
  - intros t [<- | []]. reflexivity.
  - reflexivity.
Defined.

Lemma second_run_replaces_the_reference_list_witness :
  is_references_heading [Some "References"] = true /\
  update_body (update_body [P [Some "Text"]; SectPr]
                 [P [Some "References"]; P [Some "Old entry"]])
              [P [Some "Bibliography"]; P [Some "New entry"]] =
  update_body [P [Some "Text"]; SectPr] [P [Some "Bibliography"]; P [Some "New entry"]].
Proof.
  split; [reflexivity|].
  apply (second_run_replaces_the_reference_list [P [Some "Text"]; SectPr]
           [P [Some "References"]; P [Some "Old entry"]]
           [P [Some "Bibliography"]; P [Some "New entry"]]
           [P [Some "Old entry"]] [Some "References"]).
  - reflexivity.
  - reflexivity.
  - reflexivity.
  - intros _. exists [P [Some "Text"]]. reflexivity.
Defined.

Lemma one_paragraph_per_reference_witness :
  Py.has_char newline "Smith, A. (2020). <i>A Book</i>. Press." = false /\
  length (_create_reference_paragraphs
            (_generate_reference_list ["Smith, A. (2020). <i>A Book</i>. Press."] "Harvard")) = 4.
Proof.
  split; [reflexivity|].
  rewrite (one_paragraph_per_reference ["Smith, A. (2020). <i>A Book</i>. Press."] "Harvard").
  - reflexivity.
  - intros f [<- | []]. reflexivity.
Defined.

Lemma regenerated_list_replaces_the_old_one_witness :
  update_references
    (update_references [P [Some "Text"]; SectPr]
       (_generate_reference_list ["Old, A. (1999). Old."] "Harvard"))
    (_generate_reference_list ["New, B. (2020). New."] "AAA (Anthropology)")
  = update_references [P [Some "Text"]; SectPr]
      (_generate_reference_list ["New, B. (2020). New."] "AAA (Anthropology)").
Proof.
  apply (regenerated_list_replaces_the_old_one [P [Some "Text"]; SectPr]
           ["Old, A. (1999). Old."] ["New, B. (2020). New."] "Harvard" "AAA (Anthropology)").
  intros _. exists [P [Some "Text"]]. reflexivity.
Defined.

Lemma activated_links_resolve_witness :
  let entries :=
    [ {| e_id := "rId1"; e_type := "http://schemas.openxmlformats.org/officeDocument/2006/relationships/styles";
         e_target := "styles.xml"; e_mode := EmptyString |} ] in
  let paras := [[Run (Some "See https://example.org/a, and http://example.org/b.")]] in
  NoDup (map e_id entries) /\
  Forall2 (links_ok (process_part entries paras).1) paras (process_part entries paras).2.
Proof.
  intros entries paras.
  assert (Hnd : NoDup (map e_id entries)) by (repeat constructor; set_solver).
  split; [exact Hnd|].
  exact (proj2 (activated_links_resolve entries paras Hnd)).
Defined.

End FurtherExamples.
